(** * capture-har: a shallow embedding of [lib/index.js]

    The module performs one HTTP exchange, or a chain of exchanges across
    redirects, and records it as a HAR 1.2 log.  The embedding follows the
    source function by function and keeps its names.

    - JavaScript strings are byte strings (their UTF-8 encoding), so that
      [Buffer.byteLength] is the length of the string.
    - The transport ([request-promise]), the URL, cookie, content-type and
      query-string parsers, the clock and [encoding-util] are collaborators:
      they are the fields of the class [Collaborators] and of the [World]
      that answers every hop.
    - The headers object of a request configuration is a JavaScript object
      shared by reference between the caller's configuration and the
      configuration of every redirect hop; it lives in a [Store].
    - A promise that never settles is [None]; the recursion of
      [captureEntries] is driven by fuel, one unit per hop. *)

From Stdlib Require Import ZArith NArith List String Ascii Lia Bool QArith.
From Stdlib.Strings Require Import Byte.
From stdpp Require Import base gmap.
Import ListNotations.
Open Scope string_scope.
Open Scope list_scope.
Open Scope Z_scope.

(* ================================================================= *)
(** ** JavaScript values used by the module *)

(** A header or query value: [undefined], a string, or an array of strings. *)
Inductive JsVal : Type :=
| VUndef
| VStr (s : string)
| VArr (l : list string).

(** A plain object with string keys, in insertion order. *)
Definition JsObj : Type := list (string * JsVal).

Definition truthy (v : JsVal) : bool :=
  match v with
  | VUndef => false
  | VStr s => negb (s =? "")%string
  | VArr _ => true
  end.

(** Truthiness of a string that may be [undefined]. *)
Definition truthyStr (s : option string) : bool :=
  match s with
  | Some t => negb (t =? "")%string
  | None => false
  end.

(** [obj[key]]: the first (and only) property named [key], or [undefined]. *)
Fixpoint getProp {A : Type} (o : list (string * A)) (key : string) : option A :=
  match o with
  | [] => None
  | (k, v) :: rest => if (k =? key)%string then Some v else getProp rest key
  end.

Definition getVal (o : JsObj) (key : string) : JsVal :=
  match getProp o key with
  | Some v => v
  | None => VUndef
  end.

(** [obj[key] = v]: an existing property keeps its place, a new one is
    appended. *)
Fixpoint setProp {A : Type} (o : list (string * A)) (key : string) (v : A)
  : list (string * A) :=
  match o with
  | [] => [(key, v)]
  | (k, w) :: rest =>
      if (k =? key)%string then (k, v) :: rest else (k, w) :: setProp rest key v
  end.

(** [Object.keys(obj)]. *)
Definition keys {A : Type} (o : list (string * A)) : list string := map fst o.

(** An extended number: a finite integer or [Infinity]. *)
Inductive ExtNum : Type :=
| Finite (z : Z)
| Infinity.

(** [Number.isFinite]. *)
Definition isFinite (n : ExtNum) : bool :=
  match n with
  | Finite _ => true
  | Infinity => false
  end.

(** [a > b] where [a] is an integer or [NaN] ([None]). *)
Definition gtExt (a : option Z) (b : ExtNum) : bool :=
  match a, b with
  | Some x, Finite y => x >? y
  | _, _ => false
  end.

(* ================================================================= *)
(** ** String primitives *)

Module Str.

Definition upperChar (c : ascii) : ascii :=
  let n := N_of_ascii c in
  if ((97 <=? n) && (n <=? 122))%N then ascii_of_N (n - 32) else c.

Definition lowerChar (c : ascii) : ascii :=
  let n := N_of_ascii c in
  if ((65 <=? n) && (n <=? 90))%N then ascii_of_N (n + 32) else c.

Fixpoint mapChars (f : ascii -> ascii) (s : string) : string :=
  match s with
  | EmptyString => EmptyString
  | String c rest => String (f c) (mapChars f rest)
  end.

(** [String.prototype.toUpperCase] and [toLowerCase] on ASCII letters. *)
Definition toUpperCase : string -> string := mapChars upperChar.
Definition toLowerCase : string -> string := mapChars lowerChar.

(** [s.split(sep)] for a one-character separator. *)
Fixpoint splitAcc (sep : ascii) (s : string) (cur : string) : list string :=
  match s with
  | EmptyString => [cur]
  | String c rest =>
      if Ascii.eqb c sep then cur :: splitAcc sep rest EmptyString
      else splitAcc sep rest (cur ++ String c EmptyString)%string
  end.

Definition split (sep : ascii) (s : string) : list string :=
  splitAcc sep s EmptyString.

Definition isWhiteSpace (c : ascii) : bool :=
  let n := N_of_ascii c in
  ((n =? 32) || ((9 <=? n) && (n <=? 13)))%N.

Fixpoint skipWhiteSpace (s : string) : string :=
  match s with
  | String c rest => if isWhiteSpace c then skipWhiteSpace rest else s
  | EmptyString => s
  end.

Definition digitOf (c : ascii) : option Z :=
  let n := N_of_ascii c in
  if ((48 <=? n) && (n <=? 57))%N then Some (Z.of_N (n - 48)) else None.

(** The longest prefix of decimal digits, read as a number. *)
Fixpoint digits (s : string) (acc : option Z) : option Z :=
  match s with
  | String c rest =>
      match digitOf c with
      | Some d =>
          digits rest (Some (10 * match acc with Some a => a | None => 0 end + d))
      | None => acc
      end
  | EmptyString => acc
  end.

(** [parseInt(s, 10)]; [None] is [NaN]. *)
Definition parseInt (s : string) : option Z :=
  match skipWhiteSpace s with
  | String "-" rest => option_map Z.opp (digits rest None)
  | String "+" rest => digits rest None
  | t => digits t None
  end.

(** [String(v)] for a header value, as [parseInt] first converts its
    argument. *)
Definition ofVal (v : JsVal) : string :=
  match v with
  | VUndef => "undefined"
  | VStr s => s
  | VArr l => String.concat "," l
  end.

End Str.

(* ================================================================= *)
(** ** Base64 ([Buffer.prototype.toString('base64')], RFC 4648) *)

Module Base64.

Definition alphabet : string :=
  "ABCDEFGHIJKLMNOPQRSTUVWXYZabcdefghijklmnopqrstuvwxyz0123456789+/".

Definition pad : ascii := "="%char.

(** The character of a sextet. *)
Definition char (n : N) : ascii :=
  match String.get (N.to_nat n) alphabet with
  | Some c => c
  | None => "A"%char
  end.

Fixpoint indexFrom (c : ascii) (s : string) (i : N) : option N :=
  match s with
  | EmptyString => None
  | String d rest => if Ascii.eqb c d then Some i else indexFrom c rest (i + 1)
  end.

(** The sextet of a character of the alphabet. *)
Definition index (c : ascii) : option N := indexFrom c alphabet 0.

Definition sextet1 (a : N) : N := (a / 4)%N.
Definition sextet2 (a b : N) : N := ((a mod 4) * 16 + b / 16)%N.
Definition sextet3 (b c : N) : N := ((b mod 16) * 4 + c / 64)%N.
Definition sextet4 (c : N) : N := (c mod 64)%N.

Fixpoint encode (bs : list byte) : string :=
  match bs with
  | [] => EmptyString
  | [a] =>
      let x := Byte.to_N a in
      String (char (sextet1 x)) (String (char (sextet2 x 0))
        (String pad (String pad EmptyString)))
  | [a; b] =>
      let x := Byte.to_N a in
      let y := Byte.to_N b in
      String (char (sextet1 x)) (String (char (sextet2 x y))
        (String (char (sextet3 y 0)) (String pad EmptyString)))
  | a :: b :: c :: rest =>
      let x := Byte.to_N a in
      let y := Byte.to_N b in
      let z := Byte.to_N c in
      String (char (sextet1 x)) (String (char (sextet2 x y))
        (String (char (sextet3 y z)) (String (char (sextet4 z)) (encode rest))))
  end.

Definition octet1 (s1 s2 : N) : N := (s1 * 4 + s2 / 16)%N.
Definition octet2 (s2 s3 : N) : N := ((s2 mod 16) * 16 + s3 / 4)%N.
Definition octet3 (s3 s4 : N) : N := ((s3 mod 4) * 64 + s4)%N.

(** The decoder: quadruples of characters, padding only in the last one. *)
Fixpoint decode (s : string) : option (list byte) :=
  match s with
  | EmptyString => Some []
  | String c1 (String c2 (String c3 (String c4 rest))) =>
      s1 ← index c1;
      s2 ← index c2;
      o1 ← Byte.of_N (octet1 s1 s2);
      if Ascii.eqb c3 pad then
        if Ascii.eqb c4 pad then
          match rest with EmptyString => Some [o1] | _ => None end
        else None
      else
        s3 ← index c3;
        o2 ← Byte.of_N (octet2 s2 s3);
        if Ascii.eqb c4 pad then
          match rest with EmptyString => Some [o1; o2] | _ => None end
        else
          s4 ← index c4;
          o3 ← Byte.of_N (octet3 s3 s4);
          tl ← decode rest;
          Some (o1 :: o2 :: o3 :: tl)
  | _ => None
  end.

(** The check that a sextet is found again from its character, which is
    not the padding character. *)
Definition sextetOk (n : N) : bool :=
  match index (char n) with
  | Some m => (m =? n)%N && negb (Ascii.eqb (char n) pad)
  | None => false
  end.

End Base64.

(* ================================================================= *)
(** ** Requests, responses, errors *)

(** The fields of a parsed URL ([url.parse]) that the module reads. *)
Record Uri : Type := {
  uri_href : string;
  uri_query : option string;
  uri_host : string;
  uri_hostname : string }.

(** The request object of the transport.  [req_sent] is
    [request.req && request.req._headers]. *)
Record ReqObject : Type := {
  req_method : string;
  req_uri : Uri;
  req_headers : list (string * string);
  req_sent : option JsObj;
  req_body : option string }.

(** A response body: [undefined] (or another falsy value that is not a
    string), a string, a Buffer, or any other truthy value, given by its
    [JSON.stringify]. *)
Inductive Body : Type :=
| BodyUndefined
| BodyString (s : string)
| BodyBuffer (b : list byte)
| BodyObject (json : string).

Record Response : Type := {
  res_statusCode : Z;
  res_statusMessage : string;
  res_httpVersion : string;
  res_headers : JsObj;
  res_body : Body;
  res_request : ReqObject }.

Record Error : Type := {
  err_message : string;
  err_code : option string }.

(** What [contentType.parse] is applied to. *)
Inductive Message : Type :=
| MsgRequest (r : ReqObject)
| MsgResponse (r : Response).

(** A cookie as [tough.parse] returns it; [ck_expires] is [Some] when
    [expires] is a [Date] (milliseconds since the epoch). *)
Record Cookie : Type := {
  ck_key : string;
  ck_value : string;
  ck_httpOnly : bool;
  ck_secure : bool;
  ck_path : option string;
  ck_domain : option string;
  ck_expires : option Z }.

(** The external capabilities.  [contentTypeParse] and [toughParse] return
    [None] where the library throws or returns nothing; [pkgName] and
    [pkgVersion] are the fields of [package.json]. *)
Class Collaborators : Type := {
  transformBinaryToUtf8 : JsVal -> JsVal;
  urlResolve : Uri -> JsVal -> string;
  urlParse : string -> Uri;
  querystringParse : option string -> JsObj;
  contentTypeParse : Message -> option string;
  toughParse : string -> option Cookie;
  toISOString : Z -> string;
  netIsIP : string -> bool;
  dnsLookup : string -> option string;
  pkgName : string;
  pkgVersion : string }.

(* ================================================================= *)
(** ** The HAR records *)

Record NameValue : Type := {
  nv_name : string;
  nv_value : JsVal }.

Record HarPostData : Type := {
  pd_mimeType : string;
  pd_text : string }.

Record HarCookie : Type := {
  hk_name : string;
  hk_value : string;
  hk_httpOnly : bool;
  hk_secure : bool;
  hk_path : option string;
  hk_domain : option string;
  hk_expires : option string }.

Record HarContent : Type := {
  content_size : Z;
  content_mimeType : string;
  content_text : option string;
  content_encoding : option string }.

Record HarRequest : Type := {
  hreq_method : string;
  hreq_url : string;
  hreq_httpVersion : string;
  hreq_cookies : list HarCookie;
  hreq_headers : list NameValue;
  hreq_queryString : list NameValue;
  hreq_postData : option HarPostData;
  hreq_headersSize : Z;
  hreq_bodySize : Z }.

Record HarResponse : Type := {
  hres_status : Z;
  hres_statusText : string;
  hres_httpVersion : string;
  hres_cookies : list HarCookie;
  hres_headers : list NameValue;
  hres_content : HarContent;
  hres_redirectURL : string;
  hres_headersSize : Z;
  hres_bodySize : Z;
  hres_remoteAddress : option string;
  hres_error : option Error }.

Record HarTimings : Type := {
  t_send : Z;
  t_receive : Z;
  t_wait : Q }.

(** An entry; its [cache] field is always the empty object. *)
Record HarEntry : Type := {
  entry_startedDateTime : string;
  entry_time : Q;
  entry_request : HarRequest;
  entry_response : HarResponse;
  entry_timings : HarTimings }.

Record HarLog : Type := {
  log_version : string;
  log_creator : string * string;
  log_entries : list HarEntry }.

(** The HAR configuration after [buildHarConfig]; [hc_withContent] may
    still be [undefined] for the functions that read it. *)
Record HarConfig : Type := {
  hc_withContent : option bool;
  hc_maxContentLength : ExtNum }.

(** The HAR configuration as the caller gives it; [None] is an absent
    property. *)
Record HarOptions : Type := {
  ho_withContent : option bool;
  ho_maxContentLength : option ExtNum }.

Record Meta : Type := {
  meta_startTime : Z;
  meta_duration : Q;
  meta_remoteAddress : option string }.

(* ================================================================= *)
(** ** HAR entry builder *)

Section Builder.
Context `{Collaborators}.

Definition flattenProp (kv : string * JsVal) : list NameValue :=
  let (key, value) := kv in
  match value with
  | VArr l =>
      map (fun v => {| nv_name := key;
                       nv_value := transformBinaryToUtf8 (VStr v) |}) l
  | _ => [ {| nv_name := key; nv_value := transformBinaryToUtf8 value |} ]
  end.

Definition buildFlattenedNameValueMap (obj : option JsObj) : list NameValue :=
  match obj with
  | None => []
  | Some o => fold_left (fun result kv => result ++ flattenProp kv) o []
  end.

Definition buildHarHeaders (headers : option JsObj) : list NameValue :=
  buildFlattenedNameValueMap headers.

Definition buildHarQuery (query : option string) : list NameValue :=
  buildFlattenedNameValueMap (Some (querystringParse query)).

Definition getMimeType (m : Message) : string :=
  match contentTypeParse m with
  | Some type => type
  | None => "x-unknown"
  end.

Definition buildHarPostData (body : option string) (request : ReqObject)
  : option HarPostData :=
  match body with
  | Some text =>
      if truthyStr body
      then Some {| pd_mimeType := getMimeType (MsgRequest request);
                   pd_text := text |}
      else None
  | None => None
  end.

Definition parseHttpVersion (response : option Response) : string :=
  match response with
  | Some r =>
      if truthyStr (Some (res_httpVersion r))
      then ("HTTP/" ++ res_httpVersion r)%string
      else "unknown"
  | None => "unknown"
  end.

Definition parseRedirectUrl (response : option Response) : string :=
  match response with
  | Some r =>
      if (300 <=? res_statusCode r) && (res_statusCode r <? 400) then
        let location := transformBinaryToUtf8 (getVal (res_headers r) "location") in
        if truthy location
        then urlResolve (req_uri (res_request r)) location
        else ""
      else ""
  | None => ""
  end.

Definition byteLength (s : string) : Z := Z.of_nat (String.length s).

Definition buildHarContent (response : option Response) (harConfig : HarConfig)
  : HarContent :=
  match response with
  | None =>
      {| content_size := 0; content_mimeType := "x-unknown";
         content_text := None; content_encoding := None |}
  | Some r =>
      let withContent :=
        match hc_withContent harConfig with Some b => b | None => true end in
      let mimeType := getMimeType (MsgResponse r) in
      let '(text, encoding) :=
        match res_body r with
        | BodyUndefined => (None, None)
        | BodyString s =>
            if withContent && negb (s =? "")%string then (Some s, None)
            else (None, None)
        | BodyBuffer b =>
            if withContent then (Some (Base64.encode b), Some "base64")
            else (None, None)
        | BodyObject json =>
            if withContent then (Some json, Some "utf8") else (None, None)
        end in
      let size :=
        match res_body r with
        | BodyString s => byteLength s
        | BodyBuffer b => Z.of_nat (List.length b)
        | _ =>
            match text with
            | Some t => if truthyStr text then byteLength t else 0
            | None => 0
            end
        end in
      {| content_size := size; content_mimeType := mimeType;
         content_text := text; content_encoding := encoding |}
  end.

Definition buildHarCookie (cookie : Cookie) : HarCookie :=
  {| hk_name := ck_key cookie;
     hk_value := ck_value cookie;
     hk_httpOnly := ck_httpOnly cookie;
     hk_secure := ck_secure cookie;
     hk_path := if truthyStr (ck_path cookie) then ck_path cookie else None;
     hk_domain := if truthyStr (ck_domain cookie) then ck_domain cookie else None;
     hk_expires := option_map toISOString (ck_expires cookie) |}.

Definition buildHarCookies (cookies : option (list string)) : list HarCookie :=
  match cookies with
  | None => []
  | Some l => map buildHarCookie (omap toughParse l)
  end.

(** [request.headers.cookie && request.headers.cookie.split(';')]. *)
Definition cookieStrings (headers : list (string * string))
  : option (list string) :=
  match getProp headers "cookie" with
  | Some s => if (s =? "")%string then None else Some (Str.split ";" s)
  | None => None
  end.

Definition buildHarRequest (request : ReqObject) : HarRequest :=
  {| hreq_method := Str.toUpperCase (req_method request);
     hreq_url := uri_href (req_uri request);
     hreq_httpVersion := "HTTP/1.1";
     hreq_cookies := buildHarCookies (cookieStrings (req_headers request));
     hreq_headers :=
       buildHarHeaders
         (match req_sent request with
          | Some sent => Some sent
          | None => Some (map (fun kv => (fst kv, VStr (snd kv))) (req_headers request))
          end);
     hreq_queryString := buildHarQuery (uri_query (req_uri request));
     hreq_postData := buildHarPostData (req_body request) request;
     hreq_headersSize := -1;
     hreq_bodySize := -1 |}.

(** [response && response.headers['set-cookie']], wrapped in an array when
    it is a single truthy value. *)
Definition setCookieStrings (response : option Response) : option (list string) :=
  match response with
  | Some r =>
      match getVal (res_headers r) "set-cookie" with
      | VArr l => Some l
      | VStr s => if (s =? "")%string then None else Some [s]
      | VUndef => None
      end
  | None => None
  end.

Definition buildHarResponse (error : option Error) (response : option Response)
    (harConfig : HarConfig) (meta : Meta) : HarResponse :=
  {| hres_status :=
       match response with
       | Some r => if res_statusCode r =? 0 then -1 else res_statusCode r
       | None => -1
       end;
     hres_statusText :=
       match response with Some r => res_statusMessage r | None => "" end;
     hres_httpVersion := parseHttpVersion response;
     hres_cookies := buildHarCookies (setCookieStrings response);
     hres_headers := buildHarHeaders (option_map res_headers response);
     hres_content := buildHarContent response harConfig;
     hres_redirectURL := parseRedirectUrl response;
     hres_headersSize := -1;
     hres_bodySize := -1;
     hres_remoteAddress := meta_remoteAddress meta;
     hres_error :=
       match error with
       | Some e => Some {| err_message := err_message e; err_code := err_code e |}
       | None => None
       end |}.

Definition buildHarEntry (request : ReqObject) (error : option Error)
    (response : option Response) (harConfig : HarConfig) (meta : Meta)
  : HarEntry :=
  {| entry_startedDateTime := toISOString (meta_startTime meta);
     entry_time := meta_duration meta;
     entry_request := buildHarRequest request;
     entry_response := buildHarResponse error response harConfig meta;
     entry_timings := {| t_send := 0; t_receive := 0; t_wait := meta_duration meta |} |}.

Definition hrtimeToMilliseconds (hrtime : Z * Z) : Q :=
  let (seconds, nanoseconds) := hrtime in
  (inject_Z seconds * 1000 + inject_Z nanoseconds / 1000000)%Q.

End Builder.

(* ================================================================= *)
(** ** Request configuration and the shared headers objects *)

(** [followRedirect]: a boolean (any other value by its truthiness) or a
    predicate over the response. *)
Inductive FollowRedirect : Type :=
| FollowBool (b : bool)
| FollowFn (f : Response -> bool).

(** A reference to a headers object. *)
Definition ref : Type := positive.

Definition Headers : Type := list (string * string).

(** The objects that request configurations point to. *)
Abbreviation Store := (gmap positive Headers).

(** The request configuration; [None] is an absent property.  [rc_headers]
    is a reference: [Object.assign] copies it, not the object. *)
Record RequestConfig : Type := {
  rc_url : string;
  rc_method : option string;
  rc_headers : option ref;
  rc_body : option string;
  rc_timeout : option Z;
  rc_followRedirect : option FollowRedirect;
  rc_maxRedirects : option Z;
  rc_lookup : option (string -> option string) }.

(** What [captureHar] accepts: a URL or a configuration. *)
Inductive RequestInput : Type :=
| InUrl (url : string)
| InConfig (config : RequestConfig).

(** The options the transport is started with: the configuration and the
    contents of its headers object at that moment.  The overrides
    [resolveWithFullResponse: true], [simple: false], [followRedirect: false]
    and the wrapped [lookup] are the same for every exchange. *)
Record Options : Type := {
  opt_config : RequestConfig;
  opt_headers : option Headers }.

(* ================================================================= *)
(** ** One exchange, as a machine driven by the events of the transport *)

(** What happens to the request of one exchange, in the order it happens:
    - [EvLookup host]: the transport calls [options.lookup] for [host];
    - [EvResponse res]: the ['response'] event, the head has arrived;
    - [EvData length]: a ['data'] event with a chunk of [length] bytes;
    - [EvEnd]: the ['end'] event;
    - [EvError e]: an ['error'] event of the transport;
    - [EvComplete res]: the exchange completed, the promise is fulfilled
      with the full response;
    - [EvFail cause res]: the promise is rejected with an error that carries
      a response ([error.response]);
    - [EvTimeout]: the deadline given to [setTimeout] passes. *)
Inductive Event : Type :=
| EvLookup (host : string)
| EvResponse (res : Response)
| EvData (length : Z)
| EvEnd
| EvError (e : Error)
| EvComplete (res : Response)
| EvFail (cause : Error) (res : Response)
| EvTimeout.

(** How the promise of the exchange settled. *)
Inductive Settled : Type :=
| Fulfilled (res : Response)
| Rejected (cause : Error) (res : option Response).

(** What the handlers of the module call on the request. *)
Inductive Call : Type :=
| CallAbort
| CallDestroy
| CallEnd
| CallEmitError (e : Error)
| CallClearTimeout.

Inductive Timer : Type :=
| TimerNone
| TimerPending
| TimerCleared
| TimerFired.

(** The state of an exchange.  [cap_settled] keeps the outcome with
    [dnsCache.remoteAddress] as it was when the promise settled;
    [cap_calls] lists the calls of the handlers, oldest first. *)
Record Capture : Type := {
  cap_settled : option (Settled * option string);
  cap_bufferLenght : Z;
  cap_timer : Timer;
  cap_endListener : bool;
  cap_remoteAddress : option string;
  cap_calls : list Call }.

(** What the world answers to one hop: the request object, the events in
    the order they happen, [Date.now()] at the start of the hop and the
    [process.hrtime] difference when its promise settles. *)
Record Exchange : Type := {
  ex_request : ReqObject;
  ex_events : list Event;
  ex_startTime : Z;
  ex_hrtime : Z * Z }.

(** The world answers every exchange; it may answer the same options
    differently from hop to hop, so it is also given the depth of the hop. *)
Definition World : Type := Z -> Options -> Exchange.

Definition maxSizeError : Error :=
  {| err_message := "Maximum response size exceeded";
     err_code := Some "MAX_RES_BODY_SIZE" |}.

Definition timeoutError : Error :=
  {| err_message := "global ETIMEDOUT"; err_code := Some "ETIMEDOUT" |}.

Definition noLocationError : Error :=
  {| err_message := "Missing location header"; err_code := Some "NOLOCATION" |}.

Definition maxRedirectsError : Error :=
  {| err_message := "Max redirects exceeded"; err_code := Some "MAXREDIRECTS" |}.

Definition called (k : Call) (c : Capture) : Capture :=
  {| cap_settled := cap_settled c;
     cap_bufferLenght := cap_bufferLenght c;
     cap_timer := cap_timer c;
     cap_endListener := cap_endListener c;
     cap_remoteAddress := cap_remoteAddress c;
     cap_calls := cap_calls c ++ [k] |}.

(** The promise settles once: later outcomes are dropped. *)
Definition settle (s : Settled) (c : Capture) : Capture :=
  match cap_settled c with
  | Some _ => c
  | None =>
      {| cap_settled := Some (s, cap_remoteAddress c);
         cap_bufferLenght := cap_bufferLenght c;
         cap_timer := cap_timer c;
         cap_endListener := cap_endListener c;
         cap_remoteAddress := cap_remoteAddress c;
         cap_calls := cap_calls c |}
  end.

(** An ['error'] event rejects the promise with that error as its cause and
    no response. *)
Definition onError (e : Error) (c : Capture) : Capture :=
  settle (Rejected e None) c.

(** [this.abort(); this.emit('error', error)]. *)
Definition abortWith (e : Error) (c : Capture) : Capture :=
  onError e (called (CallEmitError e) (called CallAbort c)).

Definition withContentOn (harConfig : HarConfig) : bool :=
  match hc_withContent harConfig with
  | Some b => b
  | None => false
  end.

Definition contentLength (res : Response) : option Z :=
  Str.parseInt (Str.ofVal (getVal (res_headers res) "content-length")).

(** The ['response'] listener. *)
Definition onResponse (harConfig : HarConfig) (res : Response) (c : Capture)
  : Capture :=
  if negb (withContentOn harConfig) then called CallEnd (called CallDestroy c)
  else if gtExt (contentLength res) (hc_maxContentLength harConfig)
       then abortWith maxSizeError c
       else c.

(** The ['data'] listener is registered only under this condition. *)
Definition dataListener (harConfig : HarConfig) : bool :=
  withContentOn harConfig && isFinite (hc_maxContentLength harConfig).

Definition onData (harConfig : HarConfig) (length : Z) (c : Capture) : Capture :=
  let c' :=
    {| cap_settled := cap_settled c;
       cap_bufferLenght := cap_bufferLenght c + length;
       cap_timer := cap_timer c;
       cap_endListener := cap_endListener c;
       cap_remoteAddress := cap_remoteAddress c;
       cap_calls := cap_calls c |} in
  if gtExt (Some (cap_bufferLenght c')) (hc_maxContentLength harConfig)
  then abortWith maxSizeError c'
  else c'.

Definition setTimer (t : Timer) (listening : bool) (c : Capture) : Capture :=
  {| cap_settled := cap_settled c;
     cap_bufferLenght := cap_bufferLenght c;
     cap_timer := t;
     cap_endListener := listening;
     cap_remoteAddress := cap_remoteAddress c;
     cap_calls := cap_calls c |}.

(** The callback of [setTimeout] runs if the timer is still pending. *)
Definition onTimeout (c : Capture) : Capture :=
  match cap_timer c with
  | TimerPending => abortWith timeoutError (setTimer TimerFired (cap_endListener c) c)
  | _ => c
  end.

(** The listener registered with [once('end', ...)]: [clearTimeout]. *)
Definition onEnd (c : Capture) : Capture :=
  if cap_endListener c then
    called CallClearTimeout
      (setTimer (match cap_timer c with
                 | TimerPending => TimerCleared
                 | t => t
                 end) false c)
  else c.

Section Engine.
Context `{Collaborators}.

(** The wrapped [lookup]: the address found goes to the DNS cache. *)
Definition onLookup (requestConfig : RequestConfig) (host : string) (c : Capture)
  : Capture :=
  let lookupFn :=
    match rc_lookup requestConfig with
    | Some f => f
    | None => dnsLookup
    end in
  {| cap_settled := cap_settled c;
     cap_bufferLenght := cap_bufferLenght c;
     cap_timer := cap_timer c;
     cap_endListener := cap_endListener c;
     cap_remoteAddress := lookupFn host;
     cap_calls := cap_calls c |}.

Definition step (requestConfig : RequestConfig) (harConfig : HarConfig)
    (c : Capture) (ev : Event) : Capture :=
  match ev with
  | EvLookup host => onLookup requestConfig host c
  | EvResponse res => onResponse harConfig res c
  | EvData length => if dataListener harConfig then onData harConfig length c else c
  | EvEnd => onEnd c
  | EvError e => onError e c
  | EvComplete res => settle (Fulfilled res) c
  | EvFail cause res => settle (Rejected cause (Some res)) c
  | EvTimeout => onTimeout c
  end.

Definition run (requestConfig : RequestConfig) (harConfig : HarConfig)
    (c : Capture) (events : list Event) : Capture :=
  fold_left (step requestConfig harConfig) events c.

Definition optionsOf (store : Store) (requestConfig : RequestConfig) : Options :=
  {| opt_config := requestConfig;
     opt_headers := match rc_headers requestConfig with
                    | Some l => store !! l
                    | None => None
                    end |}.

(** The state in which the exchange starts: the timer is set when
    [timeout] is a number, and a literal IP address is recorded at once. *)
Definition start (requestConfig : RequestConfig) (reqObject : ReqObject)
    (dnsCache : option string) : Capture :=
  {| cap_settled := None;
     cap_bufferLenght := 0;
     cap_timer := match rc_timeout requestConfig with
                  | Some _ => TimerPending
                  | None => TimerNone
                  end;
     cap_endListener := match rc_timeout requestConfig with
                        | Some _ => true
                        | None => false
                        end;
     cap_remoteAddress :=
       if netIsIP (uri_hostname (req_uri reqObject))
       then Some (uri_hostname (req_uri reqObject))
       else dnsCache;
     cap_calls := [] |}.

(** [captureEntry]: the request object and the exchange after all its
    events. *)
Definition captureEntry (W : World) (depth : Z) (store : Store)
    (requestConfig : RequestConfig) (harConfig : HarConfig)
    (dnsCache : option string) : ReqObject * Capture :=
  let ex := W depth (optionsOf store requestConfig) in
  let reqObject := ex_request ex in
  (reqObject,
   run requestConfig harConfig (start requestConfig reqObject dnsCache)
       (ex_events ex)).

(** The tuple the promise of [captureEntry] resolves to, without the
    request object: [(error, response, remoteAddress)]. *)
Definition resolved (c : Capture)
  : option (option Error * option Response * option string) :=
  match cap_settled c with
  | Some (Fulfilled res, address) => Some (None, Some res, address)
  | Some (Rejected cause res, address) => Some (Some cause, res, address)
  | None => None
  end.

Definition shouldRedirect (response : option Response)
    (requestConfig : RequestConfig) (depth : Z) : bool * option Error :=
  match response with
  | None => (false, None)
  | Some r =>
      if (res_statusCode r <? 300) || (res_statusCode r >=? 400) then (false, None)
      else
        let redirectUrl := parseRedirectUrl response in
        if negb (truthyStr (Some redirectUrl)) then (false, Some noLocationError)
        else
          let followRedirect :=
            match rc_followRedirect requestConfig with
            | Some f => f
            | None => FollowBool true
            end in
          let maxRedirects :=
            match rc_maxRedirects requestConfig with
            | Some m => m
            | None => 10
            end in
          match followRedirect with
          | FollowBool false => (false, None)
          | FollowFn f => (f r, None)
          | FollowBool true =>
              if depth >? maxRedirects then (false, Some maxRedirectsError)
              else (true, None)
          end
  end.

Definition getCustomHostHeaderName (store : Store) (requestConfig : RequestConfig)
  : option string :=
  match rc_headers requestConfig with
  | None => None
  | Some l =>
      match store !! l with
      | None => None
      | Some headers =>
          find (fun key => (Str.toLowerCase key =? "host")%string) (keys headers)
      end
  end.

(** [Object.assign({}, requestConfig, { url: url })]. *)
Definition withUrl (requestConfig : RequestConfig) (url : string) : RequestConfig :=
  {| rc_url := url;
     rc_method := rc_method requestConfig;
     rc_headers := rc_headers requestConfig;
     rc_body := rc_body requestConfig;
     rc_timeout := rc_timeout requestConfig;
     rc_followRedirect := rc_followRedirect requestConfig;
     rc_maxRedirects := rc_maxRedirects requestConfig;
     rc_lookup := rc_lookup requestConfig |}.

(** [config.headers[name] = value], written through the reference. *)
Definition writeHeader (store : Store) (config : RequestConfig) (name value : string)
  : Store :=
  match rc_headers config with
  | Some l =>
      match store !! l with
      | Some headers => <[l := setProp headers name value]> store
      | None => store
      end
  | None => store
  end.

(** The store after the redirect configuration was derived. *)
Definition redirectStore (store : Store) (requestConfig redirectConfig : RequestConfig)
    (redirectURL : string) : Store :=
  match getCustomHostHeaderName store requestConfig with
  | Some customHostHeaderName =>
      writeHeader store redirectConfig customHostHeaderName
        (uri_host (urlParse redirectURL))
  | None => store
  end.

(** One hop: the entry, whether to follow, the next configuration and
    store, and the DNS cache.  [None] while the exchange is pending. *)
Definition captureHop (W : World) (store : Store) (requestConfig : RequestConfig)
    (harConfig : HarConfig) (dnsCache : option string) (depth : Z)
  : option (HarEntry * bool * RequestConfig * Store * option string) :=
  let ex := W depth (optionsOf store requestConfig) in
  let '(reqObject, c) := captureEntry W depth store requestConfig harConfig dnsCache in
  match resolved c with
  | None => None
  | Some (error0, response, remoteAddress) =>
      let '(isRedirect, redirectError) := shouldRedirect response requestConfig depth in
      let error := match error0 with Some e => Some e | None => redirectError end in
      let req := match response with Some r => res_request r | None => reqObject end in
      let entry :=
        buildHarEntry req error response harConfig
          {| meta_startTime := ex_startTime ex;
             meta_duration := hrtimeToMilliseconds (ex_hrtime ex);
             meta_remoteAddress := remoteAddress |} in
      let redirectConfig := withUrl requestConfig (hres_redirectURL (entry_response entry)) in
      Some (entry, isRedirect, redirectConfig,
            redirectStore store requestConfig redirectConfig
              (hres_redirectURL (entry_response entry)),
            remoteAddress)
  end.

(** [captureEntries]: one unit of fuel per hop; [None] when a hop never
    settles or the fuel runs out. *)
Fixpoint captureEntries (fuel : nat) (W : World) (store : Store)
    (requestConfig : RequestConfig) (harConfig : HarConfig)
    (dnsCache : option string) (depth : Z) : option (list HarEntry * Store) :=
  match fuel with
  | O => None
  | S fuel' =>
      match captureHop W store requestConfig harConfig dnsCache depth with
      | None => None
      | Some (entry, isRedirect, redirectConfig, store', dnsCache') =>
          if isRedirect then
            match captureEntries fuel' W store' redirectConfig harConfig
                    dnsCache' (depth + 1) with
            | Some (entries, store'') => Some (entry :: entries, store'')
            | None => None
            end
          else Some ([entry], store)
      end
  end.

(** The default of the second parameter of [captureHar]: [{}]. *)
Definition orEmpty (harConfig : option HarOptions) : HarOptions :=
  match harConfig with
  | Some o => o
  | None => {| ho_withContent := None; ho_maxContentLength := None |}
  end.

Definition buildHarConfig (harConfig : HarOptions) : HarConfig :=
  {| hc_withContent := match ho_withContent harConfig with
                       | Some b => Some b
                       | None => Some true
                       end;
     hc_maxContentLength := match ho_maxContentLength harConfig with
                            | Some m => m
                            | None => Infinity
                            end |}.

Definition buildRequestConfig (requestConfig : RequestInput) : RequestConfig :=
  match requestConfig with
  | InUrl url =>
      {| rc_url := url; rc_method := None; rc_headers := None; rc_body := None;
         rc_timeout := None; rc_followRedirect := None; rc_maxRedirects := None;
         rc_lookup := None |}
  | InConfig config => config
  end.

(** The envelope of the log. *)
Definition logOf (entries : list HarEntry) : HarLog :=
  {| log_version := "1.2";
     log_creator := (pkgName, pkgVersion);
     log_entries := entries |}.

(** [captureHar]: the log and the store the caller is left with. *)
Definition captureHar (fuel : nat) (W : World) (store : Store)
    (requestConfig : RequestInput) (harConfig : option HarOptions)
  : option (HarLog * Store) :=
  match captureEntries fuel W store (buildRequestConfig requestConfig)
          (buildHarConfig (orEmpty harConfig)) None 1 with
  | Some (entries, store') =>
      Some (logOf entries, store')
  | None => None
  end.

End Engine.

(* ================================================================= *)
(** ** The chain seen from outside the recursion *)

Section Chain.
Context `{Collaborators}.

(** The configuration, store, DNS cache and depth with which hop [n]
    (counted from 0) starts, when every earlier hop was followed. *)
Fixpoint hopStart (n : nat) (W : World) (harConfig : HarConfig) (store : Store)
    (requestConfig : RequestConfig) (dnsCache : option string) (depth : Z)
  : option (Store * RequestConfig * option string * Z) :=
  match n with
  | O => Some (store, requestConfig, dnsCache, depth)
  | S n' =>
      match captureHop W store requestConfig harConfig dnsCache depth with
      | Some (_, true, redirectConfig, store', dnsCache') =>
          hopStart n' W harConfig store' redirectConfig dnsCache' (depth + 1)
      | _ => None
      end
  end.

(** The entry of hop [n] and whether it is followed. *)
Definition hopEntry (n : nat) (W : World) (harConfig : HarConfig) (store : Store)
    (requestConfig : RequestConfig) (dnsCache : option string) (depth : Z)
  : option (HarEntry * bool) :=
  match hopStart n W harConfig store requestConfig dnsCache depth with
  | Some (store', config, dnsCache', depth') =>
      match captureHop W store' config harConfig dnsCache' depth' with
      | Some (entry, isRedirect, _, _, _) => Some (entry, isRedirect)
      | None => None
      end
  | None => None
  end.

(** What the promise of hop [n] resolves to. *)
Definition hopOutcome (n : nat) (W : World) (harConfig : HarConfig) (store : Store)
    (requestConfig : RequestConfig) (dnsCache : option string) (depth : Z)
  : option (option Error * option Response * option string) :=
  match hopStart n W harConfig store requestConfig dnsCache depth with
  | Some (store', config, dnsCache', depth') =>
      resolved (snd (captureEntry W depth' store' config harConfig dnsCache'))
  | None => None
  end.

End Chain.

(** The entry of a hop whose promise resolved to [outcome]. *)
Definition entryOf `{Collaborators} (W : World) (store : Store)
    (requestConfig : RequestConfig) (harConfig : HarConfig) (depth : Z)
    (outcome : option Error * option Response * option string) : HarEntry :=
  let '(error0, response, remoteAddress) := outcome in
  let ex := W depth (optionsOf store requestConfig) in
  buildHarEntry
    (match response with Some r => res_request r | None => ex_request ex end)
    (match error0 with
     | Some e => Some e
     | None => snd (shouldRedirect response requestConfig depth)
     end)
    response harConfig
    {| meta_startTime := ex_startTime ex;
       meta_duration := hrtimeToMilliseconds (ex_hrtime ex);
       meta_remoteAddress := remoteAddress |}.

(** [captureHar] resolves as soon as there is fuel for [n + 1] hops, with
    [n + 1] entries of which [entry] is the last. *)
Definition stopsAt `{Collaborators} (W : World) (store : Store)
    (input : RequestInput) (ho : option HarOptions) (n : nat) (entry : HarEntry)
  : Prop :=
  exists log store',
    length (log_entries log) = S n /\
    log_entries log !! n = Some entry /\
    forall fuel, (n < fuel)%nat ->
      captureHar fuel W store input ho = Some (log, store').

(** The bytes that the ['data'] events of a trace carry. *)
Fixpoint dataTotal (events : list Event) : Z :=
  match events with
  | [] => 0
  | EvData length :: rest => length + dataTotal rest
  | _ :: rest => dataTotal rest
  end.

(** Where the outcome of a promise comes from: an event of the transport,
    the timer, or a size check of the module. *)
Definition origin (harConfig : HarConfig) (events : list Event) (s : Settled) : Prop :=
  match s with
  | Fulfilled res => In (EvComplete res) events
  | Rejected cause (Some res) => In (EvFail cause res) events
  | Rejected cause None =>
      In (EvError cause) events
      \/ cause = timeoutError
      \/ (withContentOn harConfig = true /\ cause = maxSizeError)
  end.

(** The transport hands out responses that belong to the request object
    of the hop, and the request object of a hop whose URL came out of
    [url.resolve] has that URL as its [href]. *)
Definition faithful `{Collaborators} (W : World) : Prop :=
  forall (depth : Z) (o : Options),
    (forall res, In (EvComplete res) (ex_events (W depth o)) ->
                 res_request res = ex_request (W depth o)) /\
    (forall cause res, In (EvFail cause res) (ex_events (W depth o)) ->
                       res_request res = ex_request (W depth o)) /\
    (forall base location,
        rc_url (opt_config o) = urlResolve base location ->
        uri_href (req_uri (ex_request (W depth o))) = rc_url (opt_config o)).

(* ================================================================= *)
(** ** Vocabulary for the properties of the builders and of the machine *)

(** The number of name/value pairs a property contributes when flattened. *)
Definition valueCount (v : JsVal) : nat :=
  match v with
  | VArr l => length l
  | _ => 1%nat
  end.

Definition isArray (v : JsVal) : bool :=
  match v with
  | VArr _ => true
  | _ => false
  end.

(** Does the separator occur in the string? *)
Fixpoint occurs (sep : ascii) (s : string) : bool :=
  match s with
  | EmptyString => false
  | String c rest => Ascii.eqb c sep || occurs sep rest
  end.

Definition isLookup (ev : Event) : bool :=
  match ev with EvLookup _ => true | _ => false end.

Definition isEnd (ev : Event) : bool :=
  match ev with EvEnd => true | _ => false end.

Definition isTimeout (ev : Event) : bool :=
  match ev with EvTimeout => true | _ => false end.

(** The events of a transfer that is going well: lookup, head, chunks, end. *)
Definition isTransfer (ev : Event) : bool :=
  match ev with
  | EvLookup _ | EvResponse _ | EvData _ | EvEnd => true
  | _ => false
  end.

(** An event that the size checks let pass under the maximum [m]: a head
    whose Content-Length is absent, unreadable or at most [m]; a chunk of
    non-negative length; anything else. *)
Definition withinHead (m : Z) (ev : Event) : bool :=
  match ev with
  | EvResponse res =>
      match contentLength res with
      | Some n => n <=? m
      | None => true
      end
  | EvData length => 0 <=? length
  | _ => true
  end.

(** The decimal numeral with the given digits, the most significant first,
    and the number it denotes. *)
Definition digitChar (d : nat) : ascii := ascii_of_nat (48 + d).

Fixpoint numeral (digits : list nat) : string :=
  match digits with
  | [] => EmptyString
  | d :: rest => String (digitChar d) (numeral rest)
  end.

Definition numeralValue (digits : list nat) : Z :=
  fold_left (fun acc d => 10 * acc + Z.of_nat d) digits 0.

(** The body of a response of which nothing was read. *)
Definition noBody (res : Response) : Prop :=
  res_body res = BodyUndefined \/ res_body res = BodyString "".

(** The transport reads nothing of a response that was destroyed at its
    head: the responses it hands over have no body. *)
Definition handsOverNoBody (W : World) : Prop :=
  forall (depth : Z) (o : Options),
    (forall res, In (EvComplete res) (ex_events (W depth o)) -> noBody res) /\
    (forall cause res, In (EvFail cause res) (ex_events (W depth o)) -> noBody res).

(* ================================================================= *)
(** ** A concrete world *)

Module Demo.

(** The host of a URL of the form [http://host/path]. *)
Fixpoint untilSlash (s : string) : string :=
  match s with
  | String c rest => if Ascii.eqb c "/" then EmptyString else String c (untilSlash rest)
  | EmptyString => EmptyString
  end.

Definition hostOf (url : string) : string :=
  untilSlash (String.substring 7 (String.length url - 7) url).

Definition collaborators : Collaborators := {|
  transformBinaryToUtf8 := fun v => v;
  urlResolve := fun _ location =>
    match location with VStr s => s | _ => EmptyString end;
  urlParse := fun url =>
    {| uri_href := url; uri_query := None;
       uri_host := hostOf url; uri_hostname := hostOf url |};
  querystringParse := fun _ => [];
  contentTypeParse := fun m =>
    match m with
    | MsgResponse r =>
        match getVal (res_headers r) "content-type" with
        | VStr s => Some s
        | _ => None
        end
    | MsgRequest r => getProp (req_headers r) "content-type"
    end;
  toughParse := fun _ => None;
  toISOString := fun _ => "1970-01-01T00:00:00.000Z";
  netIsIP := fun _ => false;
  dnsLookup := fun _ => Some "192.0.2.1";
  pkgName := "capture-har";
  pkgVersion := "1.0.0" |}.

#[local] Existing Instance collaborators.

Definition requestOf (o : Options) : ReqObject :=
  {| req_method := match rc_method (opt_config o) with Some m => m | None => "GET" end;
     req_uri := urlParse (rc_url (opt_config o));
     req_headers := match opt_headers o with Some h => h | None => [] end;
     req_sent := None;
     req_body := rc_body (opt_config o) |}.

Definition respond (o : Options) (status : Z) (headers : JsObj) (body : Body)
  : Response :=
  {| res_statusCode := status;
     res_statusMessage := "";
     res_httpVersion := "1.1";
     res_headers := headers;
     res_body := body;
     res_request := requestOf o |}.

Definition exchange (o : Options) (events : list Event) : Exchange :=
  {| ex_request := requestOf o;
     ex_events := EvLookup (uri_hostname (urlParse (rc_url (opt_config o)))) :: events;
     ex_startTime := 0;
     ex_hrtime := (0, 1500000) |}.

Definition econnrefused : Error :=
  {| err_message := "connect ECONNREFUSED 192.0.2.1:80";
     err_code := Some "ECONNREFUSED" |}.


(** A response that is delivered whole: head, body chunk, end, completion. *)
Definition delivered (res : Response) (size : Z) : list Event :=
  [EvResponse res; EvData size; EvEnd; EvComplete res].

(** [http://a.test/] redirects to [http://b.test/], which answers 200. *)
Definition moved : World :=
  fun _ o =>
    if (rc_url (opt_config o) =? "http://a.test/")%string
    then exchange o (delivered
           (respond o 302 [("location", VStr "http://b.test/")] (BodyString "")) 0)
    else exchange o (delivered
           (respond o 200 [("content-type", VStr "text/plain")] (BodyString "hello")) 5).

(** Every URL redirects to [http://loop.test/]. *)
Definition loop : World :=
  fun _ o =>
    exchange o (delivered
      (respond o 302 [("location", VStr "http://loop.test/")] (BodyString "")) 0).

(** A 3xx answer without a Location header. *)
Definition lost : World :=
  fun _ o => exchange o (delivered (respond o 301 [] (BodyString "")) 0).

(** A body of 5 bytes announced as such and sent in two chunks. *)
Definition hello : World :=
  fun _ o =>
    let res := respond o 200 [("content-length", VStr "5")] (BodyString "hello") in
    exchange o [EvResponse res; EvData 3; EvData 2; EvEnd; EvComplete res].

(** A binary body. *)
Definition binary : World :=
  fun _ o =>
    exchange o (delivered
      (respond o 200 [] (BodyBuffer ["M"%byte; "a"%byte; "n"%byte; "!"%byte])) 4).

Definition transformError : Error :=
  {| err_message := "transform failed"; err_code := None |}.

(** [http://a.test/] redirects to [http://b.test/], but the promise of that
    exchange is rejected with an error that carries the response. *)
Definition rejectedRedirect : World :=
  fun _ o =>
    if (rc_url (opt_config o) =? "http://a.test/")%string
    then exchange o
           [EvFail transformError
              (respond o 302 [("location", VStr "http://b.test/")] (BodyString ""))]
    else exchange o (delivered
           (respond o 200 [("content-type", VStr "text/plain")] (BodyString "hello")) 5).

(** A plain answer. *)
Definition plain : World :=
  fun _ o =>
    exchange o (delivered
      (respond o 200 [("content-type", VStr "text/plain")] (BodyString "hello")) 5).

Definition get (url : string) : RequestConfig :=
  {| rc_url := url; rc_method := None; rc_headers := None; rc_body := None;
     rc_timeout := None; rc_followRedirect := None; rc_maxRedirects := None;
     rc_lookup := None |}.

Definition getWith (url : string) (followRedirect : option FollowRedirect)
    (maxRedirects : option Z) : RequestConfig :=
  {| rc_url := url; rc_method := None; rc_headers := None; rc_body := None;
     rc_timeout := None; rc_followRedirect := followRedirect;
     rc_maxRedirects := maxRedirects; rc_lookup := None |}.

(** The caller's configuration with an explicit Host header, and the store
    that holds its headers object. *)
Definition hosted : RequestConfig :=
  {| rc_url := "http://a.test/"; rc_method := None; rc_headers := Some 1%positive;
     rc_body := None; rc_timeout := None; rc_followRedirect := None;
     rc_maxRedirects := None; rc_lookup := None |}.

Definition hostedStore : Store := {[ 1%positive := [("Host", "a.test")] ]}.

(** A request with a deadline of five seconds. *)
Definition timed : RequestConfig :=
  {| rc_url := "http://a.test/"; rc_method := None; rc_headers := None;
     rc_body := None; rc_timeout := Some 5000; rc_followRedirect := None;
     rc_maxRedirects := None; rc_lookup := None |}.

Definition defaults : HarConfig :=
  {| hc_withContent := Some true; hc_maxContentLength := Infinity |}.

(** A 3xx answer without a Location header that reaches the caller as the
    response of a rejection. *)
Definition rejectedLost : World :=
  fun _ o =>
    exchange o [EvFail transformError (respond o 301 [] (BodyString ""))].

(** A head that announces 5 bytes; the body never comes. *)
Definition announced : World :=
  fun _ o =>
    exchange o [EvResponse (respond o 200 [("content-length", VStr "5")]
                              BodyUndefined)].

(** A body of 5 bytes sent in two chunks, without a Content-Length. *)
Definition streamed : World :=
  fun _ o =>
    let res := respond o 200 [] (BodyString "hello") in
    exchange o [EvResponse res; EvData 3; EvData 2; EvEnd; EvComplete res].

(** A response that announces 5 bytes and is destroyed at its head: the
    stream ends, and the response is handed over with nothing read. *)
Definition destroyed : World :=
  fun _ o =>
    exchange o
      [EvResponse (respond o 200 [("content-length", VStr "5")] BodyUndefined);
       EvEnd;
       EvComplete (respond o 200 [("content-length", VStr "5")] (BodyString ""))].

(** A cookie parser for strings of the form [key=value]. *)
Fixpoint cutAt (sep : ascii) (s : string) : option (string * string) :=
  match s with
  | EmptyString => None
  | String c rest =>
      if Ascii.eqb c sep then Some (EmptyString, rest)
      else match cutAt sep rest with
           | Some (key, value) => Some (String c key, value)
           | None => None
           end
  end.

Definition parseCookie (s : string) : option Cookie :=
  match cutAt "=" s with
  | Some (key, value) =>
      if (key =? "")%string then None
      else Some {| ck_key := key; ck_value := value; ck_httpOnly := false;
                   ck_secure := false; ck_path := None; ck_domain := None;
                   ck_expires := None |}
  | None => None
  end.

(** The same collaborators with that cookie parser. *)
Definition withCookies : Collaborators := {|
  transformBinaryToUtf8 := @transformBinaryToUtf8 collaborators;
  urlResolve := @urlResolve collaborators;
  urlParse := @urlParse collaborators;
  querystringParse := @querystringParse collaborators;
  contentTypeParse := @contentTypeParse collaborators;
  toughParse := parseCookie;
  toISOString := @toISOString collaborators;
  netIsIP := @netIsIP collaborators;
  dnsLookup := @dnsLookup collaborators;
  pkgName := @pkgName collaborators;
  pkgVersion := @pkgVersion collaborators |}.

End Demo.

(* ================================================================= *)
(** * Properties *)

Example parseInt_plain : Str.parseInt "1024" = Some 1024.
Proof. reflexivity. Qed.

Example parseInt_prefix : Str.parseInt "  -12px" = Some (-12).
Proof. reflexivity. Qed.

Example parseInt_nan : Str.parseInt (Str.ofVal VUndef) = None.
Proof. reflexivity. Qed.

Example split_cookie : Str.split ";" "a=1; b=2" = ["a=1"; " b=2"].
Proof. reflexivity. Qed.

Example encode_two_bytes : Base64.encode ["M"%byte; "a"%byte] = "TWE=".
Proof. reflexivity. Qed.

Example decode_three_bytes :
  Base64.decode "TWFu" = Some ["M"%byte; "a"%byte; "n"%byte].
Proof. reflexivity. Qed.

(* ----------------------------------------------------------------- *)
(** ** Base64 decodes what it encodes *)

Module Base64Facts.
Import Base64.

Lemma sextets_checked : forallb sextetOk (map N.of_nat (seq 0 64)) = true.
Proof. vm_compute. reflexivity. Qed.

Lemma sextet_ok (n : N) : (n < 64)%N -> sextetOk n = true.
Proof.
  intros Hn.
  pose proof sextets_checked as Hall.
  rewrite forallb_forall in Hall.
  apply Hall.
  apply in_map_iff. exists (N.to_nat n). split.
  - apply N2Nat.id.
  - apply in_seq. lia.
Qed.

Lemma index_char (n : N) : (n < 64)%N -> index (char n) = Some n.
Proof.
  intros Hn. pose proof (sextet_ok n Hn) as Hok. unfold sextetOk in Hok.
  destruct (index (char n)) as [m|]; [|discriminate].
  apply andb_prop in Hok. destruct Hok as [Hm _].
  apply N.eqb_eq in Hm. now subst.
Qed.

Lemma char_not_pad (n : N) : (n < 64)%N -> Ascii.eqb (char n) pad = false.
Proof.
  intros Hn. pose proof (sextet_ok n Hn) as Hok. unfold sextetOk in Hok.
  destruct (index (char n)) as [m|]; [|discriminate].
  apply andb_prop in Hok. destruct Hok as [_ Hp].
  now apply negb_true_iff in Hp.
Qed.

Ltac euclid := zify; Z.to_euclidean_division_equations; lia.

Lemma sextet1_lt a : (a <= 255)%N -> (sextet1 a < 64)%N.
Proof. unfold sextet1. intros. euclid. Qed.

Lemma sextet2_lt a b : (b <= 255)%N -> (sextet2 a b < 64)%N.
Proof. unfold sextet2. intros. euclid. Qed.

Lemma sextet3_lt b c : (c <= 255)%N -> (sextet3 b c < 64)%N.
Proof. unfold sextet3. intros. euclid. Qed.

Lemma sextet4_lt c : (sextet4 c < 64)%N.
Proof. unfold sextet4. euclid. Qed.

Lemma octet1_sextets a b :
  (a <= 255)%N -> (b <= 255)%N -> octet1 (sextet1 a) (sextet2 a b) = a.
Proof. unfold octet1, sextet1, sextet2. intros. euclid. Qed.

Lemma octet2_sextets a b c :
  (b <= 255)%N -> (c <= 255)%N -> octet2 (sextet2 a b) (sextet3 b c) = b.
Proof. unfold octet2, sextet2, sextet3. intros. euclid. Qed.

Lemma octet3_sextets b c :
  (c <= 255)%N -> octet3 (sextet3 b c) (sextet4 c) = c.
Proof. unfold octet3, sextet3, sextet4. intros. euclid. Qed.

(** Induction on a list of bytes three at a time. *)
Lemma triples_ind (P : list byte -> Prop) :
  P [] ->
  (forall a, P [a]) ->
  (forall a b, P [a; b]) ->
  (forall a b c rest, P rest -> P (a :: b :: c :: rest)) ->
  forall bs, P bs.
Proof.
  intros H0 H1 H2 H3.
  assert (Hall : forall bs, P bs /\ (forall a, P (a :: bs)) /\
                            (forall a b, P (a :: b :: bs))).
  { induction bs as [|x bs IH].
    - repeat split; auto.
    - destruct IH as (IH0 & IH1 & IH2). repeat split; auto. }
  intros bs. apply Hall.
Qed.

Ltac known_sextet :=
  match goal with
  | |- context [index (char ?n)] =>
      rewrite (index_char n) by
        (first [apply sextet1_lt | apply sextet2_lt | apply sextet3_lt
               | apply sextet4_lt]; first [apply Byte.to_N_bounded | lia])
  | |- context [Ascii.eqb (char ?n) pad] =>
      rewrite (char_not_pad n) by
        (first [apply sextet1_lt | apply sextet2_lt | apply sextet3_lt
               | apply sextet4_lt]; first [apply Byte.to_N_bounded | lia])
  end.

Lemma decode_encode (bs : list byte) : decode (encode bs) = Some bs.
Proof.
  induction bs as [|a|a b|a b c rest IH] using triples_ind.
  - reflexivity.
  - pose proof (Byte.to_N_bounded a) as Ha.
    cbn [encode decode]. repeat known_sextet. cbn [mbind option_bind].
    rewrite octet1_sextets by lia. rewrite Byte.of_to_N.
    cbn. reflexivity.
  - pose proof (Byte.to_N_bounded a) as Ha.
    pose proof (Byte.to_N_bounded b) as Hb.
    cbn [encode decode]. repeat known_sextet. cbn [mbind option_bind].
    rewrite octet1_sextets by lia. rewrite Byte.of_to_N. cbn [mbind option_bind].
    repeat known_sextet. cbn [mbind option_bind].
    rewrite octet2_sextets by lia. rewrite Byte.of_to_N.
    cbn. reflexivity.
  - pose proof (Byte.to_N_bounded a) as Ha.
    pose proof (Byte.to_N_bounded b) as Hb.
    pose proof (Byte.to_N_bounded c) as Hc.
    cbn [encode]. cbn [decode]. fold decode.
    repeat known_sextet. cbn [mbind option_bind].
    rewrite octet1_sextets by lia. rewrite Byte.of_to_N. cbn [mbind option_bind].
    repeat known_sextet. cbn [mbind option_bind].
    rewrite octet2_sextets by lia. rewrite Byte.of_to_N. cbn [mbind option_bind].
    repeat known_sextet. cbn [mbind option_bind].
    rewrite octet3_sextets by lia. rewrite Byte.of_to_N. cbn [mbind option_bind].
    rewrite IH. reflexivity.
Qed.

End Base64Facts.

(* ----------------------------------------------------------------- *)
(** ** The exchange machine *)

Section MachineFacts.
Context `{Collaborators}.
Variables (requestConfig : RequestConfig) (harConfig : HarConfig).

Lemma run_app (c : Capture) (pre post : list Event) :
  run requestConfig harConfig c (pre ++ post)
  = run requestConfig harConfig (run requestConfig harConfig c pre) post.
Proof. unfold run. apply fold_left_app. Qed.

Lemma run_cons (c : Capture) (ev : Event) (events : list Event) :
  run requestConfig harConfig c (ev :: events)
  = run requestConfig harConfig (step requestConfig harConfig c ev) events.
Proof. reflexivity. Qed.

Lemma settle_kept (s : Settled) (c : Capture) (x : Settled * option string) :
  cap_settled c = Some x -> settle s c = c.
Proof. unfold settle. intros ->. reflexivity. Qed.

(** A settled promise stays as it is, whatever happens next. *)
Lemma step_settled (c : Capture) (ev : Event) (x : Settled * option string) :
  cap_settled c = Some x ->
  cap_settled (step requestConfig harConfig c ev) = Some x.
Proof.
  destruct c as [st len timer listening address calls]. cbn. intros ->.
  destruct ev; cbn [step]; unfold onLookup, onResponse, onData, onEnd, onError,
    onTimeout, abortWith, onError, settle, called, setTimer; cbn;
    repeat match goal with
           | |- context [if ?b then _ else _] => destruct b; cbn
           end;
    try reflexivity; destruct timer; reflexivity.
Qed.

Lemma run_settled (events : list Event) (c : Capture) (x : Settled * option string) :
  cap_settled c = Some x ->
  cap_settled (run requestConfig harConfig c events) = Some x.
Proof.
  revert c. induction events as [|ev events IH]; intros c Hc; [exact Hc|].
  rewrite run_cons. apply IH. now apply step_settled.
Qed.

Lemma origin_cons (ev : Event) (events : list Event) (s : Settled) :
  origin harConfig events s -> origin harConfig (ev :: events) s.
Proof.
  destruct s as [res|cause [res|]]; cbn; intuition.
Qed.

Lemma step_origin (c : Capture) (ev : Event) (s : Settled) (a : option string) :
  cap_settled c = None ->
  cap_settled (step requestConfig harConfig c ev) = Some (s, a) ->
  origin harConfig [ev] s.
Proof.
  destruct c as [st len timer listening address calls]. cbn. intros ->.
  destruct ev; cbn [step]; unfold onLookup, onResponse, onData, onEnd, onError,
    onTimeout, abortWith, onError, settle, called, setTimer, dataListener; cbn.
  - discriminate.
  - destruct (withContentOn harConfig) eqn:Hw; cbn; [|discriminate].
    match goal with |- context [gtExt ?x ?y] => destruct (gtExt x y) end; cbn;
      [|discriminate].
    intros [= <- _]. cbn. auto.
  - destruct (withContentOn harConfig) eqn:Hw; cbn; [|discriminate].
    destruct (hc_maxContentLength harConfig) as [m|]; cbn; [|discriminate].
    destruct (Z.gtb _ _); cbn; [|discriminate].
    intros [= <- _]. cbn. auto.
  - destruct listening; cbn; discriminate.
  - intros [= <- _]. cbn. auto.
  - intros [= <- _]. cbn. auto.
  - intros [= <- _]. cbn. auto.
  - destruct timer; cbn; try discriminate.
    intros [= <- _]. cbn. auto.
Qed.

Lemma run_origin (events : list Event) (c : Capture) (s : Settled)
    (a : option string) :
  cap_settled c = None ->
  cap_settled (run requestConfig harConfig c events) = Some (s, a) ->
  origin harConfig events s.
Proof.
  revert c. induction events as [|ev events IH]; intros c Hc Hrun.
  - cbn in Hrun. congruence.
  - rewrite run_cons in Hrun.
    destruct (cap_settled (step requestConfig harConfig c ev)) as [[s' a']|] eqn:Hstep.
    + rewrite (run_settled events _ _ Hstep) in Hrun.
      injection Hrun as <- <-.
      pose proof (step_origin c ev s' a' Hc Hstep) as Ho.
      destruct s' as [res|cause [res|]]; cbn in Ho |- *; intuition.
    + apply origin_cons. eapply IH; eauto.
Qed.

(** With the ['data'] listener registered, [bufferLenght] counts the bytes
    of the chunks. *)
Lemma run_bufferLenght (events : list Event) (c : Capture) :
  dataListener harConfig = true ->
  cap_bufferLenght (run requestConfig harConfig c events)
  = cap_bufferLenght c + dataTotal events.
Proof.
  intros Hl. revert c. induction events as [|ev events IH]; intros c.
  - cbn. lia.
  - rewrite run_cons, IH.
    destruct ev; cbn [step dataTotal]; rewrite ?Hl;
      unfold onLookup, onResponse, onData, onEnd, onError, onTimeout, abortWith,
        onError, settle, called, setTimer; cbn;
      repeat match goal with
             | |- context [if ?b then _ else _] => destruct b; cbn
             | |- context [match ?t with _ => _ end] => destruct t; cbn
             end; lia.
Qed.

End MachineFacts.

(* ----------------------------------------------------------------- *)
(** ** The redirect decision *)

Section DecisionFacts.
Context `{Collaborators}.

Lemma parseRedirectUrl_resolved (r : Response) :
  parseRedirectUrl (Some r) <> "" ->
  exists location,
    parseRedirectUrl (Some r) = urlResolve (req_uri (res_request r)) location.
Proof.
  unfold parseRedirectUrl.
  destruct ((300 <=? res_statusCode r) && (res_statusCode r <? 400)); [|congruence].
  destruct (truthy _); [|congruence].
  intros _. eauto.
Qed.

Lemma truthyStr_nonempty (s : string) : truthyStr (Some s) = true <-> s <> "".
Proof.
  cbn. rewrite negb_true_iff. split.
  - intros Hs ->. discriminate.
  - intros Hs. destruct (String.eqb_spec s ""); congruence.
Qed.

(** A hop is followed only on a 3xx response with a usable location. *)
Lemma shouldRedirect_true (response : option Response) (rc : RequestConfig)
    (depth : Z) :
  fst (shouldRedirect response rc depth) = true ->
  exists r, response = Some r /\
            300 <= res_statusCode r < 400 /\
            parseRedirectUrl (Some r) <> "".
Proof.
  destruct response as [r|]; cbn [shouldRedirect]; [|discriminate].
  destruct (res_statusCode r <? 300) eqn:Hlo; cbn [orb fst]; [discriminate|].
  destruct (res_statusCode r >=? 400) eqn:Hhi; cbn [fst]; [discriminate|].
  destruct (truthyStr (Some (parseRedirectUrl (Some r)))) eqn:Hurl; cbn [negb fst];
    [|discriminate].
  intros _. exists r. split; [reflexivity|]. split; [lia|].
  now apply truthyStr_nonempty.
Qed.

(** The decision on a 3xx response with a usable location. *)
Lemma shouldRedirect_usable (r : Response) (rc : RequestConfig) (depth : Z) :
  300 <= res_statusCode r < 400 ->
  parseRedirectUrl (Some r) <> "" ->
  shouldRedirect (Some r) rc depth =
  match rc_followRedirect rc with
  | Some (FollowBool false) => (false, None)
  | Some (FollowFn f) => (f r, None)
  | _ =>
      if depth >? match rc_maxRedirects rc with Some m => m | None => 10 end
      then (false, Some maxRedirectsError)
      else (true, None)
  end.
Proof.
  intros Hstatus Hurl. cbn [shouldRedirect].
  replace (res_statusCode r <? 300) with false by lia.
  replace (res_statusCode r >=? 400) with false by lia.
  cbn [orb].
  apply truthyStr_nonempty in Hurl. rewrite Hurl. cbn [negb].
  destruct (rc_followRedirect rc) as [[[|]|f]|]; reflexivity.
Qed.

End DecisionFacts.

(* ----------------------------------------------------------------- *)
(** ** Hops and chains *)

Section ChainFacts.
Context `{Collaborators}.
Variables (W : World) (harConfig : HarConfig).

Lemma captureHop_eq (store : Store) (rc : RequestConfig) (dns : option string)
    (depth : Z) :
  captureHop W store rc harConfig dns depth =
  match resolved (snd (captureEntry W depth store rc harConfig dns)) with
  | None => None
  | Some outcome =>
      let url := parseRedirectUrl (snd (fst outcome)) in
      Some (entryOf W store rc harConfig depth outcome,
            fst (shouldRedirect (snd (fst outcome)) rc depth),
            withUrl rc url,
            redirectStore store rc (withUrl rc url) url,
            snd outcome)
  end.
Proof.
  unfold captureHop, captureEntry, entryOf. cbn [snd].
  destruct (resolved _) as [[[error0 response] address]|]; [|reflexivity].
  cbn [fst snd].
  destruct (shouldRedirect response rc depth) as [isRedirect redirectError].
  reflexivity.
Qed.

Lemma captureEntries_S (fuel : nat) (store : Store) (rc : RequestConfig)
    (dns : option string) (depth : Z) :
  captureEntries (S fuel) W store rc harConfig dns depth =
  match captureHop W store rc harConfig dns depth with
  | None => None
  | Some (entry, isRedirect, redirectConfig, store', dns') =>
      if isRedirect then
        match captureEntries fuel W store' redirectConfig harConfig dns'
                (depth + 1) with
        | Some (entries, store'') => Some (entry :: entries, store'')
        | None => None
        end
      else Some ([entry], store)
  end.
Proof. reflexivity. Qed.

Lemma hopEntry_O (store : Store) (rc : RequestConfig) (dns : option string)
    (depth : Z) :
  hopEntry 0 W harConfig store rc dns depth =
  match captureHop W store rc harConfig dns depth with
  | Some (entry, isRedirect, _, _, _) => Some (entry, isRedirect)
  | None => None
  end.
Proof. reflexivity. Qed.

Lemma hopEntry_S (n : nat) (store store' : Store) (rc rc' : RequestConfig)
    (dns dns' : option string) (depth : Z) (entry : HarEntry) :
  captureHop W store rc harConfig dns depth = Some (entry, true, rc', store', dns') ->
  hopEntry (S n) W harConfig store rc dns depth
  = hopEntry n W harConfig store' rc' dns' (depth + 1).
Proof. intros Hhop. unfold hopEntry. cbn [hopStart]. rewrite Hhop. reflexivity. Qed.

Lemma hopOutcome_S (n : nat) (store store' : Store) (rc rc' : RequestConfig)
    (dns dns' : option string) (depth : Z) (entry : HarEntry) :
  captureHop W store rc harConfig dns depth = Some (entry, true, rc', store', dns') ->
  hopOutcome (S n) W harConfig store rc dns depth
  = hopOutcome n W harConfig store' rc' dns' (depth + 1).
Proof. intros Hhop. unfold hopOutcome. cbn [hopStart]. rewrite Hhop. reflexivity. Qed.

(** A hop that exists was reached through followed hops only. *)
Lemma hopStart_S_inv (n : nat) (store : Store) (rc : RequestConfig)
    (dns : option string) (depth : Z) (s : Store * RequestConfig * option string * Z) :
  hopStart (S n) W harConfig store rc dns depth = Some s ->
  exists entry rc' store' dns',
    captureHop W store rc harConfig dns depth = Some (entry, true, rc', store', dns')
    /\ hopStart n W harConfig store' rc' dns' (depth + 1) = Some s.
Proof.
  cbn [hopStart].
  destruct (captureHop W store rc harConfig dns depth)
    as [[[[[entry [|]] rc'] store'] dns']|]; try discriminate.
  intros Hs. eauto 10.
Qed.

(** The entries of a finished chain are the entries of its hops, in hop
    order; all hops but the last were followed. *)
Lemma captureEntries_hops (fuel : nat) :
  forall store rc dns depth entries store',
    captureEntries fuel W store rc harConfig dns depth = Some (entries, store') ->
    (1 <= length entries <= fuel)%nat /\
    forall i entry,
      entries !! i = Some entry ->
      hopEntry i W harConfig store rc dns depth
      = Some (entry, (S i <? length entries)%nat).
Proof.
  induction fuel as [|fuel IH]; intros store rc dns depth entries store' Hrun;
    [discriminate|].
  rewrite captureEntries_S in Hrun.
  destruct (captureHop W store rc harConfig dns depth)
    as [[[[[entry0 [|]] rc'] st'] dns']|] eqn:Hhop; try discriminate.
  - destruct (captureEntries fuel W st' rc' harConfig dns' (depth + 1))
      as [[rest st'']|] eqn:Hrest; [|discriminate].
    injection Hrun as <- <-.
    destruct (IH _ _ _ _ _ _ Hrest) as [Hlen Hnth].
    split; [cbn [length]; lia|].
    intros [|i] entry Hi.
    + cbn in Hi. injection Hi as <-.
      rewrite hopEntry_O, Hhop. cbn [length].
      replace (1 <? S (length rest))%nat with true; [reflexivity|].
      symmetry. apply Nat.ltb_lt. lia.
    + cbn in Hi. rewrite (hopEntry_S i _ _ _ _ _ _ _ _ Hhop).
      rewrite (Hnth i entry Hi). reflexivity.
  - injection Hrun as <- <-. split; [cbn; lia|].
    intros [|i] entry Hi; cbn in Hi; [|discriminate].
    injection Hi as <-. rewrite hopEntry_O, Hhop. reflexivity.
Qed.

(** A chain whose hop [n] is not followed finishes with [n + 1] entries as
    soon as there is fuel for them. *)
Lemma hops_captureEntries (n : nat) :
  forall store rc dns depth entry,
    hopEntry n W harConfig store rc dns depth = Some (entry, false) ->
    exists entries store',
      length entries = S n /\ entries !! n = Some entry /\
      forall fuel, (n < fuel)%nat ->
        captureEntries fuel W store rc harConfig dns depth = Some (entries, store').
Proof.
  induction n as [|n IH]; intros store rc dns depth entry Hentry.
  - rewrite hopEntry_O in Hentry.
    destruct (captureHop W store rc harConfig dns depth)
      as [[[[[entry0 follow] rc'] st'] dns']|] eqn:Hhop; [|discriminate].
    injection Hentry as -> ->.
    exists [entry], store. repeat split.
    intros [|fuel] Hfuel; [lia|]. rewrite captureEntries_S, Hhop. reflexivity.
  - assert (Hstart : exists s, hopStart (S n) W harConfig store rc dns depth = Some s).
    { unfold hopEntry in Hentry.
      destruct (hopStart (S n) W harConfig store rc dns depth); [eauto|discriminate]. }
    destruct Hstart as [s Hs].
    destruct (hopStart_S_inv _ _ _ _ _ _ Hs) as (entry0 & rc' & st' & dns' & Hhop & _).
    rewrite (hopEntry_S n _ _ _ _ _ _ _ _ Hhop) in Hentry.
    destruct (IH _ _ _ _ _ Hentry) as (rest & st'' & Hlen & Hnth & Hrun).
    exists (entry0 :: rest), st''. split; [cbn; lia|]. split; [exact Hnth|].
    intros [|fuel] Hfuel; [lia|].
    rewrite captureEntries_S, Hhop, (Hrun fuel) by lia. reflexivity.
Qed.

End ChainFacts.

Section LinkFacts.
Context `{Collaborators}.
Variables (W : World) (harConfig : HarConfig).

Lemma captureEntries_more (fuel : nat) :
  forall store rc dns depth result fuel',
    captureEntries fuel W store rc harConfig dns depth = Some result ->
    (fuel <= fuel')%nat ->
    captureEntries fuel' W store rc harConfig dns depth = Some result.
Proof.
  induction fuel as [|fuel IH]; intros store rc dns depth result fuel' Hrun Hle;
    [discriminate|].
  destruct fuel' as [|fuel']; [lia|].
  rewrite captureEntries_S in Hrun |- *.
  destruct (captureHop W store rc harConfig dns depth)
    as [[[[[entry [|]] rc'] st'] dns']|]; try discriminate; [|exact Hrun].
  destruct (captureEntries fuel W st' rc' harConfig dns' (depth + 1))
    as [[rest st'']|] eqn:Hrest; [|discriminate].
  rewrite (IH _ _ _ _ _ fuel' Hrest) by lia. exact Hrun.
Qed.

Lemma captureHar_eq (fuel : nat) (store : Store) (input : RequestInput)
    (ho : option HarOptions) :
  captureHar fuel W store input ho =
  match captureEntries fuel W store (buildRequestConfig input)
          (buildHarConfig (orEmpty ho)) None 1 with
  | Some (entries, store') => Some (logOf entries, store')
  | None => None
  end.
Proof. reflexivity. Qed.

(** Depth grows by one per followed hop; the redirect policy, the headers
    reference and every field but the URL travel unchanged. *)
Lemma hopStart_frame (n : nat) :
  forall store rc dns depth store' rc' dns' depth',
    hopStart n W harConfig store rc dns depth = Some (store', rc', dns', depth') ->
    depth' = depth + Z.of_nat n /\ withUrl rc' (rc_url rc) = withUrl rc (rc_url rc).
Proof.
  induction n as [|n IH]; intros store rc dns depth store' rc' dns' depth' Hs.
  - cbn in Hs. injection Hs as <- <- <- <-. split; [lia|reflexivity].
  - destruct (hopStart_S_inv W harConfig _ _ _ _ _ _ Hs)
      as (entry & rc1 & st1 & dns1 & Hhop & Hrest).
    destruct (IH _ _ _ _ _ _ _ _ Hrest) as [Hd Hrc].
    split; [lia|].
    rewrite captureHop_eq in Hhop.
    destruct (resolved _) as [outcome|]; [|discriminate].
    cbn in Hhop. injection Hhop as _ _ <- _ _.
    unfold withUrl in *. cbn in *. congruence.
Qed.

Lemma start_pending (rc : RequestConfig) (req : ReqObject) (dns : option string) :
  cap_settled (start rc req dns) = None.
Proof. reflexivity. Qed.

(** With a faithful transport the first entry of a hop names the URL of
    its configuration, when that URL came out of [url.resolve]. *)
Lemma first_entry_url (store : Store) (rc : RequestConfig) (dns : option string)
    (depth : Z) (entry : HarEntry) (follow : bool) (rc' : RequestConfig)
    (store' : Store) (dns' : option string) :
  faithful W ->
  (exists base location, rc_url rc = urlResolve base location) ->
  captureHop W store rc harConfig dns depth = Some (entry, follow, rc', store', dns') ->
  hreq_url (entry_request entry) = rc_url rc.
Proof.
  intros Hf (base & location & Hurl) Hhop.
  destruct (Hf depth (optionsOf store rc)) as (Hcomplete & Hfail & Hhref).
  specialize (Hhref base location Hurl). cbn in Hhref.
  rewrite captureHop_eq in Hhop.
  destruct (resolved _) as [[[error0 response] address]|] eqn:Hres; [|discriminate].
  cbn in Hhop. injection Hhop as <- _ _ _ _.
  unfold entryOf, buildHarEntry. cbn.
  destruct response as [r|]; [|exact Hhref].
  replace (res_request r) with (ex_request (W depth (optionsOf store rc)));
    [exact Hhref|].
  unfold resolved, captureEntry in Hres. cbn [snd] in Hres.
  destruct (cap_settled _) as [[s a]|] eqn:Hs; [|discriminate].
  pose proof (run_origin rc harConfig _ _ s a (start_pending _ _ _) Hs) as Ho.
  destruct s as [res|cause [res|]]; cbn in Ho.
  - assert (res = r) as -> by congruence. symmetry. now apply Hcomplete.
  - assert (res = r) as -> by congruence. symmetry. now apply (Hfail cause).
  - discriminate.
Qed.

(** The redirect target recorded on a followed hop is the URL requested
    by the next one. *)
Lemma hop_link (i : nat) :
  forall store rc dns depth e1 e2 follow,
    faithful W ->
    hopEntry i W harConfig store rc dns depth = Some (e1, true) ->
    hopEntry (S i) W harConfig store rc dns depth = Some (e2, follow) ->
    hres_redirectURL (entry_response e1) = hreq_url (entry_request e2).
Proof.
  induction i as [|i IH]; intros store rc dns depth e1 e2 follow Hf H1 H2.
  - rewrite hopEntry_O in H1.
    destruct (captureHop W store rc harConfig dns depth)
      as [[[[[entry0 b] rc'] st'] dns']|] eqn:Hhop; [|discriminate].
    injection H1 as -> ->.
    rewrite (hopEntry_S W harConfig 0 _ _ _ _ _ _ _ _ Hhop), hopEntry_O in H2.
    destruct (captureHop W st' rc' harConfig dns' (depth + 1))
      as [[[[[entry1 b1] rc''] st''] dns'']|] eqn:Hnext; [|discriminate].
    injection H2 as -> ->.
    rewrite captureHop_eq in Hhop.
    destruct (resolved _) as [[[error0 response] address]|]; [|discriminate].
    cbn in Hhop. injection Hhop as <- Hfollow <- _ _.
    destruct (shouldRedirect_true response rc depth Hfollow) as (r & Hr & _ & Hurl).
    subst response.
    destruct (parseRedirectUrl_resolved r Hurl) as [location Hloc].
    unfold entryOf, buildHarEntry. cbn [entry_response buildHarResponse hres_redirectURL].
    symmetry.
    apply (first_entry_url _ _ _ _ _ _ _ _ _ Hf) in Hnext; [exact Hnext|].
    cbn. eauto.
  - assert (Hstart : exists s, hopStart (S i) W harConfig store rc dns depth = Some s).
    { unfold hopEntry in H1.
      destruct (hopStart (S i) W harConfig store rc dns depth); [eauto|discriminate]. }
    destruct Hstart as [s Hs].
    destruct (hopStart_S_inv W harConfig _ _ _ _ _ _ Hs)
      as (entry0 & rc' & st' & dns' & Hhop & _).
    rewrite (hopEntry_S W harConfig i _ _ _ _ _ _ _ _ Hhop) in H1.
    rewrite (hopEntry_S W harConfig (S i) _ _ _ _ _ _ _ _ Hhop) in H2.
    eapply IH; eauto.
Qed.

Lemma entryOf_error (st : Store) (rcn : RequestConfig) (d : Z)
    (error0 : option Error) (response : option Response) (address : option string) :
  hres_error (entry_response
    (entryOf W st rcn harConfig d (error0, response, address)))
  = match error0 with
    | Some e => Some e
    | None => snd (shouldRedirect response rcn d)
    end.
Proof.
  unfold entryOf, buildHarEntry, buildHarResponse. cbn.
  destruct error0 as [[message code]|]; [reflexivity|].
  destruct (snd (shouldRedirect response rcn d)) as [[message code]|]; reflexivity.
Qed.


(** Calls are only ever added. *)
Lemma step_calls (rc : RequestConfig) (c : Capture) (ev : Event) (k : Call) :
  In k (cap_calls c) -> In k (cap_calls (step rc harConfig c ev)).
Proof.
  destruct c as [st len timer listening address calls]. cbn. intros Hk.
  destruct ev; cbn [step]; unfold onLookup, onResponse, onData, onEnd, onError,
    onTimeout, abortWith, onError, settle, called, setTimer; cbn;
    repeat match goal with
           | |- context [if ?b then _ else _] => destruct b; cbn
           | |- context [match ?t with _ => _ end] => destruct t; cbn
           end;
    rewrite ?in_app_iff; auto.
Qed.

Lemma run_calls (rc : RequestConfig) (events : list Event) (c : Capture) (k : Call) :
  In k (cap_calls c) -> In k (cap_calls (run rc harConfig c events)).
Proof.
  revert c. induction events as [|ev events IH]; intros c Hk; [exact Hk|].
  rewrite run_cons. apply IH. now apply step_calls.
Qed.

(** The timer: its callback rejects a pending promise with the timeout
    error, and the ['end'] listener cancels it. *)
Lemma timeout_rejects (rc : RequestConfig) (c : Capture) :
  cap_settled c = None ->
  cap_timer c = TimerPending ->
  resolved (step rc harConfig c EvTimeout)
  = Some (Some timeoutError, None, cap_remoteAddress c) /\
  In CallAbort (cap_calls (step rc harConfig c EvTimeout)).
Proof.
  destruct c as [st len timer listening address calls]. cbn.
  intros -> ->. cbn. split; [reflexivity|].
  rewrite !in_app_iff. cbn. auto.
Qed.

Lemma end_cancels_timer (rc : RequestConfig) (c : Capture) :
  cap_endListener c = true ->
  cap_timer c = TimerPending ->
  cap_timer (step rc harConfig c EvEnd) = TimerCleared /\
  step rc harConfig (step rc harConfig c EvEnd) EvTimeout
  = step rc harConfig c EvEnd.
Proof.
  destruct c as [st len timer listening address calls]. cbn.
  intros -> ->. cbn. split; reflexivity.
Qed.

(** The configuration of the next hop differs from that of the hop in its
    URL only; the store is written only for a configuration with a Host
    header. *)
Lemma redirect_config_frame (store : Store) (rc : RequestConfig)
    (dns : option string) (depth : Z) (entry : HarEntry) (follow : bool)
    (rc' : RequestConfig) (store' : Store) (dns' : option string) :
  captureHop W store rc harConfig dns depth = Some (entry, follow, rc', store', dns') ->
  rc' = withUrl rc (hres_redirectURL (entry_response entry)) /\
  store' = match getCustomHostHeaderName store rc with
           | Some name =>
               writeHeader store rc name
                 (uri_host (urlParse (hres_redirectURL (entry_response entry))))
           | None => store
           end.
Proof.
  rewrite captureHop_eq.
  destruct (resolved _) as [[[error0 response] address]|]; [|discriminate].
  cbn [fst snd]. intros [= <- _ <- <- _]. split; reflexivity.
Qed.

End LinkFacts.

Section HopFacts.
Context `{Collaborators}.
Variables (W : World) (store : Store) (input : RequestInput)
  (ho : option HarOptions).

#[local] Abbreviation rc := (buildRequestConfig input).
#[local] Abbreviation hc := (buildHarConfig (orEmpty ho)).

Lemma hopEntry_resolved (n : nat) (st : Store) (rcn : RequestConfig)
    (dns : option string) (d : Z)
    (outcome : option Error * option Response * option string) :
  hopStart n W hc store rc None 1 = Some (st, rcn, dns, d) ->
  resolved (snd (captureEntry W d st rcn hc dns)) = Some outcome ->
  hopEntry n W hc store rc None 1
  = Some (entryOf W st rcn hc d outcome,
          fst (shouldRedirect (snd (fst outcome)) rcn d)).
Proof.
  intros Hs Hres. unfold hopEntry. rewrite Hs, captureHop_eq, Hres. reflexivity.
Qed.

Lemma chain_stops (n : nat) (entry : HarEntry) :
  hopEntry n W hc store rc None 1 = Some (entry, false) ->
  stopsAt W store input ho n entry.
Proof.
  intros Hentry.
  destruct (hops_captureEntries W hc n _ _ _ _ _ Hentry)
    as (entries & store' & Hlen & Hnth & Hrun).
  exists (logOf entries), store'. cbn [logOf log_entries].
  split; [exact Hlen|]. split; [exact Hnth|].
  intros fuel Hfuel. rewrite captureHar_eq.
  rewrite (Hrun fuel Hfuel). reflexivity.
Qed.

Lemma hopStart_policy (n : nat) (st : Store) (rcn : RequestConfig)
    (dns : option string) (d : Z) :
  hopStart n W hc store rc None 1 = Some (st, rcn, dns, d) ->
  d = 1 + Z.of_nat n /\
  rc_followRedirect rcn = rc_followRedirect rc /\
  rc_maxRedirects rcn = rc_maxRedirects rc /\
  rc_headers rcn = rc_headers rc.
Proof.
  intros Hs. destruct (hopStart_frame W hc n _ _ _ _ _ _ _ _ Hs) as [Hd Hrc].
  split; [exact Hd|].
  split; [exact (f_equal rc_followRedirect Hrc)|].
  split; [exact (f_equal rc_maxRedirects Hrc)|exact (f_equal rc_headers Hrc)].
Qed.

End HopFacts.

(* ================================================================= *)
(** ** Numerals, unusable locations, destroyed responses *)

Lemma digitOf_digitChar (d : nat) :
  (d < 10)%nat -> Str.digitOf (digitChar d) = Some (Z.of_nat d).
Proof.
  intros Hd. do 10 (destruct d as [|d]; [reflexivity|]). lia.
Qed.

Lemma digits_numeral (digits : list nat) (a : Z) :
  Forall (fun d => (d < 10)%nat) digits ->
  Str.digits (numeral digits) (Some a)
  = Some (fold_left (fun acc d => 10 * acc + Z.of_nat d) digits a).
Proof.
  intros Hdigits. revert a.
  induction Hdigits as [|d rest Hd _ IH]; intros a; [reflexivity|].
  cbn [numeral Str.digits fold_left].
  rewrite (digitOf_digitChar d Hd). apply IH.
Qed.

(** [parseInt] reads a decimal numeral as the number it denotes. *)
Lemma parseInt_numeral (digits : list nat) :
  digits <> [] ->
  Forall (fun d => (d < 10)%nat) digits ->
  Str.parseInt (numeral digits) = Some (numeralValue digits).
Proof.
  intros Hne Hdigits. destruct digits as [|d rest]; [congruence|].
  inversion Hdigits as [|? ? Hd Hrest]; subst.
  assert (Hhead : Str.parseInt (numeral (d :: rest))
                  = Str.digits (numeral rest) (Some (Z.of_nat d))).
  { do 10 (destruct d as [|d]; [reflexivity|]). lia. }
  rewrite Hhead, (digits_numeral rest _ Hrest).
  unfold numeralValue. cbn [fold_left]. reflexivity.
Qed.

(** The number that the ['response'] listener reads from a Content-Length
    header that is a decimal numeral. *)
Lemma contentLength_numeral (res : Response) (digits : list nat) :
  digits <> [] ->
  Forall (fun d => (d < 10)%nat) digits ->
  getVal (res_headers res) "content-length" = VStr (numeral digits) ->
  contentLength res = Some (numeralValue digits).
Proof.
  intros Hne Hdigits Hheader. unfold contentLength. rewrite Hheader.
  cbn [Str.ofVal]. now apply parseInt_numeral.
Qed.

Section UnusableFacts.
Context `{Collaborators}.

(** A Location header that is falsy once decoded, or that resolves to the
    empty string, gives the empty redirect URL. *)
Lemma parseRedirectUrl_unusable (r : Response) :
  let location := transformBinaryToUtf8 (getVal (res_headers r) "location") in
  truthy location = false \/ urlResolve (req_uri (res_request r)) location = "" ->
  parseRedirectUrl (Some r) = "".
Proof.
  cbv zeta. intros Hlocation. unfold parseRedirectUrl.
  destruct ((300 <=? res_statusCode r) && (res_statusCode r <? 400)); [|reflexivity].
  destruct (truthy (transformBinaryToUtf8 (getVal (res_headers r) "location")))
    eqn:Htruthy; [|reflexivity].
  destruct Hlocation as [Hfalsy|Hempty]; [discriminate|exact Hempty].
Qed.

(** A 3xx response without a usable location is not followed, whatever the
    policy and the depth. *)
Lemma shouldRedirect_unusable (r : Response) (rc : RequestConfig) (depth : Z) :
  300 <= res_statusCode r < 400 ->
  parseRedirectUrl (Some r) = "" ->
  shouldRedirect (Some r) rc depth = (false, Some noLocationError).
Proof.
  intros Hstatus Hurl. cbn [shouldRedirect].
  replace (res_statusCode r <? 300) with false by lia.
  replace (res_statusCode r >=? 400) with false by lia.
  cbn [orb]. rewrite Hurl. reflexivity.
Qed.

(** Without content the head of a response destroys it and ends the
    request, at whatever point of the exchange it arrives. *)
Lemma head_destroys (rc : RequestConfig) (harConfig : HarConfig)
    (events : list Event) (c : Capture) (res : Response) :
  withContentOn harConfig = false ->
  In (EvResponse res) events ->
  In CallDestroy (cap_calls (run rc harConfig c events)) /\
  In CallEnd (cap_calls (run rc harConfig c events)).
Proof.
  intros Hoff Hin.
  destruct (in_split _ _ Hin) as (pre & post & ->).
  rewrite run_app, run_cons. cbn [step]. unfold onResponse. rewrite Hoff.
  cbn [negb].
  split; apply run_calls; unfold called; cbn [cap_calls];
    rewrite !in_app_iff; cbn; auto.
Qed.

End UnusableFacts.
(* ----------------------------------------------------------------- *)
(** ** The properties of the specification *)

Section Specification.
Context `{Collaborators}.


(** C2.  The log of a completed capture has at least one entry; entry [i]
    is the entry of hop [i], and every hop but the last was followed, so the
    entries are in hop order; a chain whose hops [0 .. N-1] were followed
    and whose hop [N] was not has exactly [N + 1] entries; and, the
    transport being faithful, the [redirectURL] of the response of entry [i]
    is the [url] of the request of entry [i + 1]. *)
Theorem entries_in_hop_order (W : World) (store : Store) (input : RequestInput)
    (ho : option HarOptions) (fuel : nat) (log : HarLog) (store' : Store) :
  let rc := buildRequestConfig input in
  let hc := buildHarConfig (orEmpty ho) in
  captureHar fuel W store input ho = Some (log, store') ->
  let entries := log_entries log in
  (1 <= length entries)%nat /\
  (forall i entry,
      entries !! i = Some entry ->
      hopEntry i W hc store rc None 1 = Some (entry, (S i <? length entries)%nat)) /\
  (forall N entry,
      hopEntry N W hc store rc None 1 = Some (entry, false) ->
      length entries = S N) /\
  (faithful W ->
   forall i e1 e2,
     entries !! i = Some e1 ->
     entries !! S i = Some e2 ->
     hres_redirectURL (entry_response e1) = hreq_url (entry_request e2)).
Proof.
  cbv zeta. rewrite captureHar_eq.
  destruct (captureEntries fuel W store (buildRequestConfig input)
              (buildHarConfig (orEmpty ho)) None 1)
    as [[entries st]|] eqn:Hrun; [|discriminate].
  intros [= <- <-]. cbn [logOf log_entries].
  destruct (captureEntries_hops W _ fuel _ _ _ _ _ _ Hrun) as [Hlen Hnth].
  split; [lia|]. split; [exact Hnth|]. split.
  - intros N entry Hlast.
    destruct (hops_captureEntries W _ N _ _ _ _ _ Hlast)
      as (entries' & st' & Hlen' & _ & Hrun').
    pose proof (captureEntries_more W _ fuel _ _ _ _ _ (Nat.max fuel (S N)) Hrun
                  (Nat.le_max_l _ _)) as Hboth.
    rewrite (Hrun' (Nat.max fuel (S N))) in Hboth by lia.
    injection Hboth as <- _. exact Hlen'.
  - intros Hfaithful i e1 e2 H1 H2.
    pose proof (lookup_lt_Some _ _ _ H2) as Hi.
    pose proof (Hnth i e1 H1) as Hhop1.
    replace (S i <? length entries)%nat with true in Hhop1
      by (symmetry; apply Nat.ltb_lt; lia).
    exact (hop_link W _ i _ _ _ _ _ _ _ Hfaithful Hhop1 (Hnth (S i) e2 H2)).
Qed.

(** C3, as amended.  With [followRedirect] absent or true, hop number [n] of a
    chain (counted from 0) runs at depth [n + 1], and when its response is a
    redirect with a usable Location header it is followed if and only if
    that depth does not exceed [maxRedirects] (10 when absent), whether the
    promise of the hop was fulfilled with that response or rejected with an
    error that carries it.  A followed hop records the error of the
    exchange, if any, and no other.  When the depth exceeds [maxRedirects]
    the chain ends with that hop, and its entry carries the error of the
    exchange when there is one, and otherwise the error with the code
    ['MAXREDIRECTS']; for [maxRedirects = 0] this is the first hop, and the
    log has exactly one entry. *)
Theorem depth_check_decides (W : World) (store : Store)
    (input : RequestInput) (ho : option HarOptions)
    (n : nat) (st : Store) (rcn : RequestConfig) (dns : option string) (d : Z)
    (error0 : option Error) (r : Response) (address : option string) :
  let rc := buildRequestConfig input in
  let hc := buildHarConfig (orEmpty ho) in
  let maxRedirects := match rc_maxRedirects rc with Some m => m | None => 10 end in
  rc_followRedirect rc = None \/ rc_followRedirect rc = Some (FollowBool true) ->
  hopStart n W hc store rc None 1 = Some (st, rcn, dns, d) ->
  resolved (snd (captureEntry W d st rcn hc dns)) = Some (error0, Some r, address) ->
  300 <= res_statusCode r < 400 ->
  parseRedirectUrl (Some r) <> "" ->
  let entry := entryOf W st rcn hc d (error0, Some r, address) in
  d = 1 + Z.of_nat n /\
  hopEntry n W hc store rc None 1 = Some (entry, d <=? maxRedirects) /\
  (d <= maxRedirects -> hres_error (entry_response entry) = error0) /\
  (maxRedirects < d ->
   hres_error (entry_response entry)
   = Some (match error0 with Some e => e | None => maxRedirectsError end) /\
   stopsAt W store input ho n entry) /\
  (maxRedirects < d -> error0 = None ->
   option_map err_code (hres_error (entry_response entry))
   = Some (Some "MAXREDIRECTS")).
Proof.
  cbv zeta. intros Hpolicy Hs Hres Hstatus Hurl.
  destruct (hopStart_policy W store input ho n _ _ _ _ Hs)
    as (Hd & Hfollow & Hmax & _).
  set (m := match rc_maxRedirects (buildRequestConfig input) with
            | Some m => m
            | None => 10
            end).
  assert (Hdecide : shouldRedirect (Some r) rcn d
                    = if d >? m then (false, Some maxRedirectsError) else (true, None)).
  { rewrite (shouldRedirect_usable r rcn d Hstatus Hurl), Hfollow, Hmax.
    destruct Hpolicy as [-> | ->]; reflexivity. }
  pose proof (hopEntry_resolved W store input ho n _ _ _ _ _ Hs Hres) as Hentry.
  cbn [fst snd] in Hentry. rewrite Hdecide in Hentry.
  pose proof (entryOf_error W (buildHarConfig (orEmpty ho)) st rcn d error0 (Some r) address)
    as Herr.
  rewrite Hdecide in Herr.
  split; [exact Hd|].
  destruct (Z.gtb_spec d m) as [Hgt|Hle]; cbn [fst snd] in Hentry, Herr.
  - replace (d <=? m) with false by lia.
    split; [exact Hentry|]. split; [lia|]. split.
    + intros _. split; [|now apply chain_stops].
      rewrite Herr. destruct error0; reflexivity.
    + intros _ ->. rewrite Herr. reflexivity.
  - replace (d <=? m) with true by lia.
    split; [exact Hentry|]. split; [|split; lia].
    intros _. rewrite Herr. destruct error0; reflexivity.
Qed.

(** C4, as amended.  When [followRedirect] is a function, every hop whose
    response is a redirect with a usable Location header is decided by the
    result of the predicate on that response alone, whatever the depth of
    the hop and whatever [maxRedirects] is, whether the promise of the hop
    was fulfilled with that response or rejected with an error that carries
    it.  No redirect error is recorded: the entry carries the error of the
    exchange, which is absent when the promise was fulfilled.  When the
    predicate returns false the chain ends with that hop; on the first hop
    the log then has exactly one entry. *)
Theorem predicate_alone_decides (W : World) (store : Store)
    (input : RequestInput) (ho : option HarOptions) (f : Response -> bool)
    (n : nat) (st : Store) (rcn : RequestConfig) (dns : option string) (d : Z)
    (error0 : option Error) (r : Response) (address : option string) :
  let rc := buildRequestConfig input in
  let hc := buildHarConfig (orEmpty ho) in
  rc_followRedirect rc = Some (FollowFn f) ->
  hopStart n W hc store rc None 1 = Some (st, rcn, dns, d) ->
  resolved (snd (captureEntry W d st rcn hc dns)) = Some (error0, Some r, address) ->
  300 <= res_statusCode r < 400 ->
  parseRedirectUrl (Some r) <> "" ->
  let entry := entryOf W st rcn hc d (error0, Some r, address) in
  shouldRedirect (Some r) rcn d = (f r, None) /\
  hopEntry n W hc store rc None 1 = Some (entry, f r) /\
  hres_error (entry_response entry) = error0 /\
  (f r = false -> stopsAt W store input ho n entry).
Proof.
  cbv zeta. intros Hpolicy Hs Hres Hstatus Hurl.
  destruct (hopStart_policy W store input ho n _ _ _ _ Hs) as (_ & Hfollow & _).
  assert (Hdecide : shouldRedirect (Some r) rcn d = (f r, None)).
  { rewrite (shouldRedirect_usable r rcn d Hstatus Hurl), Hfollow, Hpolicy.
    reflexivity. }
  pose proof (hopEntry_resolved W store input ho n _ _ _ _ _ Hs Hres) as Hentry.
  cbn [fst snd] in Hentry. rewrite Hdecide in Hentry. cbn [fst] in Hentry.
  pose proof (entryOf_error W (buildHarConfig (orEmpty ho)) st rcn d error0 (Some r) address)
    as Herr.
  rewrite Hdecide in Herr. cbn [snd] in Herr.
  split; [exact Hdecide|]. split; [exact Hentry|].
  split; [rewrite Herr; destruct error0; reflexivity|].
  intros Hstop. apply chain_stops. rewrite Hentry, Hstop. reflexivity.
Qed.

(** C5, as amended.  A hop whose response has a status in [300,400) but no
    usable Location header (the header is absent or otherwise falsy once
    decoded, or it resolves against the request URL of the hop to the empty
    string) is not followed, whatever the redirect policy: the chain ends
    with it and the [redirectURL] of its entry is the empty string.  The
    entry carries the error of the exchange when the promise of the hop was
    rejected with an error that carries the response, and otherwise the
    error with the code ['NOLOCATION']. *)
Theorem missing_location_ends_chain (W : World) (store : Store)
    (input : RequestInput) (ho : option HarOptions) (n : nat)
    (st : Store) (rcn : RequestConfig) (dns : option string) (d : Z)
    (error0 : option Error) (r : Response) (address : option string) :
  let hc := buildHarConfig (orEmpty ho) in
  let location := transformBinaryToUtf8 (getVal (res_headers r) "location") in
  hopStart n W hc store (buildRequestConfig input) None 1 = Some (st, rcn, dns, d) ->
  resolved (snd (captureEntry W d st rcn hc dns)) = Some (error0, Some r, address) ->
  300 <= res_statusCode r < 400 ->
  truthy location = false \/ urlResolve (req_uri (res_request r)) location = "" ->
  let entry := entryOf W st rcn hc d (error0, Some r, address) in
  hopEntry n W hc store (buildRequestConfig input) None 1 = Some (entry, false) /\
  stopsAt W store input ho n entry /\
  hres_redirectURL (entry_response entry) = "" /\
  hres_error (entry_response entry)
  = Some (match error0 with Some e => e | None => noLocationError end) /\
  (error0 = None ->
   option_map err_code (hres_error (entry_response entry))
   = Some (Some "NOLOCATION")).
Proof.
  cbv zeta. intros Hs Hres Hstatus Hlocation.
  pose proof (parseRedirectUrl_unusable r Hlocation) as Hurl.
  pose proof (shouldRedirect_unusable r rcn d Hstatus Hurl) as Hdecide.
  pose proof (hopEntry_resolved W store input ho n _ _ _ _ _ Hs Hres) as Hentry.
  cbn [fst snd] in Hentry. rewrite Hdecide in Hentry. cbn [fst] in Hentry.
  pose proof (entryOf_error W (buildHarConfig (orEmpty ho)) st rcn d error0 (Some r) address)
    as Herr.
  rewrite Hdecide in Herr. cbn [snd] in Herr.
  split; [exact Hentry|]. split; [now apply chain_stops|].
  split; [exact Hurl|].
  split; [rewrite Herr; destruct error0; reflexivity|].
  intros ->. rewrite Herr. reflexivity.
Qed.

(** C6.  With [withContent] true and a finite [maxContentLength], on an
    exchange that is still pending: when the Content-Length header of the
    response head is a decimal numeral of a number above the maximum, or
    when a chunk takes the count of the bytes streamed so far above the
    maximum, the transfer is aborted and the promise is rejected with the
    size error, so that the entry of the hop, which ends the chain, carries
    the error code ['MAX_RES_BODY_SIZE']. *)
Theorem size_limit_aborts (W : World) (store : Store) (rc : RequestConfig)
    (harConfig : HarConfig) (dns : option string) (depth : Z) (m : Z)
    (pre post : list Event) (ev : Event) :
  let ex := W depth (optionsOf store rc) in
  let pending := run rc harConfig (start rc (ex_request ex) dns) pre in
  hc_withContent harConfig = Some true ->
  hc_maxContentLength harConfig = Finite m ->
  ex_events ex = pre ++ ev :: post ->
  cap_settled pending = None ->
  (exists res digits,
      ev = EvResponse res /\
      digits <> [] /\
      Forall (fun d => (d < 10)%nat) digits /\
      getVal (res_headers res) "content-length" = VStr (numeral digits) /\
      m < numeralValue digits) \/
  (exists length, ev = EvData length /\ m < dataTotal pre + length) ->
  let c := snd (captureEntry W depth store rc harConfig dns) in
  let entry :=
    entryOf W store rc harConfig depth
      (Some maxSizeError, None, cap_remoteAddress pending) in
  In CallAbort (cap_calls c) /\
  resolved c = Some (Some maxSizeError, None, cap_remoteAddress pending) /\
  (forall fuel,
      captureEntries (S fuel) W store rc harConfig dns depth = Some ([entry], store)) /\
  option_map err_code (hres_error (entry_response entry))
  = Some (Some "MAX_RES_BODY_SIZE").
Proof.
  cbv zeta. intros Hwith Hmax Hevents Hpending Hover.
  set (c1 := run rc harConfig
               (start rc (ex_request (W depth (optionsOf store rc))) dns) pre) in *.
  assert (Hon : withContentOn harConfig = true)
    by (unfold withContentOn; now rewrite Hwith).
  assert (Hlisten : dataListener harConfig = true)
    by (unfold dataListener; now rewrite Hon, Hmax).
  assert (Hbuf : cap_bufferLenght c1 = dataTotal pre).
  { unfold c1. rewrite (run_bufferLenght rc harConfig pre _ Hlisten).
    cbn [start cap_bufferLenght]. lia. }
  assert (Hstep : step rc harConfig c1 ev = abortWith maxSizeError c1
                  \/ exists c1', cap_settled c1' = None /\
                                 cap_remoteAddress c1' = cap_remoteAddress c1 /\
                                 cap_calls c1' = cap_calls c1 /\
                                 step rc harConfig c1 ev = abortWith maxSizeError c1').
  { destruct Hover
      as [(res & digits & -> & Hne & Hdigits & Hheader & Hn) | (len & -> & Hlen)].
    - left. cbn [step]. unfold onResponse.
      rewrite Hon, (contentLength_numeral res digits Hne Hdigits Hheader), Hmax.
      cbn. replace (numeralValue digits >? m) with true by lia. reflexivity.
    - right. cbn [step]. rewrite Hlisten. unfold onData.
      rewrite Hmax. cbn [gtExt cap_bufferLenght]. rewrite Hbuf.
      replace (dataTotal pre + len >? m) with true by lia.
      exists {| cap_settled := cap_settled c1;
                cap_bufferLenght := cap_bufferLenght c1 + len;
                cap_timer := cap_timer c1;
                cap_endListener := cap_endListener c1;
                cap_remoteAddress := cap_remoteAddress c1;
                cap_calls := cap_calls c1 |}.
      cbn. rewrite Hbuf. auto. }
  assert (Hafter :
    cap_settled (step rc harConfig c1 ev)
    = Some (Rejected maxSizeError None, cap_remoteAddress c1)
    /\ In CallAbort (cap_calls (step rc harConfig c1 ev))).
  { destruct Hstep as [-> | (c1' & Hp & Ha & Hc & ->)];
      unfold abortWith, onError, settle, called; cbn.
    - rewrite Hpending. cbn. split; [reflexivity|].
      rewrite !in_app_iff. cbn. auto.
    - rewrite Hp. cbn. rewrite Ha, Hc. split; [reflexivity|].
      rewrite !in_app_iff. cbn. auto. }
  destruct Hafter as [Hsettled Hcalls].
  assert (Hc : snd (captureEntry W depth store rc harConfig dns)
               = run rc harConfig (step rc harConfig c1 ev) post).
  { unfold captureEntry. cbn [snd]. rewrite Hevents, run_app, run_cons. reflexivity. }
  assert (Hres : resolved (snd (captureEntry W depth store rc harConfig dns))
                 = Some (Some maxSizeError, None, cap_remoteAddress c1)).
  { rewrite Hc. unfold resolved.
    rewrite (run_settled rc harConfig post _ _ Hsettled). reflexivity. }
  split; [rewrite Hc; now apply run_calls|].
  split; [exact Hres|]. split.
  - intros fuel. rewrite captureEntries_S, captureHop_eq, Hres. reflexivity.
  - rewrite entryOf_error. reflexivity.
Qed.

(** C7.  With [withContent] false, whatever [maxContentLength] is: the
    ['response'] listener calls [destroy] on the response and then [end] on
    the request, and does nothing else, so every exchange on which a
    response head arrives has those two calls; no ['data'] listener is
    there, so a chunk leaves the exchange as it is and no byte of the body
    is counted; the handlers emit no error but that of the timer, and an
    entry can carry the size error only if the transport itself raised it;
    the content of every entry of the log has no [text]; and when the
    transport hands over the destroyed responses with nothing read, the
    [size] of the content of every entry is 0. *)
Theorem without_content_body_is_skipped (W : World) (store : Store)
    (input : RequestInput) (maxLen : option ExtNum) :
  let ho := Some {| ho_withContent := Some false; ho_maxContentLength := maxLen |} in
  let hc := buildHarConfig (orEmpty ho) in
  (forall rc c res,
      cap_calls (step rc hc c (EvResponse res))
      = cap_calls c ++ [CallDestroy; CallEnd] /\
      cap_settled (step rc hc c (EvResponse res)) = cap_settled c) /\
  (forall depth st rc dns res,
      In (EvResponse res) (ex_events (W depth (optionsOf st rc))) ->
      In CallDestroy (cap_calls (snd (captureEntry W depth st rc hc dns))) /\
      In CallEnd (cap_calls (snd (captureEntry W depth st rc hc dns)))) /\
  (forall rc c length, step rc hc c (EvData length) = c) /\
  (forall rc c events,
      cap_bufferLenght (run rc hc c events) = cap_bufferLenght c /\
      forall e, In (CallEmitError e) (cap_calls (run rc hc c events)) ->
                In (CallEmitError e) (cap_calls c) \/ e = timeoutError) /\
  (forall fuel log store' i entry,
      captureHar fuel W store input ho = Some (log, store') ->
      log_entries log !! i = Some entry ->
      content_text (hres_content (entry_response entry)) = None /\
      (hres_error (entry_response entry) = Some maxSizeError ->
       exists depth o,
         In (EvError maxSizeError) (ex_events (W depth o)) \/
         exists res, In (EvFail maxSizeError res) (ex_events (W depth o))) /\
      (handsOverNoBody W ->
       content_size (hres_content (entry_response entry)) = 0)).
Proof.
  cbv zeta.
  set (hc := buildHarConfig
               (orEmpty (Some {| ho_withContent := Some false;
                                 ho_maxContentLength := maxLen |}))).
  assert (Hoff : withContentOn hc = false) by reflexivity.
  split; [|split; [|split; [|split]]].
  - intros rc c res. cbn [step]. unfold onResponse. rewrite Hoff.
    unfold called. cbn. rewrite <- app_assoc. split; reflexivity.
  - intros depth st rc dns res Hin. unfold captureEntry. cbn [snd].
    now apply (head_destroys rc hc _ _ res Hoff).
  - intros rc c len. reflexivity.
  - intros rc c events. revert c.
    induction events as [|ev events IH]; intros c; [cbn; auto|].
    rewrite run_cons.
    destruct (IH (step rc hc c ev)) as [Hlen Hcalls].
    assert (Hstep :
      cap_bufferLenght (step rc hc c ev) = cap_bufferLenght c /\
      forall e, In (CallEmitError e) (cap_calls (step rc hc c ev)) ->
                In (CallEmitError e) (cap_calls c) \/ e = timeoutError).
    { destruct c as [[x|] len timer listening address calls];
        destruct ev; cbn; unfold onTimeout, onEnd, abortWith, onError, settle,
          called, setTimer; cbn;
        try destruct listening; try destruct timer; cbn;
        (split; [reflexivity|]); intros e0; rewrite ?in_app_iff; cbn;
        intuition congruence. }
    destruct Hstep as [Hlen1 Hcalls1].
    split; [congruence|].
    intros e He. destruct (Hcalls e He) as [Hin|Ht]; auto.
  - intros fuel log store' i entry Hrun Hi.
    rewrite captureHar_eq in Hrun. fold hc in Hrun.
    destruct (captureEntries fuel W store (buildRequestConfig input) hc None 1)
      as [[entries st]|] eqn:Hentries; [|discriminate].
    injection Hrun as <- <-. cbn [logOf log_entries] in Hi.
    destruct (captureEntries_hops W _ fuel _ _ _ _ _ _ Hentries) as [_ Hnth].
    specialize (Hnth i entry Hi). unfold hopEntry in Hnth.
    destruct (hopStart i W hc store (buildRequestConfig input) None 1)
      as [[[[sti rci] dnsi] di]|]; [|discriminate].
    rewrite captureHop_eq in Hnth.
    destruct (resolved _) as [[[error0 response] address]|] eqn:Hres; [|discriminate].
    cbn [fst snd] in Hnth. injection Hnth as <- _.
    unfold resolved, captureEntry in Hres. cbn [snd] in Hres.
    destruct (cap_settled _) as [[s a]|] eqn:Hs; [|discriminate].
    pose proof (run_origin rci hc _ _ s a (start_pending _ _ _) Hs) as Horigin.
    split; [|split].
    + unfold entryOf, buildHarEntry, buildHarResponse, buildHarContent. cbn.
      destruct response as [r|]; [|reflexivity].
      destruct (res_body r); reflexivity.
    + intros Herr0.
      assert (Herr : match error0 with
                     | Some e => Some e
                     | None => snd (shouldRedirect response rci di)
                     end = Some maxSizeError).
      { rewrite <- (entryOf_error W hc sti rci di error0 response address).
        exact Herr0. }
      clear Herr0. exists di, (optionsOf sti rci).
      destruct s as [res|cause [res|]]; cbn in Horigin; injection Hres as <- <- <-.
      * exfalso. revert Herr. cbn [shouldRedirect].
        repeat match goal with
               | |- context [if ?b then _ else _] => destruct b
               | |- context [match ?t with _ => _ end] => destruct t
               end; cbn; discriminate.
      * injection Herr as ->. right. exists res. exact Horigin.
      * injection Herr as ->.
        destruct Horigin as [Hin | [Htimeout | [Hon _]]];
          [left; exact Hin | discriminate Htimeout | discriminate Hon].
    + intros Hquiet. destruct (Hquiet di (optionsOf sti rci)) as [Hcomplete Hfail].
      unfold entryOf, buildHarEntry, buildHarResponse, buildHarContent. cbn.
      destruct s as [res|cause [res|]]; cbn in Horigin; injection Hres as <- <- <-.
      * destruct (Hcomplete res Horigin) as [-> | ->]; reflexivity.
      * destruct (Hfail cause res Horigin) as [-> | ->]; reflexivity.
      * reflexivity.
Qed.

(** C10.  A Buffer body captured with [withContent] true gives the content
    descriptor of the entry the encoding ['base64'], a text that decodes
    from base64 to the bytes of the body, and the number of those bytes as
    its size. *)
Theorem buffer_body_roundtrip (W : World) (store : Store)
    (rc : RequestConfig) (harConfig : HarConfig) (depth : Z)
    (error0 : option Error) (address : option string)
    (r : Response) (bs : list byte) :
  res_body r = BodyBuffer bs ->
  hc_withContent harConfig = Some true ->
  let content :=
    hres_content (entry_response
      (entryOf W store rc harConfig depth (error0, Some r, address))) in
  content_encoding content = Some "base64" /\
  (exists text, content_text content = Some text /\ Base64.decode text = Some bs) /\
  content_size content = Z.of_nat (length bs).
Proof.
  intros Hbody Hwith. cbn. unfold buildHarContent. rewrite Hbody, Hwith. cbn.
  split; [reflexivity|]. split; [|reflexivity].
  eexists. split; [reflexivity|]. apply Base64Facts.decode_encode.
Qed.

(* ----------------------------------------------------------------- *)
(** *** The builders *)

Lemma append_cons (c : ascii) (s t : string) :
  (String c s ++ t)%string = String c (s ++ t)%string.
Proof. reflexivity. Qed.

Lemma append_empty_r (s : string) : (s ++ "")%string = s.
Proof.
  induction s as [|c s IH]; [reflexivity|]. now rewrite append_cons, IH.
Qed.

Lemma append_assoc (s t u : string) :
  ((s ++ t) ++ u)%string = (s ++ (t ++ u))%string.
Proof.
  induction s as [|c s IH]; [reflexivity|]. now rewrite !append_cons, IH.
Qed.

Lemma fold_left_concat {A B : Type} (f : A -> list B) (l : list A) (acc : list B) :
  fold_left (fun result x => result ++ f x) l acc = acc ++ flat_map f l.
Proof.
  revert acc. induction l as [|x l IH]; intros acc; cbn.
  - now rewrite List.app_nil_r.
  - rewrite IH. now rewrite <- List.app_assoc.
Qed.

Lemma omap_shorter {A B : Type} (f : A -> option B) (l : list A) :
  (length (omap f l) <= length l)%nat.
Proof.
  induction l as [|x l IH]; cbn; [lia|]. destruct (f x); cbn; lia.
Qed.

Lemma flattenProp_names (kv : string * JsVal) :
  map nv_name (flattenProp kv) = repeat (fst kv) (valueCount (snd kv)).
Proof.
  destruct kv as [key [|s|l]]; cbn; try reflexivity.
  induction l as [|v l IH]; cbn; [reflexivity|now rewrite IH].
Qed.

(** X1.  Flattening an object gives, in the order of its keys, one
    name/value pair per value: a key with an array of [k] strings appears
    [k] times (an empty array not at all), every other key once; so an
    object without arrays gives exactly its keys. *)
Theorem flattened_names (o : JsObj) :
  map nv_name (buildFlattenedNameValueMap (Some o))
  = flat_map (fun kv => repeat (fst kv) (valueCount (snd kv))) o /\
  (forallb (fun kv => negb (isArray (snd kv))) o = true ->
   map nv_name (buildFlattenedNameValueMap (Some o)) = keys o).
Proof.
  assert (Hnames : map nv_name (buildFlattenedNameValueMap (Some o))
                   = flat_map (fun kv => repeat (fst kv) (valueCount (snd kv))) o).
  { unfold buildFlattenedNameValueMap. rewrite fold_left_concat. cbn [app].
    induction o as [|kv o IH]; cbn; [reflexivity|].
    rewrite List.map_app, flattenProp_names, IH. reflexivity. }
  split; [exact Hnames|].
  intros Hplain. rewrite Hnames. unfold keys. clear Hnames.
  induction o as [|[key value] o IH]; [reflexivity|].
  cbn in Hplain. apply andb_prop in Hplain. destruct Hplain as [Hvalue Hrest].
  cbn [flat_map map fst snd]. rewrite (IH Hrest).
  destruct value; try reflexivity. discriminate.
Qed.

(** X2.  The size of the content does not depend on the HAR configuration
    when the body is [undefined], a string or a Buffer: it is the byte
    length of the body even when its text is not captured.  For any other
    body the size is taken from the captured text, so it is 0 when
    [withContent] is false. *)
Theorem content_size_ignores_config (r : Response) (harConfig harConfig' : HarConfig) :
  (forall json, res_body r <> BodyObject json) ->
  content_size (buildHarContent (Some r) harConfig)
  = content_size (buildHarContent (Some r) harConfig') /\
  content_size (buildHarContent (Some r) harConfig)
  = match res_body r with
    | BodyString s => byteLength s
    | BodyBuffer b => Z.of_nat (length b)
    | _ => 0
    end.
Proof.
  intros Hbody. unfold buildHarContent.
  destruct (res_body r) as [|s|b|json] eqn:Hr.
  - split; reflexivity.
  - destruct (_ && _), (_ && _); split; reflexivity.
  - destruct (match hc_withContent harConfig with Some b0 => b0 | None => true end),
      (match hc_withContent harConfig' with Some b0 => b0 | None => true end);
      split; reflexivity.
  - now destruct (Hbody json).
Qed.

(** X3.  The content has a text exactly when the content is captured
    ([withContent] true or absent) and the body is truthy: it has none for a
    missing body and for the empty string.  The text of a string body is the
    body itself and has no encoding tag; that of any other truthy body is
    tagged ['utf8']; only a Buffer is tagged ['base64']. *)
Theorem content_text_when_captured (r : Response) (harConfig : HarConfig) :
  let content := buildHarContent (Some r) harConfig in
  (content_text content = None <->
   hc_withContent harConfig = Some false \/
   res_body r = BodyUndefined \/ res_body r = BodyString "") /\
  (forall s, res_body r = BodyString s -> content_text content = Some s ->
             content_encoding content = None) /\
  (content_encoding content = Some "base64" <->
   exists b, res_body r = BodyBuffer b /\ hc_withContent harConfig <> Some false) /\
  (content_text content = None -> content_encoding content = None).
Proof.
  cbv zeta. unfold buildHarContent.
  destruct (hc_withContent harConfig) as [[|]|];
    destruct (res_body r) as [|s|b|json] eqn:Hr; cbn;
    try (destruct (String.eqb_spec s ""); cbn; try subst s);
    repeat split; try discriminate; try reflexivity; try congruence;
    try (intros [? | [? | ?]]; congruence);
    try (intros (? & ? & ?); congruence);
    try (intros; eexists; split; [reflexivity|congruence]);
    intuition congruence.
Qed.

(** X4.  Without a response the HAR response has status -1, an empty
    status text, the protocol version ['unknown'], no cookies, no headers,
    the content [{ size: 0, mimeType: 'x-unknown' }] without text or
    encoding, an empty [redirectURL], the remote address of the exchange,
    and the error as it was given. *)
Theorem response_without_response (error : option Error) (harConfig : HarConfig)
    (meta : Meta) :
  let res := buildHarResponse error None harConfig meta in
  hres_status res = -1 /\
  hres_statusText res = "" /\
  hres_httpVersion res = "unknown" /\
  hres_cookies res = [] /\
  hres_headers res = [] /\
  hres_content res
  = {| content_size := 0; content_mimeType := "x-unknown";
       content_text := None; content_encoding := None |} /\
  hres_redirectURL res = "" /\
  hres_remoteAddress res = meta_remoteAddress meta /\
  hres_error res = error.
Proof.
  cbv zeta. repeat split. destruct error as [[message code]|]; reflexivity.
Qed.

(** X5.  The status of a HAR response is never 0: a response whose status
    code is 0 is recorded with -1, like a missing response, and any other
    status code is recorded as it is. *)
Theorem status_never_zero (error : option Error) (response : option Response)
    (harConfig : HarConfig) (meta : Meta) :
  hres_status (buildHarResponse error response harConfig meta) <> 0 /\
  (forall r, response = Some r -> res_statusCode r <> 0 ->
             hres_status (buildHarResponse error response harConfig meta)
             = res_statusCode r) /\
  (forall r, response = Some r -> res_statusCode r = 0 ->
             hres_status (buildHarResponse error response harConfig meta) = -1).
Proof.
  cbn. destruct response as [r|].
  - destruct (Z.eqb_spec (res_statusCode r) 0) as [Hzero|Hnonzero].
    + split; [discriminate|]. split; intros r' [= <-] Hr; congruence.
    + split; [exact Hnonzero|]. split; intros r' [= <-] Hr; congruence.
  - split; [discriminate|]. split; intros r' Hr; discriminate Hr.
Qed.

(** X6.  A cookie string that [tough.parse] cannot read is left out of the
    cookie list and the other cookies keep their order; so the list is never
    longer than the list of strings, and no cookie string at all gives the
    empty list. *)
Theorem unparsable_cookie_dropped (before after : list string) (s : string) :
  toughParse s = None ->
  buildHarCookies (Some (before ++ s :: after))
  = buildHarCookies (Some (before ++ after)) /\
  (length (buildHarCookies (Some (before ++ s :: after)))
   < length (before ++ s :: after))%nat /\
  buildHarCookies (Some (before ++ after))
  = buildHarCookies (Some before) ++ buildHarCookies (Some after).
Proof.
  intros Hs. unfold buildHarCookies.
  assert (Hdrop : omap toughParse (before ++ s :: after)
                  = omap toughParse (before ++ after)).
  { rewrite !omap_app. cbn. now rewrite Hs. }
  split; [now rewrite Hdrop|]. split.
  - rewrite Hdrop, length_map, length_app. cbn [length].
    pose proof (omap_shorter toughParse (before ++ after)) as Hle.
    rewrite length_app in Hle. lia.
  - rewrite omap_app. apply List.map_app.
Qed.

(** X7.  A single Set-Cookie header given as a string yields the same
    cookies as the one-element array of that string; an empty or absent
    Set-Cookie header yields no cookie. *)
Theorem single_set_cookie_wrapped (r1 r2 : Response) (s : string)
    (error1 error2 : option Error) (hc1 hc2 : HarConfig) (meta1 meta2 : Meta) :
  s <> "" ->
  getVal (res_headers r1) "set-cookie" = VStr s ->
  getVal (res_headers r2) "set-cookie" = VArr [s] ->
  hres_cookies (buildHarResponse error1 (Some r1) hc1 meta1)
  = hres_cookies (buildHarResponse error2 (Some r2) hc2 meta2) /\
  (forall r, getVal (res_headers r) "set-cookie" = VStr ""
             \/ getVal (res_headers r) "set-cookie" = VUndef ->
             hres_cookies (buildHarResponse error1 (Some r) hc1 meta1) = []).
Proof.
  intros Hs H1 H2. cbn. unfold setCookieStrings. rewrite H1, H2.
  destruct (String.eqb_spec s ""); [contradiction|].
  split; [reflexivity|].
  intros r [-> | ->]; reflexivity.
Qed.

Lemma upper_lower_char (c : ascii) :
  Str.upperChar (Str.lowerChar c) = Str.upperChar c.
Proof. destruct c as [[] [] [] [] [] [] [] []]; reflexivity. Qed.

Lemma upper_upper_char (c : ascii) :
  Str.upperChar (Str.upperChar c) = Str.upperChar c.
Proof. destruct c as [[] [] [] [] [] [] [] []]; reflexivity. Qed.

Lemma toUpperCase_toLowerCase (s : string) :
  Str.toUpperCase (Str.toLowerCase s) = Str.toUpperCase s.
Proof.
  induction s as [|c s IH]; [reflexivity|].
  unfold Str.toUpperCase, Str.toLowerCase in *. cbn [Str.mapChars].
  now rewrite upper_lower_char, IH.
Qed.

Lemma toUpperCase_idempotent (s : string) :
  Str.toUpperCase (Str.toUpperCase s) = Str.toUpperCase s.
Proof.
  induction s as [|c s IH]; [reflexivity|].
  unfold Str.toUpperCase in *. cbn [Str.mapChars].
  now rewrite upper_upper_char, IH.
Qed.

(** X8.  The method of a HAR request does not depend on the letter case of
    the method of the request: methods that differ only in the case of their
    ASCII letters are recorded alike, and the recorded method is already in
    upper case. *)
Theorem method_case_insensitive (request1 request2 : ReqObject) :
  Str.toLowerCase (req_method request1) = Str.toLowerCase (req_method request2) ->
  hreq_method (buildHarRequest request1) = hreq_method (buildHarRequest request2) /\
  Str.toUpperCase (hreq_method (buildHarRequest request1))
  = hreq_method (buildHarRequest request1).
Proof.
  intros Hsame. cbn. split.
  - rewrite <- (toUpperCase_toLowerCase (req_method request1)), Hsame.
    apply toUpperCase_toLowerCase.
  - apply toUpperCase_idempotent.
Qed.

Lemma splitAcc_cons (sep : ascii) (s cur : string) :
  exists piece pieces, Str.splitAcc sep s cur = piece :: pieces.
Proof.
  revert cur. induction s as [|c s IH]; intros cur; cbn; [eauto|].
  destruct (Ascii.eqb c sep); eauto.
Qed.

Lemma concat_cons2 (sep x y : string) (l : list string) :
  String.concat sep (x :: y :: l)
  = (x ++ sep ++ String.concat sep (y :: l))%string.
Proof. reflexivity. Qed.

Lemma concat_splitAcc (sep : ascii) (s cur : string) :
  String.concat (String sep "") (Str.splitAcc sep s cur) = (cur ++ s)%string.
Proof.
  revert cur. induction s as [|c s IH]; intros cur.
  - cbn. now rewrite append_empty_r.
  - cbn [Str.splitAcc]. destruct (Ascii.eqb_spec c sep) as [->|Hc].
    + destruct (splitAcc_cons sep s "") as (piece & pieces & Hsplit).
      specialize (IH ""%string). rewrite Hsplit in IH |- *.
      rewrite concat_cons2, IH. reflexivity.
    + rewrite IH, append_assoc. reflexivity.
Qed.

Lemma occurs_append (sep : ascii) (s t : string) :
  occurs sep (s ++ t)%string = occurs sep s || occurs sep t.
Proof.
  induction s as [|c s IH]; [reflexivity|].
  rewrite append_cons. cbn [occurs]. rewrite IH. now rewrite orb_assoc.
Qed.

Lemma splitAcc_pieces (sep : ascii) (s cur : string) :
  occurs sep cur = false ->
  Forall (fun piece => occurs sep piece = false) (Str.splitAcc sep s cur).
Proof.
  revert cur. induction s as [|c s IH]; intros cur Hcur; cbn [Str.splitAcc].
  - constructor; [exact Hcur|constructor].
  - destruct (Ascii.eqb c sep) eqn:Hc.
    + constructor; [exact Hcur|]. now apply IH.
    + apply IH. rewrite occurs_append, Hcur. cbn. now rewrite Hc.
Qed.

(** X9.  The cookie strings of a request are the pieces of its [cookie]
    header between the semicolons: joined by [";"] they give the header
    back, and no piece contains a semicolon.  A request without [cookie]
    header, or with an empty one, has no cookie string, and its HAR
    request has no cookie. *)
Theorem cookie_header_split (request : ReqObject) :
  (forall pieces,
      cookieStrings (req_headers request) = Some pieces ->
      exists header,
        getProp (req_headers request) "cookie" = Some header /\
        header <> "" /\
        String.concat ";" pieces = header /\
        Forall (fun piece => occurs ";" piece = false) pieces) /\
  (cookieStrings (req_headers request) = None <->
   getProp (req_headers request) "cookie" = None \/
   getProp (req_headers request) "cookie" = Some "") /\
  (cookieStrings (req_headers request) = None ->
   hreq_cookies (buildHarRequest request) = []).
Proof.
  unfold cookieStrings.
  destruct (getProp (req_headers request) "cookie") as [header|] eqn:Hheader.
  - destruct (String.eqb_spec header "") as [->|Hne].
    + split; [discriminate|]. split; [tauto|].
      intros _. cbn. unfold cookieStrings. rewrite Hheader. reflexivity.
    + split; [|split].
      * intros pieces [= <-]. exists header. split; [reflexivity|].
        split; [exact Hne|]. split.
        -- unfold Str.split. now rewrite concat_splitAcc.
        -- now apply splitAcc_pieces.
      * split; [discriminate|]. intros [Hnone|Hempty]; congruence.
      * discriminate.
  - split; [discriminate|]. split; [tauto|].
    intros _. cbn. unfold cookieStrings. rewrite Hheader. reflexivity.
Qed.

(* ----------------------------------------------------------------- *)
(** *** The redirect decision and the chain *)

Lemma hopEntry_inv (W : World) (harConfig : HarConfig) (n : nat) (store : Store)
    (rc : RequestConfig) (dns : option string) (depth : Z)
    (entry : HarEntry) (follow : bool) :
  hopEntry n W harConfig store rc dns depth = Some (entry, follow) ->
  exists st rcn dnsn d outcome,
    hopStart n W harConfig store rc dns depth = Some (st, rcn, dnsn, d) /\
    resolved (snd (captureEntry W d st rcn harConfig dnsn)) = Some outcome /\
    entry = entryOf W st rcn harConfig d outcome /\
    follow = fst (shouldRedirect (snd (fst outcome)) rcn d).
Proof.
  unfold hopEntry.
  destruct (hopStart n W harConfig store rc dns depth)
    as [[[[st rcn] dnsn] d]|]; [|discriminate].
  rewrite captureHop_eq.
  destruct (resolved _) as [outcome|] eqn:Hres; [|discriminate].
  cbn. intros [= <- <-]. exists st, rcn, dnsn, d, outcome. auto.
Qed.

Lemma entryOf_status (W : World) (st : Store) (rcn : RequestConfig)
    (harConfig : HarConfig) (d : Z) (error0 : option Error) (r : Response)
    (address : option string) :
  res_statusCode r <> 0 ->
  hres_status (entry_response
    (entryOf W st rcn harConfig d (error0, Some r, address))) = res_statusCode r.
Proof.
  intros Hr. cbn. destruct (Z.eqb_spec (res_statusCode r) 0); congruence.
Qed.

(** X10.  The redirect decision never both follows and reports an error.
    It reports an error only for a response with a status in [300,400), and
    that error is ['NOLOCATION'] or ['MAXREDIRECTS']; a missing response and
    a response with any other status are not followed and report none. *)
Theorem redirect_decision_exclusive (response : option Response)
    (rc : RequestConfig) (depth : Z) :
  (fst (shouldRedirect response rc depth) = true ->
   snd (shouldRedirect response rc depth) = None) /\
  (forall e,
      snd (shouldRedirect response rc depth) = Some e ->
      fst (shouldRedirect response rc depth) = false /\
      (e = noLocationError \/ e = maxRedirectsError) /\
      exists r, response = Some r /\ 300 <= res_statusCode r < 400) /\
  (forall r,
      response = Some r ->
      res_statusCode r < 300 \/ 400 <= res_statusCode r ->
      shouldRedirect response rc depth = (false, None)) /\
  (response = None -> shouldRedirect response rc depth = (false, None)).
Proof.
  destruct response as [r|].
  - destruct (Z.ltb_spec (res_statusCode r) 300) as [Hlo|Hlo];
      [|destruct (Z.geb_spec (res_statusCode r) 400) as [Hhi|Hhi]].
    + assert (Hout : shouldRedirect (Some r) rc depth = (false, None)).
      { cbn [shouldRedirect].
        replace (res_statusCode r <? 300) with true by lia. reflexivity. }
      rewrite Hout. cbn.
      split; [discriminate|]. split; [intros e He; discriminate He|].
      split; [reflexivity|discriminate].
    + assert (Hout : shouldRedirect (Some r) rc depth = (false, None)).
      { cbn [shouldRedirect].
        replace (res_statusCode r <? 300) with false by lia.
        replace (res_statusCode r >=? 400) with true by lia. reflexivity. }
      rewrite Hout. cbn.
      split; [discriminate|]. split; [intros e He; discriminate He|].
      split; [reflexivity|discriminate].
    + assert (Hrange : 300 <= res_statusCode r < 400) by lia.
      assert (Hcases :
        shouldRedirect (Some r) rc depth = (true, None) \/
        shouldRedirect (Some r) rc depth = (false, None) \/
        shouldRedirect (Some r) rc depth = (false, Some noLocationError) \/
        shouldRedirect (Some r) rc depth = (false, Some maxRedirectsError)).
      { cbn [shouldRedirect].
        replace (res_statusCode r <? 300) with false by lia.
        replace (res_statusCode r >=? 400) with false by lia. cbn [orb].
        destruct (negb (truthyStr (Some (parseRedirectUrl (Some r))))); [auto|].
        destruct (rc_followRedirect rc) as [[[|]|f]|];
          try destruct (depth >? _); try destruct (f r); auto. }
      destruct Hcases as [-> | [-> | [-> | ->]]]; cbn;
        (split; [try reflexivity; discriminate|]);
        (split; [|split; [intros r' [= <-] Hout; lia|discriminate]]);
        intros e He; try discriminate He; injection He as <-;
        (split; [reflexivity|]); (split; [auto|]);
        exists r; auto.
  - cbn. split; [discriminate|]. split; [intros e He; discriminate He|].
    split; [intros r Hr; discriminate Hr|reflexivity].
Qed.

(** X11.  In the log of a completed capture every entry but the last is
    the entry of a redirect that was followed: the status of its response is
    in [300,400) and its [redirectURL] is not empty. *)
Theorem followed_entries_are_redirects (W : World) (store : Store)
    (input : RequestInput) (ho : option HarOptions) (fuel : nat) (log : HarLog)
    (store' : Store) (i : nat) (entry : HarEntry) :
  captureHar fuel W store input ho = Some (log, store') ->
  log_entries log !! i = Some entry ->
  (S i < length (log_entries log))%nat ->
  300 <= hres_status (entry_response entry) < 400 /\
  hres_redirectURL (entry_response entry) <> "".
Proof.
  rewrite captureHar_eq.
  destruct (captureEntries fuel W store (buildRequestConfig input)
              (buildHarConfig (orEmpty ho)) None 1)
    as [[entries st]|] eqn:Hrun; [|discriminate].
  intros [= <- <-]. cbn [logOf log_entries]. intros Hi Hlast.
  destruct (captureEntries_hops W _ fuel _ _ _ _ _ _ Hrun) as [_ Hnth].
  specialize (Hnth i entry Hi).
  replace (S i <? length entries)%nat with true in Hnth
    by (symmetry; apply Nat.ltb_lt; lia).
  destruct (hopEntry_inv _ _ _ _ _ _ _ _ _ Hnth)
    as (sti & rcn & dnsn & d & [[error0 response] address] & _ & _ & -> & Hfollow).
  cbn [fst snd] in Hfollow. symmetry in Hfollow.
  destruct (shouldRedirect_true response rcn d Hfollow) as (r & -> & Hstatus & Hurl).
  rewrite entryOf_status by lia. split; [exact Hstatus|exact Hurl].
Qed.

(** X12.  With [followRedirect] false no hop is followed: as soon as the
    first exchange settles the capture resolves with exactly one entry,
    whatever the response is; and when the exchange was fulfilled, the only
    error that entry can carry is ['NOLOCATION']. *)
Theorem no_follow_single_entry (W : World) (store : Store)
    (input : RequestInput) (ho : option HarOptions)
    (outcome : option Error * option Response * option string) :
  let rc := buildRequestConfig input in
  let hc := buildHarConfig (orEmpty ho) in
  rc_followRedirect rc = Some (FollowBool false) ->
  resolved (snd (captureEntry W 1 store rc hc None)) = Some outcome ->
  let entry := entryOf W store rc hc 1 outcome in
  stopsAt W store input ho 0 entry /\
  (forall fuel log store',
      captureHar fuel W store input ho = Some (log, store') ->
      log_entries log = [entry] /\ store' = store) /\
  (fst (fst outcome) = None ->
   hres_error (entry_response entry) = None \/
   hres_error (entry_response entry) = Some noLocationError).
Proof.
  cbv zeta. intros Hpolicy Hres.
  destruct outcome as [[error0 response] address].
  assert (Hdecide :
    shouldRedirect response (buildRequestConfig input) 1 = (false, None) \/
    shouldRedirect response (buildRequestConfig input) 1
    = (false, Some noLocationError)).
  { destruct response as [r|]; [|now left]. cbn [shouldRedirect].
    destruct (_ || _); [now left|].
    destruct (negb _); [now right|]. rewrite Hpolicy. now left. }
  assert (Hfollow : fst (shouldRedirect response (buildRequestConfig input) 1) = false)
    by (destruct Hdecide as [-> | ->]; reflexivity).
  assert (Hhop : captureHop W store (buildRequestConfig input)
                   (buildHarConfig (orEmpty ho)) None 1
                 = Some (entryOf W store (buildRequestConfig input)
                           (buildHarConfig (orEmpty ho)) 1 (error0, response, address),
                         false,
                         withUrl (buildRequestConfig input) (parseRedirectUrl response),
                         redirectStore store (buildRequestConfig input)
                           (withUrl (buildRequestConfig input)
                              (parseRedirectUrl response))
                           (parseRedirectUrl response),
                         address)).
  { rewrite captureHop_eq, Hres. cbn [fst snd]. rewrite Hfollow. reflexivity. }
  split; [|split].
  - apply chain_stops. rewrite hopEntry_O, Hhop. reflexivity.
  - intros [|fuel] log store' Hrun; rewrite captureHar_eq in Hrun;
      [discriminate|].
    rewrite captureEntries_S, Hhop in Hrun. injection Hrun as <- <-.
    split; reflexivity.
  - cbn [fst]. intros ->. rewrite entryOf_error.
    destruct Hdecide as [-> | ->]; auto.
Qed.

Lemma followed_within_limit (W : World) (store : Store) (input : RequestInput)
    (ho : option HarOptions) (n : nat) (entry : HarEntry) :
  (forall f, rc_followRedirect (buildRequestConfig input) <> Some (FollowFn f)) ->
  hopEntry n W (buildHarConfig (orEmpty ho)) store (buildRequestConfig input) None 1
  = Some (entry, true) ->
  1 + Z.of_nat n <= match rc_maxRedirects (buildRequestConfig input) with
                    | Some m => m
                    | None => 10
                    end.
Proof.
  intros Hpolicy Hentry.
  destruct (hopEntry_inv _ _ _ _ _ _ _ _ _ Hentry)
    as (sti & rcn & dnsn & d & [[error0 response] address] & Hs & _ & _ & Hfollow).
  destruct (hopStart_policy W store input ho n _ _ _ _ Hs)
    as (Hd & Hfr & Hmax & _).
  cbn [fst snd] in Hfollow. symmetry in Hfollow.
  destruct (shouldRedirect_true response rcn d Hfollow) as (r & -> & Hstatus & Hurl).
  rewrite (shouldRedirect_usable r rcn d Hstatus Hurl), Hfr, Hmax in Hfollow.
  destruct (rc_followRedirect (buildRequestConfig input)) as [[[|]|f]|] eqn:Hf;
    try discriminate; try (exfalso; now apply (Hpolicy f));
    destruct (Z.gtb_spec d (match rc_maxRedirects (buildRequestConfig input) with
                            | Some m => m
                            | None => 10
                            end)); try discriminate; lia.
Qed.

(** X13.  When [followRedirect] is not a predicate, the log of a completed
    capture has at most [maxRedirects + 1] entries (11 when [maxRedirects]
    is absent), and one entry when [maxRedirects] is negative. *)
Theorem chain_length_bound (W : World) (store : Store) (input : RequestInput)
    (ho : option HarOptions) (fuel : nat) (log : HarLog) (store' : Store) :
  let rc := buildRequestConfig input in
  let maxRedirects := match rc_maxRedirects rc with Some m => m | None => 10 end in
  (forall f, rc_followRedirect rc <> Some (FollowFn f)) ->
  captureHar fuel W store input ho = Some (log, store') ->
  Z.of_nat (length (log_entries log)) <= Z.max 0 maxRedirects + 1.
Proof.
  cbv zeta. intros Hpolicy. rewrite captureHar_eq.
  destruct (captureEntries fuel W store (buildRequestConfig input)
              (buildHarConfig (orEmpty ho)) None 1)
    as [[entries st]|] eqn:Hrun; [|discriminate].
  intros [= <- <-]. cbn [logOf log_entries].
  destruct (captureEntries_hops W _ fuel _ _ _ _ _ _ Hrun) as [Hlen Hnth].
  destruct (length entries) as [|[|k]] eqn:Hk; [lia|lia|].
  destruct (lookup_lt_is_Some_2 entries k) as [entry Hentry]; [lia|].
  specialize (Hnth k entry Hentry).
  replace (S k <? S (S k))%nat with true in Hnth
    by (symmetry; apply Nat.ltb_lt; lia).
  pose proof (followed_within_limit W store input ho k entry Hpolicy Hnth). lia.
Qed.

Lemma hopStart_url (W : World) (harConfig : HarConfig) (k : nat) :
  forall store rc dns depth st rcn dnsn d entry follow,
    hopStart (S k) W harConfig store rc dns depth = Some (st, rcn, dnsn, d) ->
    hopEntry k W harConfig store rc dns depth = Some (entry, follow) ->
    rc_url rcn = hres_redirectURL (entry_response entry).
Proof.
  induction k as [|k IH]; intros store rc dns depth st rcn dnsn d entry follow Hs He.
  - destruct (hopStart_S_inv W harConfig _ _ _ _ _ _ Hs)
      as (entry0 & rc' & st' & dns' & Hhop & Hrest).
    cbn in Hrest. injection Hrest as <- <- <- <-.
    rewrite hopEntry_O, Hhop in He. injection He as <- <-.
    destruct (redirect_config_frame W harConfig _ _ _ _ _ _ _ _ _ Hhop) as [-> _].
    reflexivity.
  - destruct (hopStart_S_inv W harConfig _ _ _ _ _ _ Hs)
      as (entry0 & rc' & st' & dns' & Hhop & Hrest).
    rewrite (hopEntry_S W harConfig k _ _ _ _ _ _ _ _ Hhop) in He.
    exact (IH _ _ _ _ _ _ _ _ _ _ Hrest He).
Qed.

(** X14.  Hop [n] of a chain runs at depth [n + 1] with a configuration
    that has the method, headers reference, body, timeout, redirect policy,
    [maxRedirects] and lookup of the caller's configuration; only its URL
    differs, and from the second hop on it is the [redirectURL] recorded on
    the entry of the hop before. *)
Theorem hop_config_differs_in_url_only (W : World) (store : Store)
    (input : RequestInput) (ho : option HarOptions) (n : nat)
    (st : Store) (rcn : RequestConfig) (dns : option string) (d : Z) :
  let rc := buildRequestConfig input in
  let hc := buildHarConfig (orEmpty ho) in
  hopStart n W hc store rc None 1 = Some (st, rcn, dns, d) ->
  d = 1 + Z.of_nat n /\
  rcn = withUrl rc (rc_url rcn) /\
  (n = 0%nat -> rcn = rc /\ st = store) /\
  (forall k entry follow,
      n = S k ->
      hopEntry k W hc store rc None 1 = Some (entry, follow) ->
      rc_url rcn = hres_redirectURL (entry_response entry)).
Proof.
  cbv zeta. intros Hs.
  destruct (hopStart_frame W _ n _ _ _ _ _ _ _ _ Hs) as [Hd Hrc].
  split; [lia|]. split; [|split].
  - destruct rcn, (buildRequestConfig input). unfold withUrl in *. cbn in *.
    congruence.
  - intros ->. cbn in Hs. injection Hs as <- <- _ _. split; reflexivity.
  - intros k entry follow -> Hentry.
    exact (hopStart_url W _ k _ _ _ _ _ _ _ _ _ _ Hs Hentry).
Qed.

(** X15.  The redirect decision looks at the response only: a hop whose
    promise was rejected with an error that carries a response is decided as
    if it had been fulfilled with that response, so a redirect is still
    followed; its entry carries the error of the rejection, and no redirect
    error replaces it. *)
Theorem rejected_hop_still_decided (W : World) (store : Store)
    (input : RequestInput) (ho : option HarOptions) (n : nat)
    (st : Store) (rcn : RequestConfig) (dns : option string) (d : Z)
    (cause : Error) (r : Response) (address : option string) :
  let rc := buildRequestConfig input in
  let hc := buildHarConfig (orEmpty ho) in
  hopStart n W hc store rc None 1 = Some (st, rcn, dns, d) ->
  resolved (snd (captureEntry W d st rcn hc dns)) = Some (Some cause, Some r, address) ->
  let entry := entryOf W st rcn hc d (Some cause, Some r, address) in
  hopEntry n W hc store rc None 1
  = Some (entry, fst (shouldRedirect (Some r) rcn d)) /\
  hres_error (entry_response entry) = Some cause /\
  hres_redirectURL (entry_response entry) = parseRedirectUrl (Some r) /\
  (300 <= res_statusCode r < 400 ->
   parseRedirectUrl (Some r) <> "" ->
   rc_followRedirect rc = None \/ rc_followRedirect rc = Some (FollowBool true) ->
   d <= match rc_maxRedirects rc with Some m => m | None => 10 end ->
   hopEntry n W hc store rc None 1 = Some (entry, true)).
Proof.
  cbv zeta. intros Hs Hres.
  pose proof (hopEntry_resolved W store input ho n _ _ _ _ _ Hs Hres) as Hentry.
  cbn [fst snd] in Hentry.
  split; [exact Hentry|]. split; [now rewrite entryOf_error|].
  split; [reflexivity|].
  intros Hstatus Hurl Hpolicy Hdepth. rewrite Hentry.
  destruct (hopStart_policy W store input ho n _ _ _ _ Hs) as (_ & Hfr & Hmax & _).
  rewrite (shouldRedirect_usable r rcn d Hstatus Hurl), Hfr, Hmax.
  replace (d >? match rc_maxRedirects (buildRequestConfig input) with
               | Some m => m
               | None => 10
               end) with false by lia.
  destruct Hpolicy as [-> | ->]; reflexivity.
Qed.

(** X16.  A hop that is fulfilled with a response whose status is outside
    [300,400) ends the chain, whatever the redirect policy and whatever
    Location header the response has: its entry carries no error and an
    empty [redirectURL].  On the first hop the log has exactly one entry. *)
Theorem non_redirect_ends_chain (W : World) (store : Store)
    (input : RequestInput) (ho : option HarOptions) (n : nat)
    (st : Store) (rcn : RequestConfig) (dns : option string) (d : Z)
    (r : Response) (address : option string) :
  let rc := buildRequestConfig input in
  let hc := buildHarConfig (orEmpty ho) in
  hopStart n W hc store rc None 1 = Some (st, rcn, dns, d) ->
  resolved (snd (captureEntry W d st rcn hc dns)) = Some (None, Some r, address) ->
  res_statusCode r < 300 \/ 400 <= res_statusCode r ->
  let entry := entryOf W st rcn hc d (None, Some r, address) in
  stopsAt W store input ho n entry /\
  hres_error (entry_response entry) = None /\
  hres_redirectURL (entry_response entry) = "".
Proof.
  cbv zeta. intros Hs Hres Hstatus.
  assert (Hdecide : shouldRedirect (Some r) rcn d = (false, None)).
  { cbn [shouldRedirect].
    destruct Hstatus as [Hlo|Hhi].
    - replace (res_statusCode r <? 300) with true by lia. reflexivity.
    - replace (res_statusCode r >=? 400) with true by lia.
      now rewrite orb_true_r. }
  pose proof (hopEntry_resolved W store input ho n _ _ _ _ _ Hs Hres) as Hentry.
  cbn [fst snd] in Hentry. rewrite Hdecide in Hentry.
  split; [now apply chain_stops|].
  split; [rewrite entryOf_error, Hdecide; reflexivity|].
  cbn. unfold parseRedirectUrl.
  replace ((300 <=? res_statusCode r) && (res_statusCode r <? 400)) with false;
    [reflexivity|].
  symmetry. apply andb_false_iff. destruct Hstatus; [left|right]; lia.
Qed.

(** X17.  Every entry of a completed capture keeps the fixed fields of the
    HAR record: its [time] is the sum of its timings, of which [send] and
    [receive] are 0 and [wait] is the duration of the hop; the header and
    body sizes of request and response are -1; the protocol version of the
    request is ['HTTP/1.1']; and the method of the request is in upper
    case. *)
Theorem entry_fixed_fields (W : World) (store : Store) (input : RequestInput)
    (ho : option HarOptions) (fuel : nat) (log : HarLog) (store' : Store)
    (i : nat) (entry : HarEntry) :
  captureHar fuel W store input ho = Some (log, store') ->
  log_entries log !! i = Some entry ->
  (inject_Z (t_send (entry_timings entry))
   + inject_Z (t_receive (entry_timings entry))
   + t_wait (entry_timings entry) == entry_time entry)%Q /\
  t_send (entry_timings entry) = 0 /\
  t_receive (entry_timings entry) = 0 /\
  hreq_headersSize (entry_request entry) = -1 /\
  hreq_bodySize (entry_request entry) = -1 /\
  hres_headersSize (entry_response entry) = -1 /\
  hres_bodySize (entry_response entry) = -1 /\
  hreq_httpVersion (entry_request entry) = "HTTP/1.1" /\
  Str.toUpperCase (hreq_method (entry_request entry))
  = hreq_method (entry_request entry).
Proof.
  rewrite captureHar_eq.
  destruct (captureEntries fuel W store (buildRequestConfig input)
              (buildHarConfig (orEmpty ho)) None 1)
    as [[entries st]|] eqn:Hrun; [|discriminate].
  intros [= <- <-]. cbn [logOf log_entries]. intros Hi.
  destruct (captureEntries_hops W _ fuel _ _ _ _ _ _ Hrun) as [_ Hnth].
  destruct (hopEntry_inv _ _ _ _ _ _ _ _ _ (Hnth i entry Hi))
    as (sti & rcn & dnsn & d & [[error0 response] address] & _ & _ & -> & _).
  unfold entryOf, buildHarEntry. cbn.
  split; [ring|]. repeat split. apply toUpperCase_idempotent.
Qed.

(* ----------------------------------------------------------------- *)
(** *** The headers object and the Host header *)

Lemma getProp_setProp_eq {A : Type} (o : list (string * A)) (key : string) (v : A) :
  getProp (setProp o key v) key = Some v.
Proof.
  induction o as [|[k w] o IH]; cbn.
  - now rewrite String.eqb_refl.
  - destruct (String.eqb_spec k key) as [->|Hk]; cbn.
    + now rewrite String.eqb_refl.
    + destruct (String.eqb_spec k key); [contradiction|exact IH].
Qed.

Lemma getProp_setProp_ne {A : Type} (o : list (string * A)) (key other : string)
    (v : A) :
  other <> key -> getProp (setProp o key v) other = getProp o other.
Proof.
  intros Hne. induction o as [|[k w] o IH]; cbn.
  - destruct (String.eqb_spec key other); [congruence|reflexivity].
  - destruct (String.eqb_spec k key) as [->|Hk]; cbn.
    + destruct (String.eqb_spec key other); [congruence|reflexivity].
    + destruct (String.eqb_spec k other); [reflexivity|exact IH].
Qed.

Lemma keys_setProp {A : Type} (o : list (string * A)) (key : string) (v : A) :
  In key (keys o) -> keys (setProp o key v) = keys o.
Proof.
  unfold keys. induction o as [|[k w] o IH]; cbn; [contradiction|].
  intros [-> | Hin].
  - now rewrite String.eqb_refl.
  - destruct (String.eqb_spec k key); cbn; [reflexivity|]. now rewrite IH.
Qed.

Lemma find_first {A : Type} (f : A -> bool) (l : list A) (x : A) :
  find f l = Some x ->
  exists before after,
    l = before ++ x :: after /\ f x = true /\ forallb (fun y => negb (f y)) before = true.
Proof.
  induction l as [|y l IH]; cbn; [discriminate|].
  destruct (f y) eqn:Hy.
  - intros [= ->]. exists [], l. auto.
  - intros Hfind. destruct (IH Hfind) as (before & after & -> & Hx & Hbefore).
    exists (y :: before), after. cbn. rewrite Hy. auto.
Qed.

(** X18.  The name of the caller's Host header is the first key of the
    headers object that reads ["host"] in lower case, whatever its
    capitalization; there is none when the configuration has no headers or
    when no key of the headers reads ["host"]. *)
Theorem custom_host_header_name (store : Store) (rc : RequestConfig) :
  (rc_headers rc = None -> getCustomHostHeaderName store rc = None) /\
  (forall l headers,
      rc_headers rc = Some l ->
      store !! l = Some headers ->
      (forall name,
          getCustomHostHeaderName store rc = Some name ->
          Str.toLowerCase name = "host" /\
          exists before after,
            keys headers = before ++ name :: after /\
            Forall (fun key => Str.toLowerCase key <> "host") before) /\
      (getCustomHostHeaderName store rc = None <->
       Forall (fun key => Str.toLowerCase key <> "host") (keys headers))).
Proof.
  unfold getCustomHostHeaderName. split; [intros ->; reflexivity|].
  intros l headers -> ->. split.
  - intros name Hfind.
    destruct (find_first _ _ _ Hfind) as (before & after & Hkeys & Hname & Hbefore).
    apply String.eqb_eq in Hname. split; [exact Hname|].
    exists before, after. split; [exact Hkeys|].
    apply List.Forall_forall. intros key Hkey.
    rewrite forallb_forall in Hbefore. specialize (Hbefore key Hkey).
    apply negb_true_iff in Hbefore. now apply String.eqb_neq.
  - split.
    + intros Hnone. apply List.Forall_forall. intros key Hkey.
      apply String.eqb_neq. exact (find_none _ _ Hnone key Hkey).
    + intros Hall.
      destruct (find _ (keys headers)) as [name|] eqn:Hfind; [|reflexivity].
      destruct (find_some _ _ Hfind) as [Hin Hname].
      rewrite List.Forall_forall in Hall. apply String.eqb_eq in Hname.
      now destruct (Hall name Hin).
Qed.

Lemma getCustomHostHeaderName_keys (store store' : Store) (rc rc' : RequestConfig)
    (l : ref) (headers headers' : Headers) :
  rc_headers rc = Some l -> rc_headers rc' = Some l ->
  store !! l = Some headers -> store' !! l = Some headers' ->
  keys headers' = keys headers ->
  getCustomHostHeaderName store' rc' = getCustomHostHeaderName store rc.
Proof.
  intros Hrc Hrc' Hs Hs' Hkeys. unfold getCustomHostHeaderName.
  unfold Headers in *. now rewrite Hrc, Hrc', Hs, Hs', Hkeys.
Qed.

Lemma getCustomHostHeaderName_Some (store : Store) (rc : RequestConfig)
    (name : string) :
  getCustomHostHeaderName store rc = Some name ->
  exists l headers,
    rc_headers rc = Some l /\ store !! l = Some headers /\ In name (keys headers).
Proof.
  unfold getCustomHostHeaderName.
  destruct (rc_headers rc) as [l|]; [|discriminate].
  destruct (store !! l) as [headers|] eqn:Hs; [|discriminate].
  intros Hfind. exists l, headers. split; [reflexivity|]. split; [exact Hs|].
  exact (proj1 (find_some _ _ Hfind)).
Qed.

(** X19.  On a followed hop of a configuration with a Host header, the
    headers object of the configuration is updated in place: that header is
    set to the host of the redirect target, every other header keeps its
    value, the keys keep their order, no other object of the store is
    touched, and the next hop, whose configuration points to the same
    object, is requested with the rewritten header. *)
Theorem host_header_rewritten (W : World) (harConfig : HarConfig) (store : Store)
    (rc : RequestConfig) (dns : option string) (depth : Z)
    (entry : HarEntry) (rc' : RequestConfig) (store' : Store)
    (dns' : option string) (name : string) :
  captureHop W store rc harConfig dns depth = Some (entry, true, rc', store', dns') ->
  getCustomHostHeaderName store rc = Some name ->
  exists l headers headers',
    rc_headers rc = Some l /\ rc_headers rc' = Some l /\
    store !! l = Some headers /\ store' !! l = Some headers' /\
    getProp headers' name
    = Some (uri_host (urlParse (hres_redirectURL (entry_response entry)))) /\
    (forall other, other <> name -> getProp headers' other = getProp headers other) /\
    keys headers' = keys headers /\
    (forall l', l' <> l -> store' !! l' = store !! l') /\
    opt_headers (optionsOf store' rc') = Some headers'.
Proof.
  intros Hhop Hname.
  destruct (redirect_config_frame W harConfig _ _ _ _ _ _ _ _ _ Hhop) as [Hrc' Hstore'].
  rewrite Hname in Hstore'.
  destruct (getCustomHostHeaderName_Some _ _ _ Hname) as (l & headers & Hl & Hs & Hin).
  unfold writeHeader in Hstore'. unfold Headers in *. rewrite Hl, Hs in Hstore'.
  exists l, headers,
    (setProp headers name
       (uri_host (urlParse (hres_redirectURL (entry_response entry))))).
  assert (Hl' : rc_headers rc' = Some l) by (rewrite Hrc'; exact Hl).
  assert (Hs' : store' !! l
                = Some (setProp headers name
                          (uri_host (urlParse
                             (hres_redirectURL (entry_response entry))))))
    by (rewrite Hstore'; apply lookup_insert_eq).
  split; [exact Hl|]. split; [exact Hl'|]. split; [exact Hs|].
  split; [exact Hs'|]. split; [apply getProp_setProp_eq|].
  split; [intros other Hother; now apply getProp_setProp_ne|].
  split; [now apply keys_setProp|].
  split; [intros l' Hl'ne; rewrite Hstore'; now apply lookup_insert_ne|].
  unfold optionsOf. cbn. rewrite Hl'. exact Hs'.
Qed.

Lemma captureEntries_store (W : World) (harConfig : HarConfig) (fuel : nat) :
  forall store rc dns depth entries store',
    captureEntries fuel W store rc harConfig dns depth = Some (entries, store') ->
    match getCustomHostHeaderName store rc with
    | None => store' = store
    | Some name =>
        exists (l : ref) (headers headers' : list (string * string)),
          rc_headers rc = Some l /\ store !! l = Some headers /\
          store' = <[l := headers']> store /\
          keys headers' = keys headers /\
          forall other, other <> name -> getProp headers' other = getProp headers other
    end.
Proof.
  induction fuel as [|fuel IH]; intros store rc dns depth entries store' Hrun;
    [discriminate|].
  rewrite captureEntries_S in Hrun.
  destruct (captureHop W store rc harConfig dns depth)
    as [[[[[entry [|]] rc'] st'] dns']|] eqn:Hhop; try discriminate.
  - destruct (captureEntries fuel W st' rc' harConfig dns' (depth + 1))
      as [[rest st'']|] eqn:Hrest; [|discriminate].
    injection Hrun as _ <-.
    destruct (redirect_config_frame W harConfig _ _ _ _ _ _ _ _ _ Hhop)
      as [Hrc' Hst'].
    specialize (IH _ _ _ _ _ _ Hrest).
    destruct (getCustomHostHeaderName store rc) as [name|] eqn:Hname.
    + destruct (getCustomHostHeaderName_Some _ _ _ Hname)
        as (l & headers & Hl & Hs & Hin).
      unfold writeHeader in Hst'. unfold Headers in *. rewrite Hl, Hs in Hst'.
      assert (Hl' : rc_headers rc' = Some l) by (rewrite Hrc'; exact Hl).
      assert (Hs' : st' !! l
                    = Some (setProp headers name
                              (uri_host (urlParse
                                 (hres_redirectURL (entry_response entry))))))
        by (rewrite Hst'; apply lookup_insert_eq).
      rewrite (getCustomHostHeaderName_keys store st' rc rc' l _ _ Hl Hl' Hs Hs'
                 (keys_setProp _ _ _ Hin)), Hname in IH.
      destruct IH as (l2 & headers2 & headers2' & Hl2 & Hs2 & -> & Hkeys & Hsame).
      assert (l2 = l) as -> by congruence.
      assert (headers2 = setProp headers name
                (uri_host (urlParse (hres_redirectURL (entry_response entry)))))
        as -> by congruence.
      exists l, headers, headers2'.
      split; [exact Hl|]. split; [exact Hs|]. split.
      * rewrite Hst'. apply insert_insert_eq.
      * split; [rewrite Hkeys; now apply keys_setProp|].
        intros other Hother. rewrite (Hsame other Hother).
        now apply getProp_setProp_ne.
    + subst st'.
      assert (Hnone : getCustomHostHeaderName store rc' = None)
        by (rewrite Hrc'; exact Hname).
      rewrite Hnone in IH. exact IH.
  - injection Hrun as _ <-.
    destruct (getCustomHostHeaderName store rc) as [name|] eqn:Hname;
      [|reflexivity].
    destruct (getCustomHostHeaderName_Some _ _ _ Hname)
      as (l & headers & Hl & Hs & Hin).
    exists l, headers, headers. split; [exact Hl|]. split; [exact Hs|].
    split; [symmetry; now apply insert_id|]. split; reflexivity.
Qed.

(** X20.  A capture changes nothing in the store but the caller's Host
    header: without such a header the store is left as it was; with one,
    the caller's headers object keeps its keys and the value of every other
    header; and every other object of the store is untouched. *)
Theorem capture_writes_host_header_only (W : World) (store : Store)
    (input : RequestInput) (ho : option HarOptions) (fuel : nat) (log : HarLog)
    (store' : Store) :
  let rc := buildRequestConfig input in
  captureHar fuel W store input ho = Some (log, store') ->
  (getCustomHostHeaderName store rc = None -> store' = store) /\
  (forall name (l : ref) (headers : list (string * string)),
      getCustomHostHeaderName store rc = Some name ->
      rc_headers rc = Some l ->
      store !! l = Some headers ->
      exists headers',
        store' !! l = Some headers' /\
        keys headers' = keys headers /\
        forall other, other <> name -> getProp headers' other = getProp headers other) /\
  (forall l' : ref, rc_headers rc <> Some l' -> store' !! l' = store !! l').
Proof.
  cbv zeta. rewrite captureHar_eq.
  destruct (captureEntries fuel W store (buildRequestConfig input)
              (buildHarConfig (orEmpty ho)) None 1)
    as [[entries st]|] eqn:Hrun; [|discriminate].
  intros [= <- <-].
  pose proof (captureEntries_store W _ fuel _ _ _ _ _ _ Hrun) as Hframe.
  destruct (getCustomHostHeaderName store (buildRequestConfig input))
    as [name|] eqn:Hname.
  - destruct Hframe as (l & headers & headers' & Hl & Hs & -> & Hkeys & Hsame).
    split; [discriminate|]. split.
    + intros name' l0 headers0 [= <-] Hl0 Hs0.
      assert (l0 = l) as -> by congruence.
      assert (headers0 = headers) as -> by congruence.
      exists headers'. split; [apply lookup_insert_eq|]. split; assumption.
    + intros l' Hl'. apply lookup_insert_ne. congruence.
  - subst st. split; [reflexivity|]. split; [discriminate|reflexivity].
Qed.

(* ----------------------------------------------------------------- *)
(** *** The size checks *)

Ltac step_cases c ev :=
  destruct c as [[settled|] len timer listening address calls];
  destruct ev; cbn [step];
  unfold onLookup, onResponse, onData, onEnd, onError, onTimeout, abortWith,
    onError, settle, called, setTimer, dataListener; cbn.

Lemma step_without_limit (rc : RequestConfig) (harConfig : HarConfig)
    (c : Capture) (ev : Event) :
  hc_maxContentLength harConfig = Infinity ->
  cap_bufferLenght (step rc harConfig c ev) = cap_bufferLenght c /\
  forall e, In (CallEmitError e) (cap_calls (step rc harConfig c ev)) ->
            In (CallEmitError e) (cap_calls c) \/ e = timeoutError.
Proof.
  intros Hmax. step_cases c ev; rewrite ?Hmax; cbn;
    try destruct (withContentOn harConfig); cbn;
    try match goal with |- context [gtExt ?x Infinity] => destruct x end; cbn;
    try destruct listening; try destruct timer; cbn;
    (split; [reflexivity|]); intros e0; rewrite ?in_app_iff; cbn;
    intuition congruence.
Qed.

(** X21.  Without a finite [maxContentLength], and so with the default
    configuration, the size checks do nothing: no byte of the body is
    counted and the only error the handlers ever emit is that of the
    timer. *)
Theorem no_size_error_without_limit (rc : RequestConfig) (harConfig : HarConfig)
    (c : Capture) (events : list Event) :
  hc_maxContentLength harConfig = Infinity ->
  cap_bufferLenght (run rc harConfig c events) = cap_bufferLenght c /\
  (forall e, In (CallEmitError e) (cap_calls (run rc harConfig c events)) ->
             In (CallEmitError e) (cap_calls c) \/ e = timeoutError) /\
  hc_maxContentLength (buildHarConfig (orEmpty None)) = Infinity.
Proof.
  intros Hmax. split; [|split; [|reflexivity]]; revert c;
    induction events as [|ev events IH]; intros c; try (cbn; auto; fail);
    rewrite run_cons;
    destruct (step_without_limit rc harConfig c ev Hmax) as [Hlen Hcalls].
  - now rewrite IH.
  - intros e He. destruct (IH _ e He) as [Hin|Ht]; auto.
Qed.

Lemma dataTotal_nonneg (m : Z) (events : list Event) :
  forallb (withinHead m) events = true -> 0 <= dataTotal events.
Proof.
  induction events as [|ev events IH]; cbn; [lia|].
  intros Hall. apply andb_prop in Hall. destruct Hall as [Hev Hrest].
  specialize (IH Hrest). destruct ev; cbn in Hev |- *; lia.
Qed.

Lemma step_within_limit (rc : RequestConfig) (harConfig : HarConfig) (m : Z)
    (c : Capture) (ev : Event) :
  hc_maxContentLength harConfig = Finite m ->
  isTransfer ev = true ->
  withinHead m ev = true ->
  cap_bufferLenght c + dataTotal [ev] <= m ->
  cap_settled (step rc harConfig c ev) = cap_settled c /\
  cap_bufferLenght c <= cap_bufferLenght (step rc harConfig c ev)
    <= cap_bufferLenght c + dataTotal [ev] /\
  (In CallAbort (cap_calls (step rc harConfig c ev)) -> In CallAbort (cap_calls c)).
Proof.
  intros Hmax Htransfer Hwithin Hroom.
  step_cases c ev; try discriminate Htransfer; rewrite ?Hmax; cbn in *;
    try destruct (withContentOn harConfig); cbn;
    try destruct (contentLength res) as [n|]; cbn;
    try match goal with
        | |- context [?x >? m] => replace (x >? m) with false by lia
        end; cbn;
    try destruct listening; cbn;
    (split; [reflexivity|]); (split; [lia|]);
    rewrite ?in_app_iff; cbn; intuition congruence.
Qed.

Lemma run_within_limit (rc : RequestConfig) (harConfig : HarConfig) (m : Z)
    (events : list Event) :
  forall c,
    hc_maxContentLength harConfig = Finite m ->
    forallb isTransfer events = true ->
    forallb (withinHead m) events = true ->
    cap_bufferLenght c + dataTotal events <= m ->
    cap_settled (run rc harConfig c events) = cap_settled c /\
    (In CallAbort (cap_calls (run rc harConfig c events)) ->
     In CallAbort (cap_calls c)).
Proof.
  induction events as [|ev events IH]; intros c Hmax Htransfer Hwithin Hroom;
    [cbn; auto|].
  cbn in Htransfer, Hwithin.
  apply andb_prop in Htransfer. destruct Htransfer as [Htev Htrest].
  apply andb_prop in Hwithin. destruct Hwithin as [Hwev Hwrest].
  pose proof (dataTotal_nonneg m events Hwrest) as Hrest.
  assert (Hsplit : dataTotal (ev :: events) = dataTotal [ev] + dataTotal events)
    by (destruct ev; cbn; lia).
  assert (Hev : 0 <= dataTotal [ev]) by (destruct ev; cbn in Hwev |- *; lia).
  destruct (step_within_limit rc harConfig m c ev Hmax Htev Hwev)
    as (Hsettled & Hlen & Hcalls); [lia|].
  rewrite run_cons.
  destruct (IH (step rc harConfig c ev) Hmax Htrest Hwrest) as [Hs Hc]; [lia|].
  split; [congruence|auto].
Qed.

(** X22.  A transfer that stays within a finite [maxContentLength] is not
    stopped: when no Content-Length read from a head exceeds the maximum
    and the chunks together do not exceed it (a body of exactly the maximum
    included), the handlers do not abort, and the exchange is fulfilled with
    the response that completes it. *)
Theorem transfer_within_limit_completes (W : World) (store : Store)
    (rc : RequestConfig) (harConfig : HarConfig) (dns : option string)
    (depth : Z) (m : Z) (pre post : list Event) (res : Response) :
  let ex := W depth (optionsOf store rc) in
  let before := run rc harConfig (start rc (ex_request ex) dns) pre in
  hc_maxContentLength harConfig = Finite m ->
  ex_events ex = pre ++ EvComplete res :: post ->
  forallb isTransfer pre = true ->
  forallb (withinHead m) pre = true ->
  dataTotal pre <= m ->
  ~ In CallAbort (cap_calls before) /\
  resolved (snd (captureEntry W depth store rc harConfig dns))
  = Some (None, Some res, cap_remoteAddress before).
Proof.
  cbv zeta. intros Hmax Hevents Htransfer Hwithin Htotal.
  destruct (run_within_limit rc harConfig m pre
              (start rc (ex_request (W depth (optionsOf store rc))) dns)
              Hmax Htransfer Hwithin) as [Hsettled Hcalls]; [cbn; lia|].
  split; [intros Habort; exact (Hcalls Habort)|].
  unfold captureEntry. cbn [snd]. rewrite Hevents, run_app, run_cons.
  unfold resolved.
  rewrite (run_settled rc harConfig post _
             (Fulfilled res,
              cap_remoteAddress
                (run rc harConfig
                   (start rc (ex_request (W depth (optionsOf store rc))) dns) pre)));
    [reflexivity|].
  cbn [step]. unfold settle. rewrite Hsettled. reflexivity.
Qed.

(* ----------------------------------------------------------------- *)
(** *** The timer *)

Lemma step_timer_kept (rc : RequestConfig) (harConfig : HarConfig)
    (c : Capture) (ev : Event) :
  isEnd ev || isTimeout ev = false ->
  cap_timer (step rc harConfig c ev) = cap_timer c /\
  cap_endListener (step rc harConfig c ev) = cap_endListener c /\
  (forall e, In (CallEmitError e) (cap_calls (step rc harConfig c ev)) ->
             In (CallEmitError e) (cap_calls c) \/ e = maxSizeError).
Proof.
  intros Hev. step_cases c ev; try discriminate Hev;
    repeat match goal with
           | |- context [if ?b then _ else _] => destruct b; cbn
           end;
    (split; [reflexivity|]); (split; [reflexivity|]);
    intros e0; rewrite ?in_app_iff; cbn; intuition congruence.
Qed.

Lemma run_timer_kept (rc : RequestConfig) (harConfig : HarConfig)
    (events : list Event) :
  forall c,
    forallb (fun ev => negb (isEnd ev || isTimeout ev)) events = true ->
    cap_timer (run rc harConfig c events) = cap_timer c /\
    cap_endListener (run rc harConfig c events) = cap_endListener c.
Proof.
  induction events as [|ev events IH]; intros c Hall; [cbn; auto|].
  cbn in Hall. apply andb_prop in Hall. destruct Hall as [Hev Hrest].
  apply negb_true_iff in Hev.
  destruct (step_timer_kept rc harConfig c ev Hev) as (Ht & Hl & _).
  rewrite run_cons. destruct (IH (step rc harConfig c ev) Hrest) as [Ht' Hl'].
  split; congruence.
Qed.

(** X23.  With a numeric [timeout], when the deadline passes on an exchange
    that is still pending and has not ended, the timer aborts the request
    and the promise is rejected with the ['ETIMEDOUT'] error: the hop ends
    the chain with an entry of status -1 that carries that code. *)
Theorem deadline_rejects_pending_exchange (W : World) (store : Store)
    (rc : RequestConfig) (harConfig : HarConfig) (dns : option string)
    (depth : Z) (t : Z) (pre post : list Event) :
  let ex := W depth (optionsOf store rc) in
  let before := run rc harConfig (start rc (ex_request ex) dns) pre in
  rc_timeout rc = Some t ->
  ex_events ex = pre ++ EvTimeout :: post ->
  forallb (fun ev => negb (isEnd ev || isTimeout ev)) pre = true ->
  cap_settled before = None ->
  let c := snd (captureEntry W depth store rc harConfig dns) in
  let entry :=
    entryOf W store rc harConfig depth
      (Some timeoutError, None, cap_remoteAddress before) in
  In CallAbort (cap_calls c) /\
  resolved c = Some (Some timeoutError, None, cap_remoteAddress before) /\
  (forall fuel,
      captureEntries (S fuel) W store rc harConfig dns depth = Some ([entry], store)) /\
  hres_status (entry_response entry) = -1 /\
  option_map err_code (hres_error (entry_response entry)) = Some (Some "ETIMEDOUT").
Proof.
  cbv zeta. intros Htimeout Hevents Hpre Hpending.
  set (c1 := run rc harConfig
               (start rc (ex_request (W depth (optionsOf store rc))) dns) pre) in *.
  assert (Htimer : cap_timer c1 = TimerPending).
  { unfold c1. rewrite (proj1 (run_timer_kept rc harConfig pre _ Hpre)).
    cbn. now rewrite Htimeout. }
  destruct (timeout_rejects harConfig rc c1 Hpending Htimer) as [Hres Habort].
  assert (Hc : snd (captureEntry W depth store rc harConfig dns)
               = run rc harConfig (step rc harConfig c1 EvTimeout) post).
  { unfold captureEntry. cbn [snd]. rewrite Hevents, run_app, run_cons. reflexivity. }
  assert (Hfinal : resolved (snd (captureEntry W depth store rc harConfig dns))
                   = Some (Some timeoutError, None, cap_remoteAddress c1)).
  { rewrite Hc. unfold resolved in *.
    destruct (cap_settled (step rc harConfig c1 EvTimeout)) as [x|] eqn:Hx;
      [|discriminate].
    rewrite (run_settled rc harConfig post _ x Hx). exact Hres. }
  split; [rewrite Hc; now apply run_calls|].
  split; [exact Hfinal|]. split.
  - intros fuel. rewrite captureEntries_S, captureHop_eq, Hfinal. reflexivity.
  - split; [reflexivity|]. rewrite entryOf_error. reflexivity.
Qed.

Lemma step_no_timer (rc : RequestConfig) (harConfig : HarConfig)
    (c : Capture) (ev : Event) :
  cap_timer c = TimerNone -> cap_endListener c = false ->
  cap_timer (step rc harConfig c ev) = TimerNone /\
  cap_endListener (step rc harConfig c ev) = false /\
  (forall k, In k (cap_calls (step rc harConfig c ev)) ->
             In k (cap_calls c) \/
             (k <> CallEmitError timeoutError /\ k <> CallClearTimeout)).
Proof.
  destruct c as [[settled|] len timer listening address calls]; cbn;
    intros -> ->;
    destruct ev; cbn [step];
    unfold onLookup, onResponse, onData, onEnd, onError, onTimeout, abortWith,
      onError, settle, called, setTimer, dataListener; cbn;
    repeat match goal with
           | |- context [if ?b then _ else _] => destruct b; cbn
           end;
    (split; [reflexivity|]); (split; [reflexivity|]);
    intros k; rewrite ?in_app_iff; cbn;
    intuition (subst; right; split; discriminate).
Qed.

(** X24.  Without a numeric [timeout] no timer is set: whatever happens,
    the passing of time aborts nothing, the handlers never emit the
    ['ETIMEDOUT'] error and never clear a timer. *)
Theorem no_timeout_no_timer (rc : RequestConfig) (harConfig : HarConfig)
    (reqObject : ReqObject) (dns : option string) (events : list Event) :
  rc_timeout rc = None ->
  let c := run rc harConfig (start rc reqObject dns) events in
  cap_timer c = TimerNone /\
  ~ In (CallEmitError timeoutError) (cap_calls c) /\
  ~ In CallClearTimeout (cap_calls c) /\
  (forall c', cap_timer c' = TimerNone -> step rc harConfig c' EvTimeout = c').
Proof.
  cbv zeta. intros Htimeout.
  assert (Hinv : forall evs c0,
    cap_timer c0 = TimerNone -> cap_endListener c0 = false ->
    cap_timer (run rc harConfig c0 evs) = TimerNone /\
    forall k, In k (cap_calls (run rc harConfig c0 evs)) ->
              In k (cap_calls c0) \/
              (k <> CallEmitError timeoutError /\ k <> CallClearTimeout)).
  { induction evs as [|ev evs IH]; intros c0 Ht Hl; [cbn; auto|].
    destruct (step_no_timer rc harConfig c0 ev Ht Hl) as (Ht' & Hl' & Hcalls).
    rewrite run_cons. destruct (IH _ Ht' Hl') as [Hfinal Hrest].
    split; [exact Hfinal|].
    intros k Hk. destruct (Hrest k Hk) as [Hin|Hnew]; auto. }
  destruct (Hinv events (start rc reqObject dns)) as [Ht Hcalls];
    try (cbn; now rewrite Htimeout).
  split; [exact Ht|]. split; [|split].
  - intros Hin. destruct (Hcalls _ Hin) as [[]|[Hne _]]. now apply Hne.
  - intros Hin. destruct (Hcalls _ Hin) as [[]|[_ Hne]]. now apply Hne.
  - intros c' Hc'. cbn. unfold onTimeout. now rewrite Hc'.
Qed.

Lemma step_cleared (rc : RequestConfig) (harConfig : HarConfig)
    (c : Capture) (ev : Event) :
  cap_timer c = TimerCleared -> cap_endListener c = false ->
  cap_timer (step rc harConfig c ev) = TimerCleared /\
  cap_endListener (step rc harConfig c ev) = false /\
  (forall e, In (CallEmitError e) (cap_calls (step rc harConfig c ev)) ->
             In (CallEmitError e) (cap_calls c) \/ e = maxSizeError).
Proof.
  destruct c as [[settled|] len timer listening address calls]; cbn;
    intros -> ->;
    destruct ev; cbn [step];
    unfold onLookup, onResponse, onData, onEnd, onError, onTimeout, abortWith,
      onError, settle, called, setTimer, dataListener; cbn;
    repeat match goal with
           | |- context [if ?b then _ else _] => destruct b; cbn
           end;
    (split; [reflexivity|]); (split; [reflexivity|]);
    intros e0; rewrite ?in_app_iff; cbn; intuition congruence.
Qed.

(** X25.  With a numeric [timeout], once the ['end'] event has come before
    the deadline the timer is cancelled for good: whatever follows, the
    deadline passing included, the timer stays cleared and the handlers
    never emit the ['ETIMEDOUT'] error. *)
Theorem end_cancels_deadline (rc : RequestConfig) (harConfig : HarConfig)
    (reqObject : ReqObject) (dns : option string) (t : Z)
    (pre post : list Event) :
  rc_timeout rc = Some t ->
  forallb (fun ev => negb (isEnd ev || isTimeout ev)) pre = true ->
  let c := run rc harConfig (start rc reqObject dns) (pre ++ EvEnd :: post) in
  cap_timer c = TimerCleared /\
  In CallClearTimeout (cap_calls c) /\
  ~ In (CallEmitError timeoutError) (cap_calls c).
Proof.
  cbv zeta. intros Htimeout Hpre.
  set (c1 := run rc harConfig (start rc reqObject dns) pre).
  destruct (run_timer_kept rc harConfig pre (start rc reqObject dns) Hpre)
    as [Htimer Hlistener].
  cbn [start cap_timer cap_endListener] in Htimer, Hlistener.
  rewrite Htimeout in Htimer, Hlistener. fold c1 in Htimer, Hlistener.
  assert (Hquiet : forall evs c0,
    forallb (fun ev => negb (isEnd ev || isTimeout ev)) evs = true ->
    forall e, In (CallEmitError e) (cap_calls (run rc harConfig c0 evs)) ->
              In (CallEmitError e) (cap_calls c0) \/ e = maxSizeError).
  { induction evs as [|ev evs IH]; intros c0 Hall e He; [cbn in He; auto|].
    cbn in Hall. apply andb_prop in Hall. destruct Hall as [Hev Hrest].
    apply negb_true_iff in Hev. rewrite run_cons in He.
    destruct (IH _ Hrest e He) as [Hin|Hsize]; [|auto].
    exact (proj2 (proj2 (step_timer_kept rc harConfig c0 ev Hev)) e Hin). }
  assert (Hafter : forall evs c0,
    cap_timer c0 = TimerCleared -> cap_endListener c0 = false ->
    cap_timer (run rc harConfig c0 evs) = TimerCleared /\
    forall e, In (CallEmitError e) (cap_calls (run rc harConfig c0 evs)) ->
              In (CallEmitError e) (cap_calls c0) \/ e = maxSizeError).
  { induction evs as [|ev evs IH]; intros c0 Ht Hl; [cbn; auto|].
    destruct (step_cleared rc harConfig c0 ev Ht Hl) as (Ht' & Hl' & Hcalls).
    rewrite run_cons. destruct (IH _ Ht' Hl') as [Hfinal Hrest].
    split; [exact Hfinal|].
    intros e He. destruct (Hrest e He) as [Hin|Hsize]; auto. }
  assert (Hend : cap_timer (step rc harConfig c1 EvEnd) = TimerCleared /\
                 cap_endListener (step rc harConfig c1 EvEnd) = false /\
                 cap_calls (step rc harConfig c1 EvEnd)
                 = cap_calls c1 ++ [CallClearTimeout]).
  { destruct c1 as [st len timer listening address calls]. cbn in *.
    subst timer listening. cbn. repeat split. }
  destruct Hend as (Ht & Hl & Hcalls).
  rewrite run_app, run_cons. fold c1.
  destruct (Hafter post _ Ht Hl) as [Hfinal Hemitted].
  split; [exact Hfinal|]. split.
  - apply run_calls. rewrite Hcalls, in_app_iff. right. now left.
  - intros Hin. destruct (Hemitted _ Hin) as [Hold|Hsize]; [|discriminate Hsize].
    rewrite Hcalls, in_app_iff in Hold.
    destruct Hold as [Hold|[Hold|[]]]; [|discriminate Hold].
    destruct (Hquiet pre (start rc reqObject dns) Hpre _ Hold) as [[]|Hsize].
    discriminate Hsize.
Qed.

(* ----------------------------------------------------------------- *)
(** *** The remote address *)

Lemma step_address_kept (rc : RequestConfig) (harConfig : HarConfig)
    (c : Capture) (ev : Event) :
  isLookup ev = false ->
  cap_remoteAddress (step rc harConfig c ev) = cap_remoteAddress c /\
  (cap_settled c = None ->
   forall s a, cap_settled (step rc harConfig c ev) = Some (s, a) ->
               a = cap_remoteAddress c).
Proof.
  intros Hev. step_cases c ev; try discriminate Hev;
    repeat match goal with
           | |- context [if ?b then _ else _] => destruct b; cbn
           | |- context [match ?t with TimerNone => _ | _ => _ end] =>
               destruct t; cbn
           end;
    (split; [reflexivity|]); intros Hp s a Hs; congruence.
Qed.

Lemma run_address_kept (rc : RequestConfig) (harConfig : HarConfig)
    (events : list Event) :
  forall c,
    forallb (fun ev => negb (isLookup ev)) events = true ->
    cap_settled c = None ->
    forall s a, cap_settled (run rc harConfig c events) = Some (s, a) ->
                a = cap_remoteAddress c.
Proof.
  induction events as [|ev events IH]; intros c Hall Hpending s a Hs.
  - cbn in Hs. congruence.
  - cbn in Hall. apply andb_prop in Hall. destruct Hall as [Hev Hrest].
    apply negb_true_iff in Hev.
    destruct (step_address_kept rc harConfig c ev Hev) as [Haddr Hsnap].
    rewrite run_cons in Hs.
    destruct (cap_settled (step rc harConfig c ev)) as [[s' a']|] eqn:Hstep.
    + rewrite (run_settled rc harConfig events _ _ Hstep) in Hs.
      injection Hs as <- <-. exact (Hsnap Hpending s' a' eq_refl).
    + rewrite <- Haddr. exact (IH _ Hrest Hstep s a Hs).
Qed.

(** X26.  When the transport performs no lookup during an exchange, the
    remote address of the hop is the host name of the request if that is a
    literal IP address, and otherwise what the DNS cache held when the hop
    started, that is the address of the hop before; the entry shows that
    address and the next hop inherits it. *)
Theorem address_without_lookup (W : World) (store : Store) (rc : RequestConfig)
    (harConfig : HarConfig) (dns : option string) (depth : Z)
    (entry : HarEntry) (follow : bool) (rc' : RequestConfig) (store' : Store)
    (dns' : option string) :
  let ex := W depth (optionsOf store rc) in
  let hostname := uri_hostname (req_uri (ex_request ex)) in
  forallb (fun ev => negb (isLookup ev)) (ex_events ex) = true ->
  captureHop W store rc harConfig dns depth = Some (entry, follow, rc', store', dns') ->
  hres_remoteAddress (entry_response entry)
  = (if netIsIP hostname then Some hostname else dns) /\
  dns' = hres_remoteAddress (entry_response entry).
Proof.
  cbv zeta. intros Hquiet Hhop. rewrite captureHop_eq in Hhop.
  destruct (resolved _) as [[[error0 response] address]|] eqn:Hres; [|discriminate].
  cbn [fst snd] in Hhop. injection Hhop as <- _ _ _ <-.
  unfold entryOf, buildHarEntry, buildHarResponse. cbn.
  split; [|reflexivity].
  unfold resolved, captureEntry in Hres. cbn [snd] in Hres.
  destruct (cap_settled _) as [[s a]|] eqn:Hs; [|discriminate].
  pose proof (run_address_kept rc harConfig _ _ Hquiet (start_pending _ _ _) s a Hs)
    as Ha.
  cbn in Ha. destruct s as [res|cause res]; injection Hres as _ _ <-; exact Ha.
Qed.

(** X27.  The address that the wrapped lookup finds is the remote address
    of the hop: when the last lookup before the exchange settles is for
    [host], the entry shows what the caller's [lookup] returns for [host],
    or what [dns.lookup] returns when the caller configured none. *)
Theorem address_from_last_lookup (W : World) (store : Store) (rc : RequestConfig)
    (harConfig : HarConfig) (dns : option string) (depth : Z)
    (pre post : list Event) (host : string)
    (entry : HarEntry) (follow : bool) (rc' : RequestConfig) (store' : Store)
    (dns' : option string) :
  let ex := W depth (optionsOf store rc) in
  let lookupFn := match rc_lookup rc with Some f => f | None => dnsLookup end in
  ex_events ex = pre ++ EvLookup host :: post ->
  cap_settled (run rc harConfig (start rc (ex_request ex) dns) pre) = None ->
  forallb (fun ev => negb (isLookup ev)) post = true ->
  captureHop W store rc harConfig dns depth = Some (entry, follow, rc', store', dns') ->
  hres_remoteAddress (entry_response entry) = lookupFn host /\
  dns' = lookupFn host.
Proof.
  cbv zeta. intros Hevents Hpending Hquiet Hhop. rewrite captureHop_eq in Hhop.
  destruct (resolved _) as [[[error0 response] address]|] eqn:Hres; [|discriminate].
  cbn [fst snd] in Hhop. injection Hhop as <- _ _ _ <-.
  unfold entryOf, buildHarEntry, buildHarResponse. cbn.
  assert (Haddress : address
                     = match rc_lookup rc with Some f => f | None => dnsLookup end host);
    [|split; exact Haddress].
  unfold resolved, captureEntry in Hres. cbn [snd] in Hres.
  rewrite Hevents, run_app, run_cons in Hres.
  match type of Hres with
  | context [cap_settled ?c] => destruct (cap_settled c) as [[s a]|] eqn:Hs
  end; [|discriminate].
  assert (Hlooked : cap_settled
                      (step rc harConfig
                         (run rc harConfig
                            (start rc (ex_request (W depth (optionsOf store rc))) dns)
                            pre)
                         (EvLookup host)) = None)
    by (cbn; exact Hpending).
  pose proof (run_address_kept rc harConfig _ _ Hquiet Hlooked s a Hs) as Ha.
  cbn in Ha. destruct s as [res|cause res]; injection Hres as _ _ <-; exact Ha.
Qed.

End Specification.

(* ----------------------------------------------------------------- *)
(** ** The specification in the concrete world *)

#[local] Existing Instance Demo.collaborators.





Lemma moved_faithful : faithful Demo.moved.
Proof.
  intros depth o. unfold Demo.moved.
  destruct (rc_url (opt_config o) =? "http://a.test/")%string; cbn;
    (split; [|split]); intros;
    repeat match goal with
           | Hin : _ \/ _ |- _ => destruct Hin
           | Hin : False |- _ => destruct Hin
           | Heq : _ = _ :> Event |- _ => first [discriminate Heq | injection Heq as <-]
           end;
    reflexivity.
Qed.

Lemma entries_in_hop_order_witness :
  exists log store',
    captureHar 5 Demo.moved ∅ (InUrl "http://a.test/") None = Some (log, store') /\
    length (log_entries log) = 2%nat /\
    (forall i entry,
        log_entries log !! i = Some entry ->
        hopEntry i Demo.moved Demo.defaults ∅ (Demo.get "http://a.test/") None 1
        = Some (entry, (S i <? length (log_entries log))%nat)) /\
    (forall e1 e2,
        log_entries log !! 0%nat = Some e1 ->
        log_entries log !! 1%nat = Some e2 ->
        hres_redirectURL (entry_response e1) = hreq_url (entry_request e2)).
Proof.
  destruct (captureHar 5 Demo.moved ∅ (InUrl "http://a.test/") None)
    as [[log store']|] eqn:Hrun; [|vm_compute in Hrun; discriminate].
  exists log, store'. split; [reflexivity|].
  destruct (entries_in_hop_order Demo.moved ∅ (InUrl "http://a.test/") None 5
              log store' Hrun) as (_ & Horder & Hcount & Hlink).
  split; [|split].
  - apply (Hcount 1%nat
             (entryOf Demo.moved ∅ (Demo.get "http://b.test/") Demo.defaults 2
                (None,
                 Some (Demo.respond (optionsOf ∅ (Demo.get "http://b.test/")) 200
                         [("content-type", VStr "text/plain")] (BodyString "hello")),
                 Some "192.0.2.1"))).
    reflexivity.
  - exact Horder.
  - intros e1 e2. apply (Hlink moved_faithful 0%nat).
Defined.

(** C3 as stated fails on a hop that is rejected with an error
    carrying the redirect: with [maxRedirects = 0] the log has one entry,
    whose response is the 302 with its usable Location, and that entry
    carries the error of the exchange, not ['MAXREDIRECTS']. *)
Lemma rejected_redirect_hides_max_redirects :
  let rc := Demo.getWith "http://a.test/" None (Some 0) in
  exists log store' entry,
    captureHar 3 Demo.rejectedRedirect ∅ (InConfig rc) None = Some (log, store') /\
    log_entries log = [entry] /\
    hres_status (entry_response entry) = 302 /\
    hres_redirectURL (entry_response entry) = "http://b.test/" /\
    hres_error (entry_response entry) = Some Demo.transformError /\
    option_map err_code (hres_error (entry_response entry))
    <> Some (Some "MAXREDIRECTS").
Proof.
  intros rc.
  destruct (captureHar 3 Demo.rejectedRedirect ∅ (InConfig rc) None)
    as [[log store']|] eqn:Hrun; [|vm_compute in Hrun; discriminate].
  vm_compute in Hrun. injection Hrun as <- <-.
  eexists _, _, _. split; [reflexivity|]. split; [reflexivity|].
  split; [reflexivity|]. split; [reflexivity|]. split; [reflexivity|].
  intros Hcode. discriminate Hcode.
Qed.

Lemma depth_check_decides_witness :
  let rc := Demo.getWith "http://loop.test/" None (Some 0) in
  let r := Demo.respond (optionsOf ∅ rc) 302
             [("location", VStr "http://loop.test/")] (BodyString "") in
  let entry := entryOf Demo.loop ∅ rc Demo.defaults 1 (None, Some r, Some "192.0.2.1") in
  hopEntry 0 Demo.loop Demo.defaults ∅ rc None 1 = Some (entry, false) /\
  hres_error (entry_response entry) = Some maxRedirectsError /\
  option_map err_code (hres_error (entry_response entry)) = Some (Some "MAXREDIRECTS") /\
  stopsAt Demo.loop ∅ (InConfig rc) None 0 entry.
Proof.
  intros rc r entry.
  destruct (depth_check_decides Demo.loop ∅ (InConfig rc) None 0 ∅ rc None 1 None r
              (Some "192.0.2.1"))
    as (_ & Hentry & _ & Hstop & Hcode).
  - left. reflexivity.
  - reflexivity.
  - reflexivity.
  - simpl. lia.
  - vm_compute. discriminate.
  - destruct Hstop as (Herr & Hone); [simpl; lia|].
    split; [exact Hentry|]. split; [exact Herr|].
    split; [apply Hcode; [simpl; lia|reflexivity]|exact Hone].
Defined.

(** With [maxRedirects = 2] an endless redirect gives three entries: two
    followed hops and the hop that carries the error. *)
Example two_redirects_then_error :
  option_map
    (fun result =>
       map (fun e => option_map err_code (hres_error (entry_response e)))
           (log_entries (fst result)))
    (captureHar 5 Demo.loop ∅
       (InConfig (Demo.getWith "http://loop.test/" None (Some 2))) None)
  = Some [None; None; Some (Some "MAXREDIRECTS")].
Proof. vm_compute. reflexivity. Qed.

(** C4 as stated fails on a hop that is rejected with an error
    carrying the redirect: the predicate refuses the first redirecting
    response and the log has one entry, but an error is recorded on it. *)
Lemma rejected_redirect_records_error :
  let never : Response -> bool := fun _ => false in
  let rc := Demo.getWith "http://a.test/" (Some (FollowFn never)) None in
  exists log store' entry,
    captureHar 3 Demo.rejectedRedirect ∅ (InConfig rc) None = Some (log, store') /\
    log_entries log = [entry] /\
    hres_status (entry_response entry) = 302 /\
    hres_redirectURL (entry_response entry) = "http://b.test/" /\
    hres_error (entry_response entry) <> None.
Proof.
  intros never rc.
  destruct (captureHar 3 Demo.rejectedRedirect ∅ (InConfig rc) None)
    as [[log store']|] eqn:Hrun; [|vm_compute in Hrun; discriminate].
  vm_compute in Hrun. injection Hrun as <- <-.
  eexists _, _, _. split; [reflexivity|]. split; [reflexivity|].
  split; [reflexivity|]. split; [reflexivity|].
  intros Herr. discriminate Herr.
Qed.

Lemma predicate_alone_decides_witness :
  let never : Response -> bool := fun _ => false in
  let rc := Demo.getWith "http://loop.test/" (Some (FollowFn never)) (Some 5) in
  let r := Demo.respond (optionsOf ∅ rc) 302
             [("location", VStr "http://loop.test/")] (BodyString "") in
  let entry := entryOf Demo.loop ∅ rc Demo.defaults 1 (None, Some r, Some "192.0.2.1") in
  shouldRedirect (Some r) rc 1 = (false, None) /\
  hopEntry 0 Demo.loop Demo.defaults ∅ rc None 1 = Some (entry, false) /\
  hres_error (entry_response entry) = None /\
  stopsAt Demo.loop ∅ (InConfig rc) None 0 entry.
Proof.
  intros never rc r entry.
  destruct (predicate_alone_decides Demo.loop ∅ (InConfig rc) None never 0 ∅ rc
              None 1 None r (Some "192.0.2.1"))
    as (Hdecide & Hentry & Herr & Hstop).
  - reflexivity.
  - reflexivity.
  - reflexivity.
  - simpl. lia.
  - vm_compute. discriminate.
  - split; [exact Hdecide|]. split; [exact Hentry|]. split; [exact Herr|].
    apply Hstop. reflexivity.
Defined.

(** A predicate that accepts follows the redirect at a depth beyond
    [maxRedirects]: with [maxRedirects = 0] the log has two entries and
    neither carries an error. *)
Example predicate_ignores_max_redirects :
  let always : Response -> bool := fun _ => true in
  option_map
    (fun result =>
       map (fun e => (hres_status (entry_response e),
                      hres_error (entry_response e)))
           (log_entries (fst result)))
    (captureHar 5 Demo.moved ∅
       (InConfig (Demo.getWith "http://a.test/" (Some (FollowFn always)) (Some 0)))
       None)
  = Some [(302, None); (200, None)].
Proof. vm_compute. reflexivity. Qed.

(** C5 as stated fails on a hop that is rejected with an error
    carrying the response: the 301 has no Location header, the log has one
    entry with an empty [redirectURL], and that entry carries the error of
    the exchange, not ['NOLOCATION']. *)
Lemma rejected_hop_hides_missing_location :
  exists log store' entry,
    captureHar 3 Demo.rejectedLost ∅ (InUrl "http://a.test/") None
    = Some (log, store') /\
    log_entries log = [entry] /\
    hres_status (entry_response entry) = 301 /\
    hres_redirectURL (entry_response entry) = "" /\
    hres_error (entry_response entry) = Some Demo.transformError /\
    option_map err_code (hres_error (entry_response entry))
    <> Some (Some "NOLOCATION").
Proof.
  destruct (captureHar 3 Demo.rejectedLost ∅ (InUrl "http://a.test/") None)
    as [[log store']|] eqn:Hrun; [|vm_compute in Hrun; discriminate].
  vm_compute in Hrun. injection Hrun as <- <-.
  eexists _, _, _. split; [reflexivity|]. split; [reflexivity|].
  split; [reflexivity|]. split; [reflexivity|]. split; [reflexivity|].
  intros Hcode. discriminate Hcode.
Qed.

Lemma missing_location_ends_chain_witness :
  let rc := Demo.get "http://a.test/" in
  let r := Demo.respond (optionsOf ∅ rc) 301 [] (BodyString "") in
  let entry := entryOf Demo.lost ∅ rc Demo.defaults 1 (None, Some r, Some "192.0.2.1") in
  getVal (res_headers r) "location" = VUndef /\
  hopEntry 0 Demo.lost Demo.defaults ∅ rc None 1 = Some (entry, false) /\
  stopsAt Demo.lost ∅ (InConfig rc) None 0 entry /\
  hres_redirectURL (entry_response entry) = "" /\
  hres_error (entry_response entry) = Some noLocationError /\
  option_map err_code (hres_error (entry_response entry)) = Some (Some "NOLOCATION").
Proof.
  intros rc r entry. split; [reflexivity|].
  destruct (missing_location_ends_chain Demo.lost ∅ (InConfig rc) None 0 ∅ rc None 1
              None r (Some "192.0.2.1"))
    as (Hentry & Hstop & Hurl & Herr & Hcode).
  - reflexivity.
  - reflexivity.
  - simpl. lia.
  - left. reflexivity.
  - split; [exact Hentry|]. split; [exact Hstop|]. split; [exact Hurl|].
    split; [exact Herr|]. apply Hcode. reflexivity.
Defined.

(** A Location header that is there but empty is as unusable as none. *)
Example empty_location_is_unusable :
  option_map
    (fun result =>
       map (fun e => (hres_redirectURL (entry_response e),
                      option_map err_code (hres_error (entry_response e))))
           (log_entries (fst result)))
    (captureHar 3
       (fun _ o => Demo.exchange o
          (Demo.delivered (Demo.respond o 302 [("location", VStr "")] (BodyString "")) 0))
       ∅ (InUrl "http://a.test/") None)
  = Some [("", Some (Some "NOLOCATION"))].
Proof. vm_compute. reflexivity. Qed.

Lemma size_limit_aborts_witness :
  let rc := Demo.get "http://a.test/" in
  let hc := {| hc_withContent := Some true; hc_maxContentLength := Finite 4 |} in
  let failed W := entryOf W ∅ rc hc 1 (Some maxSizeError, None, Some "192.0.2.1") in
  let aborted W :=
    In CallAbort (cap_calls (snd (captureEntry W 1 ∅ rc hc None))) /\
    resolved (snd (captureEntry W 1 ∅ rc hc None))
    = Some (Some maxSizeError, None, Some "192.0.2.1") /\
    (forall fuel, captureEntries (S fuel) W ∅ rc hc None 1 = Some ([failed W], ∅)) /\
    option_map err_code (hres_error (entry_response (failed W)))
    = Some (Some "MAX_RES_BODY_SIZE") in
  dataTotal (ex_events (Demo.announced 1 (optionsOf ∅ rc))) = 0 /\
  aborted Demo.announced /\
  getVal (res_headers (Demo.respond (optionsOf ∅ rc) 200 [] (BodyString "hello")))
    "content-length" = VUndef /\
  aborted Demo.streamed.
Proof.
  intros rc hc failed aborted.
  split; [reflexivity|]. split; [|split; [reflexivity|]].
  - (* the head announces 5 bytes, and no chunk ever comes *)
    set (res := Demo.respond (optionsOf ∅ rc) 200 [("content-length", VStr "5")]
                  BodyUndefined).
    refine (size_limit_aborts Demo.announced ∅ rc hc None 1 4
              [EvLookup "a.test"] [] (EvResponse res) _ _ _ _ _).
    + reflexivity.
    + reflexivity.
    + reflexivity.
    + reflexivity.
    + left. exists res, [5%nat]. split; [reflexivity|].
      split; [discriminate|]. split; [repeat constructor|].
      split; [reflexivity|]. vm_compute. reflexivity.
  - (* no Content-Length: the second chunk takes the count to 5 *)
    set (res := Demo.respond (optionsOf ∅ rc) 200 [] (BodyString "hello")).
    refine (size_limit_aborts Demo.streamed ∅ rc hc None 1 4
              [EvLookup "a.test"; EvResponse res; EvData 3]
              [EvEnd; EvComplete res] (EvData 2) _ _ _ _ _).
    + reflexivity.
    + reflexivity.
    + reflexivity.
    + reflexivity.
    + right. exists 2. split; [reflexivity|]. vm_compute. reflexivity.
Defined.

(** A Content-Length of several digits is read as the number it denotes. *)
Example content_length_of_numeral :
  numeral [1; 0; 2; 4]%nat = "1024"%string /\
  numeralValue [1; 0; 2; 4]%nat = 1024 /\
  contentLength
    (Demo.respond (optionsOf ∅ (Demo.get "http://a.test/")) 200
       [("content-length", VStr "1024")] BodyUndefined)
  = Some 1024.
Proof. repeat split. Qed.

(** The transport of [Demo.destroyed] hands over nothing of the body. *)
Lemma destroyed_hands_over_no_body : handsOverNoBody Demo.destroyed.
Proof.
  intros depth o. unfold Demo.destroyed, Demo.exchange. cbn [ex_events].
  split.
  - intros res Hin. cbn in Hin.
    destruct Hin as [Hin|[Hin|[Hin|[Hin|[]]]]]; try discriminate Hin.
    injection Hin as <-. right. reflexivity.
  - intros cause res Hin. cbn in Hin.
    destruct Hin as [Hin|[Hin|[Hin|[Hin|[]]]]]; discriminate Hin.
Qed.

Lemma without_content_body_is_skipped_witness :
  let ho := Some {| ho_withContent := Some false;
                    ho_maxContentLength := Some (Finite 1) |} in
  let hc := buildHarConfig (orEmpty ho) in
  let rc := Demo.get "http://a.test/" in
  let c := snd (captureEntry Demo.destroyed 1 ∅ rc hc None) in
  In CallDestroy (cap_calls c) /\
  In CallEnd (cap_calls c) /\
  cap_calls c = [CallDestroy; CallEnd] /\
  cap_bufferLenght c = 0 /\
  exists log store' entry,
    captureHar 3 Demo.destroyed ∅ (InUrl "http://a.test/") ho = Some (log, store') /\
    log_entries log = [entry] /\
    content_text (hres_content (entry_response entry)) = None /\
    content_size (hres_content (entry_response entry)) = 0 /\
    hres_error (entry_response entry) = None.
Proof.
  intros ho hc rc c.
  destruct (without_content_body_is_skipped
              Demo.destroyed ∅ (InUrl "http://a.test/") (Some (Finite 1)))
    as (_ & Hcalls & _ & _ & Hentries).
  set (head := Demo.respond (optionsOf ∅ rc) 200 [("content-length", VStr "5")]
                 BodyUndefined).
  destruct (Hcalls 1 ∅ rc None head) as [Hdestroy Hend];
    [right; left; reflexivity|].
  split; [exact Hdestroy|]. split; [exact Hend|].
  split; [reflexivity|]. split; [reflexivity|].
  destruct (captureHar 3 Demo.destroyed ∅ (InUrl "http://a.test/") ho)
    as [[log store']|] eqn:Hrun; [|vm_compute in Hrun; discriminate].
  assert (Hone : exists entry, log_entries log = [entry]).
  { vm_compute in Hrun. injection Hrun as <- _. eexists. reflexivity. }
  destruct Hone as [entry Hone].
  assert (Hi : log_entries log !! 0%nat = Some entry) by (rewrite Hone; reflexivity).
  destruct (Hentries 3%nat log store' 0%nat entry Hrun Hi) as (Htext & _ & Hsize).
  exists log, store', entry.
  split; [reflexivity|]. split; [exact Hone|]. split; [exact Htext|].
  split; [exact (Hsize destroyed_hands_over_no_body)|].
  vm_compute in Hrun. injection Hrun as <- _.
  injection Hone as <-. reflexivity.
Defined.

(** With content the same exchange is aborted at its head, at which the
    5 bytes announced exceed the maximum of 1. *)
Example with_content_same_exchange_aborted :
  let ho := Some {| ho_withContent := Some true;
                    ho_maxContentLength := Some (Finite 1) |} in
  option_map
    (fun result =>
       map (fun e => option_map err_code (hres_error (entry_response e)))
           (log_entries (fst result)))
    (captureHar 3 Demo.destroyed ∅ (InUrl "http://a.test/") ho)
  = Some [Some (Some "MAX_RES_BODY_SIZE")].
Proof. vm_compute. reflexivity. Qed.

(** C8.  A refused connection settles the exchange with the transport error
    and without an ['end'] event, so the timer of a request with a timeout
    is still pending after the exchange has settled; when the deadline
    passes, its callback runs all the same: it aborts the request and emits
    the ['ETIMEDOUT'] error on an exchange that is already settled. *)
Theorem timer_outlives_transport_error :
  let rc := Demo.timed in
  let settled :=
    run rc Demo.defaults (start rc (Demo.requestOf (optionsOf ∅ rc)) None)
        [EvError Demo.econnrefused] in
  let late := step rc Demo.defaults settled EvTimeout in
  resolved settled = Some (Some Demo.econnrefused, None, None) /\
  cap_timer settled = TimerPending /\
  cap_calls settled = [] /\
  cap_timer late = TimerFired /\
  cap_calls late = [CallAbort; CallEmitError timeoutError] /\
  resolved late = resolved settled.
Proof. cbv zeta. repeat split. Qed.

(** A response that is delivered whole cancels the timer before the promise
    settles. *)
Example timer_cancelled_on_end :
  let rc := Demo.timed in
  let res := Demo.respond (optionsOf ∅ rc) 200 [] (BodyString "hello") in
  let c := run rc Demo.defaults (start rc (Demo.requestOf (optionsOf ∅ rc)) None)
             (Demo.delivered res 5 ++ [EvTimeout]) in
  resolved c = Some (None, Some res, None) /\
  cap_timer c = TimerCleared /\
  cap_calls c = [CallClearTimeout].
Proof. cbv zeta. repeat split. Qed.

(** C9.  Following a redirect with a configuration that has a Host header
    writes the new host into the headers object of the caller: the
    configuration of the next hop shares that object, so after the capture
    the caller's headers map [Host] to the host of the redirect target. *)
Theorem redirect_rewrites_callers_headers :
  exists log store',
    captureHar 3 Demo.moved Demo.hostedStore (InConfig Demo.hosted) None
    = Some (log, store') /\
    length (log_entries log) = 2%nat /\
    rc_headers Demo.hosted = Some 1%positive /\
    Demo.hostedStore !! 1%positive = Some [("Host", "a.test")] /\
    store' !! 1%positive = Some [("Host", "b.test")].
Proof.
  destruct (captureHar 3 Demo.moved Demo.hostedStore (InConfig Demo.hosted) None)
    as [[log store']|] eqn:Hrun; [|vm_compute in Hrun; discriminate].
  exists log, store'. split; [reflexivity|].
  vm_compute in Hrun. injection Hrun as <- <-.
  repeat split.
Qed.

(** Without a Host header the store is left as it was. *)
Example no_host_header_no_write :
  option_map snd
    (captureHar 3 Demo.moved
       {[ 1%positive := [("Accept", "text/html")] ]}
       (InConfig Demo.hosted) None)
  = Some {[ 1%positive := [("Accept", "text/html")] ]}.
Proof. vm_compute. reflexivity. Qed.

Lemma buffer_body_roundtrip_witness :
  let bs := ["M"%byte; "a"%byte; "n"%byte; "!"%byte] in
  let o := optionsOf ∅ (Demo.get "http://a.test/") in
  let content :=
    hres_content (entry_response
      (entryOf Demo.binary ∅ (Demo.get "http://a.test/") Demo.defaults 1
         (None, Some (Demo.respond o 200 [] (BodyBuffer bs)), Some "192.0.2.1"))) in
  content_encoding content = Some "base64" /\
  (exists text, content_text content = Some text /\ Base64.decode text = Some bs) /\
  content_size content = Z.of_nat (length bs).
Proof.
  intros bs o.
  apply (buffer_body_roundtrip Demo.binary ∅ (Demo.get "http://a.test/")
           Demo.defaults 1 None (Some "192.0.2.1")
           (Demo.respond o 200 [] (BodyBuffer bs)) bs);
    reflexivity.
Defined.

Lemma flattened_names_witness :
  map nv_name
    (buildFlattenedNameValueMap
       (Some [("etag", VStr "abc"); ("set-cookie", VArr ["a=1"; "b=2"]);
              ("vary", VArr [])]))
  = ["etag"; "set-cookie"; "set-cookie"] /\
  map nv_name
    (buildFlattenedNameValueMap (Some [("etag", VStr "abc"); ("age", VUndef)]))
  = ["etag"; "age"].
Proof.
  split.
  - exact (proj1 (flattened_names
                    [("etag", VStr "abc"); ("set-cookie", VArr ["a=1"; "b=2"]);
                     ("vary", VArr [])])).
  - apply (proj2 (flattened_names [("etag", VStr "abc"); ("age", VUndef)])).
    reflexivity.
Defined.

Lemma content_size_ignores_config_witness :
  let r := Demo.respond (optionsOf ∅ (Demo.get "http://a.test/")) 200 []
             (BodyString "hello") in
  let off := {| hc_withContent := Some false; hc_maxContentLength := Infinity |} in
  content_size (buildHarContent (Some r) off)
  = content_size (buildHarContent (Some r) Demo.defaults) /\
  content_size (buildHarContent (Some r) off) = 5.
Proof.
  intros r off.
  apply (content_size_ignores_config r off Demo.defaults).
  intros json Hjson. discriminate Hjson.
Defined.

(** The size of a body that is neither a string nor a Buffer follows the
    captured text. *)
Example object_size_follows_text :
  let r := Demo.respond (optionsOf ∅ (Demo.get "http://a.test/")) 200 []
             (BodyObject "{}") in
  content_size (buildHarContent (Some r) Demo.defaults) = 2 /\
  content_size (buildHarContent (Some r)
                  {| hc_withContent := Some false;
                     hc_maxContentLength := Infinity |}) = 0.
Proof. split; reflexivity. Qed.

Lemma content_text_when_captured_witness :
  let r := Demo.respond (optionsOf ∅ (Demo.get "http://a.test/")) 200 []
             (BodyString "") in
  content_text (buildHarContent (Some r) Demo.defaults) = None /\
  content_encoding (buildHarContent (Some r) Demo.defaults) = None.
Proof.
  intros r.
  destruct (content_text_when_captured r Demo.defaults) as (Htext & _ & _ & Henc).
  assert (Hnone : content_text (buildHarContent (Some r) Demo.defaults) = None).
  { apply Htext. right. right. reflexivity. }
  split; [exact Hnone|exact (Henc Hnone)].
Defined.

Lemma status_never_zero_witness :
  let r := Demo.respond (optionsOf ∅ (Demo.get "http://a.test/")) 0 []
             BodyUndefined in
  let meta := {| meta_startTime := 0; meta_duration := 0;
                 meta_remoteAddress := None |} in
  hres_status (buildHarResponse None (Some r) Demo.defaults meta) = -1.
Proof.
  intros r meta.
  apply (proj2 (proj2 (status_never_zero None (Some r) Demo.defaults meta)) r);
    reflexivity.
Defined.

Lemma unparsable_cookie_dropped_witness :
  let cookies := @buildHarCookies Demo.withCookies in
  @toughParse Demo.withCookies "a=1" <> None /\
  @toughParse Demo.withCookies "b=2" <> None /\
  map hk_name (cookies (Some (["a=1"] ++ "garbage" :: ["b=2"]))) = ["a"; "b"] /\
  map hk_value (cookies (Some (["a=1"] ++ "garbage" :: ["b=2"]))) = ["1"; "2"] /\
  cookies (Some (["a=1"] ++ "garbage" :: ["b=2"]))
  = cookies (Some (["a=1"] ++ ["b=2"])) /\
  (length (cookies (Some (["a=1"] ++ "garbage" :: ["b=2"])))
   < length (["a=1"] ++ "garbage" :: ["b=2"]))%nat /\
  cookies (Some (["a=1"] ++ ["b=2"]))
  = cookies (Some ["a=1"]) ++ cookies (Some ["b=2"]).
Proof.
  intros cookies.
  split; [intros Hparse; discriminate Hparse|].
  split; [intros Hparse; discriminate Hparse|].
  split; [reflexivity|]. split; [reflexivity|].
  apply (@unparsable_cookie_dropped Demo.withCookies ["a=1"] ["b=2"] "garbage").
  reflexivity.
Defined.

Lemma single_set_cookie_wrapped_witness :
  let o := optionsOf ∅ (Demo.get "http://a.test/") in
  let meta := {| meta_startTime := 0; meta_duration := 0;
                 meta_remoteAddress := None |} in
  hres_cookies
    (buildHarResponse None
       (Some (Demo.respond o 200 [("set-cookie", VStr "a=1")] BodyUndefined))
       Demo.defaults meta)
  = hres_cookies
      (buildHarResponse None
         (Some (Demo.respond o 200 [("set-cookie", VArr ["a=1"])] BodyUndefined))
         Demo.defaults meta).
Proof.
  intros o meta.
  apply (proj1 (single_set_cookie_wrapped
                  (Demo.respond o 200 [("set-cookie", VStr "a=1")] BodyUndefined)
                  (Demo.respond o 200 [("set-cookie", VArr ["a=1"])] BodyUndefined)
                  "a=1" None None Demo.defaults Demo.defaults meta meta
                  ltac:(discriminate) eq_refl eq_refl)).
Defined.

Lemma method_case_insensitive_witness :
  let o := optionsOf ∅ (Demo.get "http://a.test/") in
  let lower := {| req_method := "get"; req_uri := urlParse "http://a.test/";
                  req_headers := []; req_sent := None; req_body := None |} in
  hreq_method (buildHarRequest lower) = hreq_method (buildHarRequest (Demo.requestOf o)) /\
  hreq_method (buildHarRequest lower) = "GET".
Proof.
  intros o lower.
  split; [|reflexivity].
  apply (proj1 (method_case_insensitive lower (Demo.requestOf o) eq_refl)).
Defined.

Lemma cookie_header_split_witness :
  let request := {| req_method := "GET"; req_uri := urlParse "http://a.test/";
                    req_headers := [("cookie", "a=1; b=2")]; req_sent := None;
                    req_body := None |} in
  exists header,
    getProp (req_headers request) "cookie" = Some header /\
    header <> "" /\
    String.concat ";" ["a=1"; " b=2"] = header /\
    Forall (fun piece => occurs ";" piece = false) ["a=1"; " b=2"].
Proof.
  intros request.
  apply (proj1 (cookie_header_split request) ["a=1"; " b=2"]).
  reflexivity.
Defined.

Lemma redirect_decision_exclusive_witness :
  let rc := Demo.getWith "http://a.test/" None (Some 0) in
  let r := Demo.respond (optionsOf ∅ rc) 302
             [("location", VStr "http://b.test/")] (BodyString "") in
  fst (shouldRedirect (Some r) rc 1) = false /\
  (maxRedirectsError = noLocationError \/ maxRedirectsError = maxRedirectsError) /\
  exists r', Some r = Some r' /\ 300 <= res_statusCode r' < 400.
Proof.
  intros rc r.
  apply (proj1 (proj2 (redirect_decision_exclusive (Some r) rc 1)) maxRedirectsError).
  reflexivity.
Defined.

Lemma followed_entries_are_redirects_witness :
  exists log store' entry,
    captureHar 5 Demo.moved ∅ (InUrl "http://a.test/") None = Some (log, store') /\
    log_entries log !! 0%nat = Some entry /\
    300 <= hres_status (entry_response entry) < 400 /\
    hres_redirectURL (entry_response entry) <> "".
Proof.
  destruct (captureHar 5 Demo.moved ∅ (InUrl "http://a.test/") None)
    as [[log store']|] eqn:Hrun; [|vm_compute in Hrun; discriminate].
  destruct (log_entries log !! 0%nat) as [entry|] eqn:Hentry;
    [|vm_compute in Hrun; injection Hrun as <- _; discriminate Hentry].
  exists log, store', entry. split; [reflexivity|]. split; [exact Hentry|].
  apply (followed_entries_are_redirects Demo.moved ∅ (InUrl "http://a.test/") None 5
           log store' 0 entry Hrun Hentry).
  vm_compute in Hrun. injection Hrun as <- _. simpl. lia.
Defined.

Lemma no_follow_single_entry_witness :
  let rc := Demo.getWith "http://a.test/" (Some (FollowBool false)) None in
  let r := Demo.respond (optionsOf ∅ rc) 302
             [("location", VStr "http://b.test/")] (BodyString "") in
  let entry := entryOf Demo.moved ∅ rc Demo.defaults 1
                 (None, Some r, Some "192.0.2.1") in
  stopsAt Demo.moved ∅ (InConfig rc) None 0 entry /\
  hres_error (entry_response entry) = None.
Proof.
  intros rc r entry.
  destruct (no_follow_single_entry Demo.moved ∅ (InConfig rc) None
              (None, Some r, Some "192.0.2.1"))
    as (Hstop & _ & _).
  - reflexivity.
  - reflexivity.
  - split; [exact Hstop|reflexivity].
Defined.

Lemma chain_length_bound_witness :
  exists log store',
    captureHar 9 Demo.loop ∅
      (InConfig (Demo.getWith "http://loop.test/" None (Some 2))) None
    = Some (log, store') /\
    Z.of_nat (length (log_entries log)) <= Z.max 0 2 + 1.
Proof.
  destruct (captureHar 9 Demo.loop ∅
              (InConfig (Demo.getWith "http://loop.test/" None (Some 2))) None)
    as [[log store']|] eqn:Hrun; [|vm_compute in Hrun; discriminate].
  exists log, store'. split; [reflexivity|].
  apply (chain_length_bound Demo.loop ∅
           (InConfig (Demo.getWith "http://loop.test/" None (Some 2))) None 9
           log store'); [|exact Hrun].
  intros f Hf. discriminate Hf.
Defined.

Lemma hop_config_differs_in_url_only_witness :
  let rc := Demo.get "http://a.test/" in
  let next := Demo.get "http://b.test/" in
  2 = 1 + Z.of_nat 1 /\
  next = withUrl rc (rc_url next) /\
  (forall entry follow,
      hopEntry 0 Demo.moved Demo.defaults ∅ rc None 1 = Some (entry, follow) ->
      rc_url next = hres_redirectURL (entry_response entry)).
Proof.
  intros rc next.
  destruct (hop_config_differs_in_url_only Demo.moved ∅ (InConfig rc) None 1
              ∅ next (Some "192.0.2.1") 2)
    as (Hdepth & Hframe & _ & Hurl); [reflexivity|].
  split; [exact Hdepth|]. split; [exact Hframe|].
  intros entry follow. exact (Hurl 0%nat entry follow eq_refl).
Defined.

Lemma rejected_hop_still_decided_witness :
  let rc := Demo.get "http://a.test/" in
  let r := Demo.respond (optionsOf ∅ rc) 302
             [("location", VStr "http://b.test/")] (BodyString "") in
  let entry := entryOf Demo.rejectedRedirect ∅ rc Demo.defaults 1
                 (Some Demo.transformError, Some r, Some "192.0.2.1") in
  hopEntry 0 Demo.rejectedRedirect Demo.defaults ∅ rc None 1 = Some (entry, true) /\
  hres_error (entry_response entry) = Some Demo.transformError.
Proof.
  intros rc r entry.
  destruct (rejected_hop_still_decided Demo.rejectedRedirect ∅ (InConfig rc) None 0
              ∅ rc None 1 Demo.transformError r (Some "192.0.2.1"))
    as (_ & Herror & _ & Hfollowed).
  - reflexivity.
  - reflexivity.
  - split; [|exact Herror].
    apply Hfollowed.
    + simpl. lia.
    + vm_compute. discriminate.
    + left. reflexivity.
    + simpl. lia.
Defined.

(** The capture of that chain has two entries: the rejected redirect, then
    its target. *)
Example rejected_redirect_followed :
  option_map
    (fun result =>
       map (fun e => (hres_status (entry_response e),
                      option_map err_message (hres_error (entry_response e))))
           (log_entries (fst result)))
    (captureHar 5 Demo.rejectedRedirect ∅ (InUrl "http://a.test/") None)
  = Some [(302, Some "transform failed"); (200, None)].
Proof. vm_compute. reflexivity. Qed.

Lemma non_redirect_ends_chain_witness :
  let rc := Demo.get "http://a.test/" in
  let r := Demo.respond (optionsOf ∅ rc) 200
             [("content-type", VStr "text/plain")] (BodyString "hello") in
  let entry := entryOf Demo.plain ∅ rc Demo.defaults 1
                 (None, Some r, Some "192.0.2.1") in
  stopsAt Demo.plain ∅ (InConfig rc) None 0 entry /\
  hres_error (entry_response entry) = None /\
  hres_redirectURL (entry_response entry) = "".
Proof.
  intros rc r entry.
  apply (non_redirect_ends_chain Demo.plain ∅ (InConfig rc) None 0 ∅ rc None 1 r
           (Some "192.0.2.1")).
  - reflexivity.
  - reflexivity.
  - left. simpl. lia.
Defined.

Lemma entry_fixed_fields_witness :
  exists log store' entry,
    captureHar 5 Demo.moved ∅ (InUrl "http://a.test/") None = Some (log, store') /\
    log_entries log !! 1%nat = Some entry /\
    (inject_Z (t_send (entry_timings entry))
     + inject_Z (t_receive (entry_timings entry))
     + t_wait (entry_timings entry) == entry_time entry)%Q /\
    hres_bodySize (entry_response entry) = -1.
Proof.
  destruct (captureHar 5 Demo.moved ∅ (InUrl "http://a.test/") None)
    as [[log store']|] eqn:Hrun; [|vm_compute in Hrun; discriminate].
  destruct (log_entries log !! 1%nat) as [entry|] eqn:Hentry;
    [|vm_compute in Hrun; injection Hrun as <- _; discriminate Hentry].
  exists log, store', entry. split; [reflexivity|]. split; [exact Hentry|].
  destruct (entry_fixed_fields Demo.moved ∅ (InUrl "http://a.test/") None 5
              log store' 1 entry Hrun Hentry)
    as (Htime & _ & _ & _ & _ & _ & Hsize & _).
  split; [exact Htime|exact Hsize].
Defined.

Lemma custom_host_header_name_witness :
  let store : Store := {[ 1%positive := [("Accept", "*/*"); ("HOST", "a.test");
                                          ("host", "other.test")] ]} in
  getCustomHostHeaderName store Demo.hosted = Some "HOST" /\
  Str.toLowerCase "HOST" = "host" /\
  exists before after,
    keys [("Accept", "*/*"); ("HOST", "a.test"); ("host", "other.test")]
    = before ++ "HOST" :: after /\
    Forall (fun key => Str.toLowerCase key <> "host") before.
Proof.
  intros store. split; [reflexivity|].
  apply (proj1 (proj2 (custom_host_header_name store Demo.hosted) 1%positive
                  [("Accept", "*/*"); ("HOST", "a.test"); ("host", "other.test")]
                  eq_refl eq_refl) "HOST").
  reflexivity.
Defined.

Lemma host_header_rewritten_witness :
  let store : Store := {[ 1%positive := [("Accept", "*/*"); ("Host", "a.test")] ]} in
  exists entry store' (l : ref) (headers headers' : list (string * string)),
    captureHop Demo.moved store Demo.hosted Demo.defaults None 1
    = Some (entry, true, withUrl Demo.hosted "http://b.test/", store',
            Some "192.0.2.1") /\
    store !! l = Some headers /\ store' !! l = Some headers' /\
    getProp headers' "Host" = Some "b.test" /\
    getProp headers' "Accept" = getProp headers "Accept" /\
    keys headers' = keys headers.
Proof.
  intros store.
  destruct (captureHop Demo.moved store Demo.hosted Demo.defaults None 1)
    as [[[[[entry follow] rc'] store'] dns']|] eqn:Hhop;
    [|vm_compute in Hhop; discriminate].
  assert (Hshape : follow = true /\ rc' = withUrl Demo.hosted "http://b.test/" /\
                   dns' = Some "192.0.2.1" /\
                   hres_redirectURL (entry_response entry) = "http://b.test/").
  { vm_compute in Hhop. injection Hhop as <- <- <- _ <-. repeat split. }
  destruct Hshape as (-> & -> & -> & Hurl).
  destruct (host_header_rewritten Demo.moved Demo.defaults store Demo.hosted None 1
              entry _ store' _ "Host" Hhop eq_refl)
    as (l & headers & headers' & _ & _ & Hs & Hs' & Hhost & Hother & Hkeys & _).
  exists entry, store', l, headers, headers'.
  split; [reflexivity|]. split; [exact Hs|]. split; [exact Hs'|].
  split; [rewrite Hhost, Hurl; reflexivity|].
  split; [apply Hother; discriminate|exact Hkeys].
Defined.

Lemma capture_writes_host_header_only_witness :
  let store : Store := {[ 1%positive := [("Accept", "*/*"); ("Host", "a.test")];
                          2%positive := [("Host", "elsewhere.test")] ]} in
  exists log store',
    captureHar 5 Demo.moved store (InConfig Demo.hosted) None = Some (log, store') /\
    store' !! 2%positive = store !! 2%positive /\
    exists headers',
      store' !! 1%positive = Some headers' /\
      keys headers' = ["Accept"; "Host"] /\
      getProp headers' "Accept" = Some "*/*".
Proof.
  intros store.
  destruct (captureHar 5 Demo.moved store (InConfig Demo.hosted) None)
    as [[log store']|] eqn:Hrun; [|vm_compute in Hrun; discriminate].
  exists log, store'. split; [reflexivity|].
  destruct (capture_writes_host_header_only Demo.moved store (InConfig Demo.hosted)
              None 5 log store' Hrun) as (_ & Hhost & Hother).
  split.
  - apply Hother. discriminate.
  - destruct (Hhost "Host" 1%positive [("Accept", "*/*"); ("Host", "a.test")]
                eq_refl eq_refl eq_refl) as (headers' & Hs' & Hkeys & Hsame).
    exists headers'. split; [exact Hs'|]. split; [exact Hkeys|].
    rewrite Hsame by discriminate. reflexivity.
Defined.

Lemma no_size_error_without_limit_witness :
  let rc := Demo.get "http://a.test/" in
  let events := ex_events (Demo.hello 1 (optionsOf ∅ rc)) in
  let c := run rc Demo.defaults (start rc (Demo.requestOf (optionsOf ∅ rc)) None)
             events in
  cap_bufferLenght c = 0 /\
  forall e, In (CallEmitError e) (cap_calls c) -> False \/ e = timeoutError.
Proof.
  intros rc events c.
  destruct (no_size_error_without_limit rc Demo.defaults
              (start rc (Demo.requestOf (optionsOf ∅ rc)) None) events eq_refl)
    as (Hlen & Hcalls & _).
  split; [exact Hlen|exact Hcalls].
Defined.

Lemma transfer_within_limit_completes_witness :
  let rc := Demo.get "http://a.test/" in
  let hc := {| hc_withContent := Some true; hc_maxContentLength := Finite 5 |} in
  let res := Demo.respond (optionsOf ∅ rc) 200 [("content-length", VStr "5")]
               (BodyString "hello") in
  resolved (snd (captureEntry Demo.hello 1 ∅ rc hc None))
  = Some (None, Some res, Some "192.0.2.1").
Proof.
  intros rc hc res.
  refine (proj2 (transfer_within_limit_completes Demo.hello ∅ rc hc None 1 5
                   [EvLookup "a.test"; EvResponse res; EvData 3; EvData 2; EvEnd]
                   [] res _ _ _ _ _)).
  - reflexivity.
  - reflexivity.
  - reflexivity.
  - reflexivity.
  - simpl. lia.
Defined.

Lemma deadline_rejects_pending_exchange_witness :
  let rc := Demo.timed in
  let res := Demo.respond (optionsOf ∅ rc) 200 [] (BodyString "hello") in
  let stalled : World :=
    fun _ o => Demo.exchange o [EvResponse res; EvData 3; EvTimeout; EvData 2] in
  let c := snd (captureEntry stalled 1 ∅ rc Demo.defaults None) in
  let entry := entryOf stalled ∅ rc Demo.defaults 1
                 (Some timeoutError, None, Some "192.0.2.1") in
  In CallAbort (cap_calls c) /\
  resolved c = Some (Some timeoutError, None, Some "192.0.2.1") /\
  (forall fuel, captureEntries (S fuel) stalled ∅ rc Demo.defaults None 1
                = Some ([entry], ∅)) /\
  hres_status (entry_response entry) = -1 /\
  option_map err_code (hres_error (entry_response entry)) = Some (Some "ETIMEDOUT").
Proof.
  intros rc res stalled.
  refine (deadline_rejects_pending_exchange stalled ∅ rc Demo.defaults None 1 5000
            [EvLookup "a.test"; EvResponse res; EvData 3] [EvData 2] _ _ _ _);
    reflexivity.
Defined.

Lemma no_timeout_no_timer_witness :
  let rc := Demo.get "http://a.test/" in
  let c := run rc Demo.defaults (start rc (Demo.requestOf (optionsOf ∅ rc)) None)
             [EvTimeout; EvError Demo.econnrefused; EvTimeout] in
  cap_timer c = TimerNone /\
  ~ In (CallEmitError timeoutError) (cap_calls c) /\
  ~ In CallClearTimeout (cap_calls c).
Proof.
  intros rc.
  destruct (no_timeout_no_timer rc Demo.defaults (Demo.requestOf (optionsOf ∅ rc))
              None [EvTimeout; EvError Demo.econnrefused; EvTimeout] eq_refl)
    as (Htimer & Hquiet & Hclear & _).
  split; [exact Htimer|]. split; [exact Hquiet|exact Hclear].
Defined.

Lemma end_cancels_deadline_witness :
  let rc := Demo.timed in
  let res := Demo.respond (optionsOf ∅ rc) 200 [] (BodyString "hello") in
  let c := run rc Demo.defaults (start rc (Demo.requestOf (optionsOf ∅ rc)) None)
             ([EvResponse res; EvData 5] ++ EvEnd :: [EvComplete res; EvTimeout]) in
  cap_timer c = TimerCleared /\
  In CallClearTimeout (cap_calls c) /\
  ~ In (CallEmitError timeoutError) (cap_calls c).
Proof.
  intros rc res.
  apply (end_cancels_deadline rc Demo.defaults (Demo.requestOf (optionsOf ∅ rc))
           None 5000 [EvResponse res; EvData 5] [EvComplete res; EvTimeout]);
    reflexivity.
Defined.

Lemma address_without_lookup_witness :
  let rc := Demo.get "http://b.test/" in
  let reused : World :=
    fun _ o =>
      {| ex_request := Demo.requestOf o;
         ex_events := [EvComplete (Demo.respond o 200 [] (BodyString "ok"))];
         ex_startTime := 0;
         ex_hrtime := (0, 0) |} in
  exists entry,
    captureHop reused ∅ rc Demo.defaults (Some "192.0.2.7") 2
    = Some (entry, false, withUrl rc "", ∅, Some "192.0.2.7") /\
    hres_remoteAddress (entry_response entry) = Some "192.0.2.7".
Proof.
  intros rc reused.
  destruct (captureHop reused ∅ rc Demo.defaults (Some "192.0.2.7") 2)
    as [[[[[entry follow] rc'] store'] dns']|] eqn:Hhop;
    [|vm_compute in Hhop; discriminate].
  destruct (address_without_lookup reused ∅ rc Demo.defaults (Some "192.0.2.7") 2
              entry follow rc' store' dns' eq_refl Hhop) as [Hentry Hnext].
  exists entry. split; [|exact Hentry].
  rewrite Hnext, Hentry.
  vm_compute in Hhop. injection Hhop as _ <- <- <- _. reflexivity.
Defined.

Lemma address_from_last_lookup_witness :
  let resolver : string -> option string := fun _ => Some "198.51.100.4" in
  let rc := {| rc_url := "http://a.test/"; rc_method := None; rc_headers := None;
               rc_body := None; rc_timeout := None; rc_followRedirect := None;
               rc_maxRedirects := None; rc_lookup := Some resolver |} in
  exists entry follow rc' store' dns',
    captureHop Demo.plain ∅ rc Demo.defaults None 1
    = Some (entry, follow, rc', store', dns') /\
    hres_remoteAddress (entry_response entry) = Some "198.51.100.4" /\
    dns' = Some "198.51.100.4".
Proof.
  intros resolver rc.
  destruct (captureHop Demo.plain ∅ rc Demo.defaults None 1)
    as [[[[[entry follow] rc'] store'] dns']|] eqn:Hhop;
    [|vm_compute in Hhop; discriminate].
  exists entry, follow, rc', store', dns'. split; [reflexivity|].
  set (res := Demo.respond (optionsOf ∅ rc) 200
                [("content-type", VStr "text/plain")] (BodyString "hello")).
  refine (address_from_last_lookup Demo.plain ∅ rc Demo.defaults None 1 []
            (Demo.delivered res 5) "a.test" entry follow rc' store' dns' _ _ _ Hhop);
    reflexivity.
Defined.

